(** * Monthly job-assignment engine of seniority_list: embedding and properties

    Shallow embedding of [seniority_list/functions.py].  numpy integer
    arrays are lists of [Z]; boolean masks are lists of [bool]; Python
    floats are idealised as exact rationals [Q] (no binary rounding error);
    Python exceptions are the [Raise] outcomes of the [result] type; the
    process-wide numpy random generator is an explicit [rng] value. *)

From Stdlib Require Import ZArith QArith Qround Lia Lqa String.
From stdpp Require Import base list gmap sorting.

Local Open Scope Z_scope.

(** ** Python and numpy primitives *)

Inductive exn : Type :=
| IndexError | KeyError | NameError | ValueError | ZeroDivisionError.

Inductive result (A : Type) : Type :=
| Ok (a : A)
| Raise (e : exn).
Arguments Ok {A} a.
Arguments Raise {A} e.

Definition bind {A B : Type} (c : result A) (k : A -> result B) : result B :=
  match c with
  | Ok a => k a
  | Raise e => Raise e
  end.

Notation "'let*' x ':=' c 'in' k" := (bind c (fun x => k))
  (at level 10, x pattern, c at level 100, k at level 200).

(** [d[k]] on a dict. *)
Definition dict_get `{Countable K} {V : Type} (d : gmap K V) (k : K) : result V :=
  match d !! k with
  | Some v => Ok v
  | None => Raise KeyError
  end.

(** [a[i]] with [0 <= i]. *)
Definition py_index {A : Type} (a : list A) (i : nat) : result A :=
  match a !! i with
  | Some v => Ok v
  | None => Raise IndexError
  end.

(** [l[:n]]: a negative bound counts from the end. *)
Definition py_upto {A : Type} (n : Z) (l : list A) : list A :=
  if 0 <=? n then take (Z.to_nat n) l
  else take (length l - Z.to_nat (- n))%nat l.

(** [l[n:]]: a negative bound counts from the end. *)
Definition py_from {A : Type} (n : Z) (l : list A) : list A :=
  if 0 <=? n then drop (Z.to_nat n) l
  else drop (length l - Z.to_nat (- n))%nat l.

(** [l[L:U]] for non-negative bounds. *)
Definition py_slice {A : Type} (L U : nat) (l : list A) : list A :=
  take (U - L)%nat (drop L l).

(** [l[::stride]] for a positive stride. *)
Fixpoint py_stride_from {A : Type} (skip stride : nat) (l : list A) : list A :=
  match l with
  | [] => []
  | x :: l' =>
      match skip with
      | O => x :: py_stride_from (stride - 1)%nat stride l'
      | S k => py_stride_from k stride l'
      end
  end.

Definition py_stride {A : Type} (stride : positive) (l : list A) : list A :=
  py_stride_from 0 (Pos.to_nat stride) l.

(** Python [round(x)]: nearest integer, ties to the even one. *)
Definition py_round (q : Q) : Z :=
  let f := Qfloor q in
  match Qcompare (q - inject_Z f) (1 # 2) with
  | Lt => f
  | Gt => f + 1
  | Eq => if Z.even f then f else f + 1
  end.

(** [round(x, 2)]. *)
Definition py_round2 (q : Q) : Q := inject_Z (py_round (q * 100)) / 100.

(** [astype(int)] on a float: truncation toward zero. *)
Definition astype_int (q : Q) : Z := Z.quot (Qnum q) (Zpos (Qden q)).

Definition sumZ (l : list Z) : Z := foldr Z.add 0 l.
Definition sumQ (l : list Q) : Q := foldr Qplus 0%Q l.

(** Elementwise comparisons producing masks. *)
Definition np_eq (a : list Z) (v : Z) : list bool := map (fun x => x =? v) a.
Definition np_ne (a : list Z) (v : Z) : list bool := map (fun x => negb (x =? v)) a.
Definition np_le (a : list Z) (v : Z) : list bool := map (fun x => x <=? v) a.
Definition np_gt (a : list Z) (v : Z) : list bool := map (fun x => v <? x) a.
Definition np_and (m1 m2 : list bool) : list bool := zip_with andb m1 m2.
Infix "&&&" := np_and (at level 40, left associativity).

(** [np.in1d(a, vals)]. *)
Definition np_in1d (a vals : list Z) : list bool :=
  map (fun x => existsb (Z.eqb x) vals) a.

(** [np.sum(mask)] and [np.where(mask)[0].size]. *)
Definition np_count (mask : list bool) : Z :=
  Z.of_nat (length (filter (fun b => b = true) mask)).

(** [np.where(mask)[0]]. *)
Fixpoint where_from (i : nat) (mask : list bool) : list nat :=
  match mask with
  | [] => []
  | b :: m => if b then i :: where_from (S i) m else where_from (S i) m
  end.

Definition np_where (mask : list bool) : list nat := where_from 0 mask.

(** [np.put(a, ind, v)]; every caller takes [ind] from [np_where] on a mask
    as long as [a], so no index is out of range. *)
Definition np_put (a : list Z) (ind : list nat) (v : Z) : list Z :=
  foldl (fun acc i => <[i := v]> acc) a ind.

(** [a[ind] = vals] with one value per index. *)
Fixpoint np_set_at (a : list Z) (ind : list nat) (vals : list Z) : list Z :=
  match ind, vals with
  | i :: ind', v :: vals' => np_set_at (<[i := v]> a) ind' vals'
  | _, _ => a
  end.

(** [a[ind]]. *)
Fixpoint np_take_at {A : Type} (a : list A) (ind : list nat) : result (list A) :=
  match ind with
  | [] => Ok []
  | i :: ind' =>
      let* x := py_index a i in
      let* xs := np_take_at a ind' in
      Ok (x :: xs)
  end.

(** [x - y] on one-dimensional arrays, with numpy's broadcasting rule. *)
Definition np_sub (x y : list Z) : result (list Z) :=
  if (length x =? length y)%nat then Ok (zip_with Z.sub x y)
  else match x, y with
       | [a], _ => Ok (map (fun b => a - b) y)
       | _, [b] => Ok (map (fun a => a - b) x)
       | _, _ => Raise ValueError
       end.

(** [min(a)]. *)
Definition py_min (a : list Z) : result Z :=
  match a with
  | [] => Raise ValueError
  | x :: a' => Ok (foldl Z.min x a')
  end.

(** [a[mask]]: boolean-mask selection. *)
Fixpoint np_select {A : Type} (a : list A) (mask : list bool) : list A :=
  match a, mask with
  | x :: a', b :: m' => if b then x :: np_select a' m' else np_select a' m'
  | _, _ => []
  end.

(** ** DISTRIBUTE (simple) *)

(** The [for weight in weights] loop shared verbatim by [distribute] and
    [distribute_vacancies_by_weights].  A zero [total_weights] makes the
    division fail (ZeroDivisionError on Python numbers, a nan that cannot
    become a count on numpy scalars). *)
Fixpoint distribute_loop (total_weights available : Q) (weights : list Q)
  : result (list Z) :=
  match weights with
  | [] => Ok []
  | weight :: rest =>
      if Qeq_bool total_weights 0 then Raise ZeroDivisionError
      else
        let p := (weight / total_weights)%Q in
        let this_bin_count := py_round (p * available) in
        let* bin_counts :=
          distribute_loop (total_weights - weight)%Q
                          (available - inject_Z this_bin_count)%Q rest in
        Ok (this_bin_count :: bin_counts)
  end.

Definition distribute (available : Q) (weights : list Q) : result (list Z) :=
  distribute_loop (sumQ weights) available weights.

(** ** DISTRIBUTE VACANCIES BY WEIGHTS *)

(** The [for num in additives] loop: positions of the positive entries,
    every other entry set to zero. *)
Fixpoint positive_slots (i : nat) (additives : list Z) : list nat * list Z :=
  match additives with
  | [] => ([], [])
  | num :: rest =>
      let '(list_loc, zeroed) := positive_slots (S i) rest in
      if 0 <? num then (i :: list_loc, num :: zeroed)
      else (list_loc, 0 :: zeroed)
  end.

Definition distribute_vacancies_by_weights
  (available : Z) (eg_counts : list Z) (weights : list Q) : result (list Z) :=
  let total_weights := sumQ weights in
  let vacancies := available - sumZ eg_counts in
  if vacancies <=? 0 then Ok (repeat 0 (length eg_counts))
  else
    let* bin_counts := distribute_loop total_weights (inject_Z available) weights in
    let* additives := np_sub bin_counts eg_counts in
    let* lowest := py_min additives in
    if lowest <? 0 then
      let '(list_loc, additives) := positive_slots 0 additives in
      let weights := map astype_int weights in
      let* chosen := np_take_at weights list_loc in
      let* shares := distribute (inject_Z vacancies) (map inject_Z chosen) in
      Ok (np_set_at additives list_loc shares)
    else Ok additives.

(** [np.arange(a, b)]. *)
Definition np_arange (a b : Z) : list Z :=
  map (fun i => a + Z.of_nat i) (seq 0 (Z.to_nat (b - a))).

(** [x in l] on integers and on strings. *)
Definition py_in (x : Z) (l : list Z) : bool := existsb (Z.eqb x) l.
Definition str_in (x : string) (l : list string) : bool := existsb (String.eqb x) l.

(** [np.min(a)], [np.max(a)]. *)
Definition np_min (a : list Z) : result Z :=
  match a with
  | [] => Raise ValueError
  | x :: a' => Ok (foldl Z.min x a')
  end.

Definition np_max (a : list Z) : result Z :=
  match a with
  | [] => Raise ValueError
  | x :: a' => Ok (foldl Z.max x a')
  end.

(** [dict(zip(keys, values))]: a later pair overrides an earlier one. *)
Definition py_dict (keys values : list Z) : gmap Z Z :=
  foldl (fun d kv => <[kv.1 := kv.2]> d) ∅ (zip keys values).

(** A month slice [arr[L:U]] is a view: what the month writes into it lands
    in the long array at offset [L]. *)
Definition write_view (L : nat) (new : list Z) (arr : list Z) : list Z :=
  take L arr ++ new ++ drop (L + length new)%nat arr.

(** [np.copyto(arr[L:U], src)]: same length, or a single value broadcast. *)
Definition np_copyto (L U : nat) (arr : list Z) (src : list Z) : result (list Z) :=
  let n := length (py_slice L U arr) in
  if (length src =? n)%nat then Ok (write_view L src arr)
  else match src with
       | [v] => Ok (write_view L (repeat v n) arr)
       | _ => Raise ValueError
       end.

(** ** The process-wide random generator *)

(** [np.random]'s hidden state, abstracted to the raw draws it will yield
    next; an exhausted state yields zeros. *)
Definition rng : Type := list nat.

(** A draw in [0 .. max]. *)
Definition random_interval (g : rng) (max : nat) : nat * rng :=
  match g with
  | [] => (0%nat, [])
  | d :: g' => ((d mod S max)%nat, g')
  end.

Definition swap (i j : nat) (x : list nat) : list nat :=
  match x !! i, x !! j with
  | Some xi, Some xj => <[i := xj]> (<[j := xi]> x)
  | _, _ => x
  end.

Fixpoint shuffle_loop (steps : list nat) (x : list nat) (g : rng) : list nat * rng :=
  match steps with
  | [] => (x, g)
  | i :: steps' =>
      let '(j, g') := random_interval g i in
      shuffle_loop steps' (swap i j x) g'
  end.

(** [np.random.shuffle(x)]: [for i in reversed(range(1, n))], swap [x[i]]
    with [x[j]] for a drawn [j <= i]. *)
Definition np_random_shuffle (x : list nat) (g : rng) : list nat * rng :=
  shuffle_loop (rev (seq 1 (length x - 1))) x g.

(** ** MARK_FOR_FURLOUGH *)

Definition mark_for_furlough (orig_range fur_range : list Z) (month : nat)
  (jobs_avail : list Z) (num_of_job_levels : Z) : result (list Z * list Z) :=
  let active_count := np_count (np_eq fur_range 0) in
  let* total := py_index jobs_avail month in
  let excess_job_slots := total - active_count in
  if 0 <=? excess_job_slots then Ok (orig_range, fur_range)
  else
    let non_fur_indexes := np_where (np_eq fur_range 0) in
    let fur_range' := np_put fur_range (py_from excess_job_slots non_fur_indexes) 1 in
    let orig_range' :=
      np_put orig_range (py_from excess_job_slots non_fur_indexes)
             (num_of_job_levels + 1) in
    Ok (orig_range', fur_range').

(** ** MARK_FOR_RECALL *)

Inductive recall_method : Type := sen_order | stride_method | random_method.

(** A recall schedule [sched]: [sched[0]] total amount per month,
    [sched[1]] amounts per employee group, months [sched[2] .. sched[3]). *)
Record recall_sched : Type := {
  sched_total : Z;
  sched_per_eg : list Z;
  sched_start : Z;
  sched_end : Z
}.

Fixpoint recall_loop (scheds : list recall_sched) (excess_job_slots : Z)
  (orig_range fur_range : list Z) (g : rng)
  (num_of_job_levels : Z) (month : nat) (standalone : bool) (eg_index : nat)
  (method : recall_method) (stride : positive)
  : result (list Z * list Z * rng) :=
  match scheds with
  | [] => Ok (orig_range, fur_range, g)
  | sched :: rest =>
      let continue_ :=
        recall_loop rest excess_job_slots orig_range fur_range g
                    num_of_job_levels month standalone eg_index method stride in
      if negb (py_in (Z.of_nat month) (np_arange (sched_start sched) (sched_end sched)))
      then continue_
      else
        let* amount :=
          if standalone then py_index (sched_per_eg sched) eg_index
          else Ok (sched_total sched) in
        if standalone && (amount =? 0) then continue_
        else
          let recalls_this_month := Z.min amount excess_job_slots in
          let fur_indexes := np_where (np_eq fur_range 1) in
          let '(chosen, g') :=
            match method with
            | sen_order => (py_upto recalls_this_month fur_indexes, g)
            | stride_method =>
                (py_upto recalls_this_month (py_stride stride fur_indexes), g)
            | random_method =>
                let '(shuffled, g') := np_random_shuffle fur_indexes g in
                (py_upto recalls_this_month shuffled, g')
            end in
          let fur_range' := np_put fur_range chosen 0 in
          let orig_range' := np_put orig_range chosen (num_of_job_levels + 1) in
          let excess_job_slots' := excess_job_slots - recalls_this_month in
          if excess_job_slots' =? 0 then Ok (orig_range', fur_range', g')
          else
            recall_loop rest excess_job_slots' orig_range' fur_range' g'
                        num_of_job_levels month standalone eg_index method stride
  end.

Definition mark_for_recall (orig_range : list Z) (num_of_job_levels : Z)
  (fur_range : list Z) (month : nat) (recall_sched : list recall_sched)
  (jobs_avail : list Z) (standalone : bool) (eg_index : nat)
  (method : recall_method) (stride : positive) (g : rng)
  : result (list Z * list Z * rng) :=
  let active_count := np_count (np_eq fur_range 0) in
  let* total := py_index jobs_avail month in
  let excess_job_slots := total - active_count in
  if 0 <? excess_job_slots then
    recall_loop recall_sched excess_job_slots orig_range fur_range g
                num_of_job_levels month standalone eg_index method stride
  else Ok (orig_range, fur_range, g).

(** ** MARK_FUR_RANGE *)

Definition mark_fur_range (assign_range fur_range : list Z) (job_levels : Z) : list Z :=
  let fur_range := np_put fur_range (np_where (np_eq assign_range 0)) 1 in
  np_put fur_range
         (np_where (np_gt assign_range 0 &&& np_le assign_range job_levels)) 0.

(** ** ALIGN NEXT (month) *)

Definition align_next (long_index_arr short_index_arr arr : list Z) : list Z :=
  np_select arr (np_in1d long_index_arr short_index_arr).

(** ** SET_RATIO_COND_DICT *)

(** A numpy float: a finite value or nan (from [0 / 0]). *)
Inductive pyfloat : Type := Fin (q : Q) | NaN.

Definition set_ratio_cond_dict (eg_num : Z) (job_list : list Z)
  (orig_rng eg_range : list Z) : gmap Z pyfloat :=
  foldl (fun ratio_cond_dict job =>
           let total_this_job_count := np_count (np_eq orig_rng job) in
           let eg_count := np_count (np_eq orig_rng job &&& np_eq eg_range eg_num) in
           let eg_ratio :=
             if total_this_job_count =? 0 then NaN
             else Fin (py_round2 (inject_Z eg_count / inject_Z total_this_job_count)) in
           <[job := eg_ratio]> ratio_cond_dict)
        ∅ job_list.

(** ** ASSIGN JOBS BY RATIO CONDITION *)

Definition assign_cond_ratio (job this_job_count eg_num : Z)
  (c_dict : gmap Z pyfloat) (orig_rng assign_rng eg_rng fur_rng : list Z)
  : result (list Z) :=
  let* ratio := dict_get c_dict job in
  match ratio with
  | NaN => Raise ValueError
  | Fin ratio =>
      let eg_job_count := py_round (ratio * inject_Z this_job_count) in
      let not_eg_job_count := this_job_count - eg_job_count in
      let assign_rng :=
        np_put assign_rng
               (py_upto eg_job_count
                  (np_where (np_eq assign_rng 0 &&& np_eq eg_rng eg_num
                             &&& np_eq fur_rng 0)))
               job in
      let assign_rng :=
        np_put assign_rng
               (py_upto not_eg_job_count
                  (np_where (np_eq assign_rng 0 &&& np_ne eg_rng eg_num
                             &&& np_eq fur_rng 0 &&& np_le orig_rng job)))
               job in
      let used_jobs := np_count (np_eq assign_rng job &&& np_gt eg_rng 1) in
      Ok (np_put assign_rng
                 (py_upto (not_eg_job_count - used_jobs)
                    (np_where (np_eq assign_rng 0 &&& np_ne eg_rng eg_num
                               &&& np_eq fur_rng 0)))
                 job)
  end.

(** ** ASSIGN JOBS BY RATIO for FIRST n JOBS *)

(** A [quota_dict] value: (weights, cap, share of the cap). *)
Definition quota : Type := (list Q * Q * Q)%type.

Definition assign_cond_ratio_capped (job this_job_count : Z)
  (eg_1_arr eg_2_arr : list Z) (quota_dict : gmap (Z * bool) quota)
  (enhanced_jobs : bool)
  (orig_range assign_range eg_range fur_range exclude_eg_range : list Z)
  : result (list Z) :=
  let eg_1_indexes := np_in1d eg_range eg_1_arr in
  let eg_2_indexes := np_in1d eg_range eg_2_arr in
  let affected_indexes := np_in1d eg_range (eg_1_arr ++ eg_2_arr) in
  let exclude_nbnf := np_where (np_eq exclude_eg_range job) in
  let assign_range := np_put assign_range exclude_nbnf job in
  let exclude_count := np_count (np_eq assign_range job) in
  let assign_range :=
    np_put assign_range
           (py_upto (this_job_count - exclude_count)
              (np_where (np_eq assign_range 0 &&& np_eq orig_range job
                         &&& np_eq fur_range 0 &&& affected_indexes)))
           job in
  let eg_1_count := np_count (np_eq assign_range job &&& eg_1_indexes) in
  let eg_2_count := np_count (np_eq assign_range job &&& eg_2_indexes) in
  let* entry := dict_get quota_dict (job, enhanced_jobs) in
  let '(weights, limit, pcnt) := entry in
  let limit := (limit * pcnt)%Q in
  let max_quota := Z.min this_job_count (py_round limit) in
  let available := max_quota - exclude_count in
  let eg_counts := [eg_1_count; eg_2_count] in
  let* assignment_list := distribute_vacancies_by_weights available eg_counts weights in
  if 0 <? sumZ assignment_list then
    let* eg_1_quota := py_index assignment_list 0 in
    let* eg_2_quota := py_index assignment_list 1 in
    let assign_range :=
      if 0 <? eg_1_quota then
        np_put assign_range
               (py_upto eg_1_quota
                  (np_where (np_eq assign_range 0 &&& eg_1_indexes
                             &&& np_eq fur_range 0)))
               job
      else assign_range in
    let assign_range :=
      if 0 <? eg_2_quota then
        np_put assign_range
               (py_upto eg_2_quota
                  (np_where (np_eq assign_range 0 &&& eg_2_indexes
                             &&& np_eq fur_range 0)))
               job
      else assign_range in
    Ok assign_range
  else
    let* eg_quotas := distribute limit weights in
    let open_jobs := this_job_count - exclude_count - eg_1_count - eg_2_count in
    let* quota_1 := py_index eg_quotas 0 in
    let* quota_2 := py_index eg_quotas 1 in
    let eg_1_shortfall := Z.max 0 (quota_1 - eg_1_count) in
    let eg_2_shortfall := Z.max 0 (quota_2 - eg_2_count) in
    let assign_range :=
      if 0 <? eg_2_shortfall then
        let eg_2_to_add := Z.min eg_2_shortfall open_jobs in
        np_put assign_range
               (py_upto eg_2_to_add
                  (np_where (np_eq assign_range 0 &&& eg_2_indexes
                             &&& np_eq fur_range 0)))
               job
      else assign_range in
    let assign_range :=
      if 0 <? eg_1_shortfall then
        let eg_1_to_add := Z.min eg_1_shortfall open_jobs in
        np_put assign_range
               (py_upto eg_1_to_add
                  (np_where (np_eq assign_range 0 &&& eg_1_indexes
                             &&& np_eq fur_range 0)))
               job
      else assign_range in
    Ok assign_range.

(** ** GET_RECALL_MONTHS, GET_JOB_CHANGE_MONTHS, GET_REDUCTION_MONTHS *)

(** The three functions return sorted arrays without duplicates; their
    results are only ever tested for membership, so the order and the
    duplicates are not represented. *)
Definition get_recall_months (list_of_recall_schedules : list recall_sched) : list Z :=
  flat_map (fun recall_sched => np_arange (sched_start recall_sched) (sched_end recall_sched))
           list_of_recall_schedules.

(** A job change [change]: [change[0]] job level, [change[1]] the months
    [start, end), [change[2]] the total delta, [change[3]] the deltas per
    employee group. *)
Record job_change : Type := {
  change_job : Z;
  change_start : Z;
  change_end : Z;
  change_delta : Z;
  change_eg_deltas : list Z
}.

Definition get_job_change_months (job_changes : list job_change) : list Z :=
  flat_map (fun change => np_arange (change_start change) (change_end change)) job_changes.

Definition get_job_reduction_months (job_changes : list job_change) : list Z :=
  flat_map (fun change =>
              if change_delta change <? 0
              then np_arange (change_start change) (change_end change)
              else [])
           job_changes.

(** ** Configuration *)

(** Modelled from the spec: the [config] module ([cf]) is not among the
    sources; its tables are given the columns that [functions.py] reads.
    A row of [cf.sg_rights] is [eg, job, count, start, end]. *)
Record sg_right : Type := {
  sg_eg : Z; sg_job : Z; sg_count : Z; sg_start : Z; sg_end : Z
}.

(** Modelled from the spec: a row of [cf.ratio_cond], of which the code
    reads column 1 (job), 2 (start month) and 3 (end month). *)
Record ratio_row : Type := {
  ratio_eg : Z; ratio_job : Z; ratio_start : Z; ratio_end : Z
}.

(** Modelled from the spec: a row of [cf.count_cond], of which the code
    reads column 1 (job), 3 (start month) and 4 (end month). *)
Record count_row : Type := {
  count_eg : Z; count_job : Z; count_cap : Z; count_start : Z; count_end : Z
}.

Record config : Type := {
  num_of_job_levels : Z;
  delayed_implementation : bool;
  enhanced_jobs : bool;
  sg_rights : list sg_right;
  ratio_cond : list ratio_row;
  count_cond : list count_row;
  quota_dict : gmap (Z * bool) quota;
  recalls : list recall_sched
}.

(** The long-form dataframe columns read by the engine. *)
Record dataframe : Type := {
  df_orig_job : list Z;
  df_eg : list Z;
  df_sg : list Z;
  df_fur : list Z;
  df_index : list Z
}.

(** ** ASSIGN JOBS NBNF JOB CHANGES *)

(** What the engine computes before the monthly loop. *)
Record conditions : Type := {
  sg_jobs : list Z;
  sg_dict : gmap Z Z;
  sg_month_range : list Z;
  ratio_jobs : list Z;
  ratio_cond_month : Z;
  ratio_cond_job : Z;
  ratio_month_range : list Z;
  count_jobs : list Z;
  count_month_range : list Z;
  recall_months : list Z;
  all_change_months : list Z
}.

(** The mutable arrays of the engine, the ratio dictionary (unbound until
    it is first set) and the random generator. *)
Record engine_state : Type := {
  orig : list Z;
  fur_data : list Z;
  long_assign_column : list Z;
  long_count_column : list Z;
  ratio_cond_dict : option (gmap Z pyfloat);
  np_random : rng
}.

(** The first-n masked assignment that every step of the loop performs:
    [np.put(assign_range, np.where(mask)[0][:n], job)]. *)
Definition put_first (n : Z) (mask : list bool) (a : list Z) (v : Z) : list Z :=
  np_put a (py_upto n (np_where mask)) v.

Section Engine.

Variable cf : config.

Variable condition_list : list string.
Variable fur_return : bool.
Variable job_counts_each_month : list (list Z).
Variable total_monthly_job_count : list Z.
Variable job_reduction_months : list Z.

Definition prepare (job_change_months : list Z) : result conditions :=
  let with_prex := str_in "prex" condition_list in
  let with_ratio := str_in "ratio" condition_list in
  let with_count := str_in "count" condition_list in
  let* sg_range_ :=
    if with_prex then
      let* lo := np_min (map sg_start (sg_rights cf)) in
      let* hi := np_max (map sg_end (sg_rights cf)) in
      Ok (np_arange lo hi)
    else Ok [] in
  let* ratio_first :=
    if with_ratio then
      match ratio_cond cf with
      | row :: _ => Ok (ratio_start row)
      | [] => Raise IndexError
      end
    else Ok 0 in
  let* ratio_range_ :=
    if with_ratio then
      let* lo := np_min (map ratio_start (ratio_cond cf)) in
      let* hi := np_max (map ratio_end (ratio_cond cf)) in
      Ok (np_arange lo hi)
    else Ok [] in
  let* count_range_ :=
    if with_count then
      let* lo := np_min (map count_start (count_cond cf)) in
      let* hi := np_max (map count_end (count_cond cf)) in
      Ok (np_arange lo hi)
    else Ok [] in
  let recall_months_ := if fur_return then get_recall_months (recalls cf) else [] in
  Ok {| sg_jobs := if with_prex then map sg_job (sg_rights cf) else [];
        sg_dict := if with_prex
                   then py_dict (map sg_job (sg_rights cf)) (map sg_count (sg_rights cf))
                   else ∅;
        sg_month_range := sg_range_;
        ratio_jobs := if with_ratio then map ratio_job (ratio_cond cf) else [];
        ratio_cond_month := ratio_first;
        ratio_cond_job := 1;
        ratio_month_range := ratio_range_;
        count_jobs := if with_count then map count_job (count_cond cf) else [];
        count_month_range := count_range_;
        recall_months := recall_months_;
        all_change_months :=
          job_change_months ++ sg_range_ ++ ratio_range_ ++ count_range_
                            ++ recall_months_ |}.

Variable cond : conditions.

(** The month slices that the job loop only reads. *)
Record month_views : Type := {
  orig_job_range : list Z;
  fur_range : list Z;
  eg_range : list Z;
  sg_range : list Z;
  nonparticip_range : list Z
}.

Definition apply_prex (month : Z) (job this_job_count : Z) (v : month_views)
  (assign_range : list Z) : result (list Z) :=
  if str_in "prex" condition_list then
    if py_in month (sg_month_range cond) && py_in job (sg_jobs cond) then
      let* rights := dict_get (sg_dict cond) job in
      let sg_jobs_avail := Z.min rights this_job_count in
      Ok (put_first sg_jobs_avail
            (np_eq assign_range 0 &&& np_eq (sg_range v) 1 &&& np_eq (fur_range v) 0)
            assign_range job)
    else Ok assign_range
  else Ok assign_range.

Definition apply_ratio (month : Z) (job this_job_count : Z) (v : month_views)
  (assign_range : list Z) (dict : option (gmap Z pyfloat))
  : result (list Z * option (gmap Z pyfloat)) :=
  if str_in "ratio" condition_list then
    let dict :=
      if (month =? ratio_cond_month cond) && (job =? ratio_cond_job cond) then
        Some (set_ratio_cond_dict 1 (ratio_jobs cond) (orig_job_range v) (eg_range v))
      else dict in
    if py_in month (ratio_month_range cond) && py_in job (ratio_jobs cond) then
      match dict with
      | None => Raise NameError
      | Some c_dict =>
          let* assign_range :=
            assign_cond_ratio job this_job_count 1 c_dict (orig_job_range v)
                              assign_range (eg_range v) (fur_range v) in
          Ok (assign_range, dict)
      end
    else Ok (assign_range, dict)
  else Ok (assign_range, dict).

Definition apply_count (month : Z) (job this_job_count : Z) (v : month_views)
  (assign_range : list Z) : result (list Z) :=
  if str_in "count" condition_list then
    if py_in month (count_month_range cond) && py_in job (count_jobs cond) then
      assign_cond_ratio_capped job this_job_count [1] [2] (quota_dict cf)
                               (enhanced_jobs cf) (orig_job_range v) assign_range
                               (eg_range v) (fur_range v) (nonparticip_range v)
    else Ok assign_range
  else Ok assign_range.

(** The two unconditional fills of a level: entitled holders first (no
    bump, no flush), then the most senior of the unassigned. *)
Definition nbnf_fill (job this_job_count : Z) (v : month_views)
  (assign_range : list Z) : list Z :=
  let jobs_avail := this_job_count - np_count (np_eq assign_range job) in
  put_first jobs_avail
    (np_eq assign_range 0 &&& np_le (orig_job_range v) job &&& np_eq (fur_range v) 0)
    assign_range job.

Definition seniority_fill (job this_job_count : Z) (v : month_views)
  (assign_range : list Z) : list Z :=
  let jobs_avail := this_job_count - np_count (np_eq assign_range job) in
  put_first jobs_avail (np_eq assign_range 0 &&& np_eq (fur_range v) 0)
            assign_range job.

(** One turn of [while job <= num_of_job_levels]. *)
Definition job_pass (month : nat) (v : month_views) (job : Z) (this_job_col : nat)
  (assign_range job_count_range : list Z) (dict : option (gmap Z pyfloat))
  : result (list Z * list Z * option (gmap Z pyfloat)) :=
  let* row := py_index job_counts_each_month month in
  let* this_job_count := py_index row this_job_col in
  let* conditioned :=
    if py_in (Z.of_nat month) (all_change_months cond) then
      let* assign_range := apply_prex (Z.of_nat month) job this_job_count v assign_range in
      let* ratioed := apply_ratio (Z.of_nat month) job this_job_count v assign_range dict in
      let* assign_range := apply_count (Z.of_nat month) job this_job_count v (fst ratioed) in
      Ok (assign_range, snd ratioed)
    else Ok (assign_range, dict) in
  let assign_range := nbnf_fill job this_job_count v (fst conditioned) in
  let assign_range := seniority_fill job this_job_count v assign_range in
  let job_count_range :=
    np_put job_count_range (np_where (np_eq assign_range job)) this_job_count in
  Ok (assign_range, job_count_range, snd conditioned).

Fixpoint job_loop (month : nat) (v : month_views) (jobs : list Z) (this_job_col : nat)
  (assign_range job_count_range : list Z) (dict : option (gmap Z pyfloat))
  : result (list Z * list Z * option (gmap Z pyfloat)) :=
  match jobs with
  | [] => Ok (assign_range, job_count_range, dict)
  | job :: later =>
      let* passed := job_pass month v job this_job_col assign_range job_count_range dict in
      let '(assign_range, job_count_range, dict) := passed in
      job_loop month v later (S this_job_col) assign_range job_count_range dict
  end.

(** The furlough and recall marks that open a month. *)
Definition furlough_step (month : nat) (orig_job_range fur_range : list Z)
  : result (list Z * list Z) :=
  if py_in (Z.of_nat month) job_reduction_months then
    mark_for_furlough orig_job_range fur_range month total_monthly_job_count
                      (num_of_job_levels cf)
  else Ok (orig_job_range, fur_range).

Definition recall_step (month : nat) (orig_job_range fur_range : list Z) (g : rng)
  : result (list Z * list Z * rng) :=
  if fur_return && py_in (Z.of_nat month) (recall_months cond) then
    mark_for_recall orig_job_range (num_of_job_levels cf) fur_range month
                    (recalls cf) total_monthly_job_count false 0 sen_order 2 g
  else Ok (orig_job_range, fur_range, g).

(** What a month leaves in its own slices. *)
Record month_result : Type := {
  orig_out : list Z;
  assign_out : list Z;
  fur_carried : list Z;
  fur_out : list Z;
  count_out : list Z;
  dict_out : option (gmap Z pyfloat);
  rng_out : rng
}.

(** The body of the monthly loop on the slices of one month, up to the
    end-of-month furlough marks. *)
Definition month_body (month : nat)
  (orig_job_range assign_range job_count_range fur_range eg_range sg_range
     nonparticip_range : list Z)
  (dict : option (gmap Z pyfloat)) (g : rng) : result month_result :=
  let* furloughed := furlough_step month orig_job_range fur_range in
  let* recalled := recall_step month (fst furloughed) (snd furloughed) g in
  let '(orig_job_range, fur_range, g) := recalled in
  let v := {| orig_job_range := orig_job_range; fur_range := fur_range;
              eg_range := eg_range; sg_range := sg_range;
              nonparticip_range := nonparticip_range |} in
  let* looped :=
    job_loop month v (np_arange 1 (num_of_job_levels cf + 1)) 0
             assign_range job_count_range dict in
  let '(assign_range, job_count_range, dict) := looped in
  let fur_marked := mark_fur_range assign_range fur_range (num_of_job_levels cf) in
  let job_count_range :=
    np_put job_count_range (np_where (np_eq fur_marked 1))
           (np_count (np_eq fur_marked 1)) in
  Ok {| orig_out := orig_job_range; assign_out := assign_range;
        fur_carried := fur_range; fur_out := fur_marked;
        count_out := job_count_range; dict_out := dict; rng_out := g |}.

Variable df : dataframe.
Variable lower upper lower_next upper_next : list nat.
Variable total_months : nat.

(** One turn of [for month in np.arange(start_month, num_of_months)]. *)
Definition month_pass (month : nat) (st : engine_state) : result engine_state :=
  let* L := py_index lower month in
  let* U := py_index upper month in
  let* L_next := py_index lower_next month in
  let* U_next := py_index upper_next month in
  let index_range := py_slice L U (df_index df) in
  let index_range_next := py_slice L_next U_next (df_index df) in
  let* r :=
    month_body month
      (py_slice L U (orig st)) (py_slice L U (long_assign_column st))
      (py_slice L U (long_count_column st)) (py_slice L U (fur_data st))
      (py_slice L U (df_eg df)) (py_slice L U (df_sg df))
      (py_slice L U (repeat 0 total_months))
      (ratio_cond_dict st) (np_random st) in
  let orig_next := align_next index_range index_range_next (assign_out r) in
  let* orig' := np_copyto L_next U_next (write_view L (orig_out r) (orig st)) orig_next in
  let fur_next := align_next index_range index_range_next (fur_out r) in
  let* fur' := np_copyto L_next U_next (write_view L (fur_out r) (fur_data st)) fur_next in
  Ok {| orig := orig';
        fur_data := fur';
        long_assign_column := write_view L (assign_out r) (long_assign_column st);
        long_count_column := write_view L (count_out r) (long_count_column st);
        ratio_cond_dict := dict_out r;
        np_random := rng_out r |}.

Fixpoint month_loop (months : list nat) (st : engine_state) : result engine_state :=
  match months with
  | [] => Ok st
  | month :: later =>
      let* st' := month_pass month st in
      month_loop later st'
  end.

End Engine.

(** [a[-1]]. *)
Definition py_last {A : Type} (a : list A) : result A :=
  match last a with
  | Some x => Ok x
  | None => Raise IndexError
  end.

(** [a[a == old] = new]. *)
Definition np_relabel (old new : Z) (a : list Z) : list Z :=
  map (fun x => if x =? old then new else x) a.

(** The four arrays returned by the engine. *)
Record engine_output : Type := {
  out_assign : list Z;
  out_count : list Z;
  out_orig : list Z;
  out_fur : list Z
}.

Definition assign_jobs_nbnf_job_changes (cf : config) (df : dataframe)
  (lower upper : list nat) (total_months : nat)
  (job_counts_each_month : list (list Z)) (total_monthly_job_count : list Z)
  (job_change_months job_reduction_months : list Z) (start_month : nat)
  (condition_list : list string) (fur_return : bool) (g : rng)
  : result (engine_output * rng) :=
  let* lower_last := py_last (drop 1 lower) in
  let lower_next := drop 1 lower ++ [lower_last] in
  let* upper_last := py_last (drop 1 upper) in
  let upper_next := drop 1 upper ++ [upper_last] in
  let num_of_months := length upper in
  let* assign0 :=
    if delayed_implementation cf then
      let* top := py_index upper start_month in
      np_copyto 0 top (repeat 0 total_months) (take top (df_orig_job df))
    else Ok (repeat 0 total_months) in
  let* cond := prepare cf condition_list fur_return job_change_months in
  let* final :=
    month_loop cf condition_list fur_return job_counts_each_month
               total_monthly_job_count job_reduction_months cond df
               lower upper lower_next upper_next total_months
               (seq start_month (num_of_months - start_month))
               {| orig := df_orig_job df; fur_data := df_fur df;
                  long_assign_column := assign0;
                  long_count_column := repeat 0 total_months;
                  ratio_cond_dict := None; np_random := g |} in
  Ok ({| out_assign :=
           np_relabel 0 (num_of_job_levels cf + 1) (long_assign_column final);
         out_count := long_count_column final;
         out_orig := np_relabel (num_of_job_levels cf + 1) 0 (orig final);
         out_fur := fur_data final |},
      np_random final).

(** ** MAKE GAIN_LOSS_TABLE *)

(** [a[i]] for any integer [i]: a negative index counts from the end. *)
Definition py_index_z {A : Type} (a : list A) (i : Z) : result A :=
  if 0 <=? i then py_index a (Z.to_nat i)
  else if - Z.of_nat (length a) <=? i then py_index a (Z.to_nat (Z.of_nat (length a) + i))
       else Raise IndexError.

(** The position that a slice bound denotes in a list of length [n]. *)
Definition py_bound (n : nat) (i : Z) : nat :=
  if 0 <=? i then Nat.min n (Z.to_nat i)
  else Z.to_nat (Z.max 0 (Z.of_nat n + i)).

(** [x + y] on one-dimensional arrays, with numpy's broadcasting rule. *)
Definition np_add (x y : list Z) : result (list Z) :=
  if (length x =? length y)%nat then Ok (zip_with Z.add x y)
  else match x, y with
       | [a], _ => Ok (map (fun b => a + b) y)
       | _, [b] => Ok (map (fun a => a + b) x)
       | _, _ => Raise ValueError
       end.

(** [np.linspace(0, gain_loss, n + 1)[1:].astype(int)]. *)
Definition calculated_additives (gain_loss n : Z) : result (list Z) :=
  if n + 1 <? 0 then Raise ValueError
  else Ok (map (fun i => Z.quot (i * gain_loss) n) (np_arange 1 (n + 1))).

(** Column [col] of a table, and the write of a column slice. *)
Definition column (col : nat) (table : list (list Z)) : list Z :=
  map (fun row => nth col row 0) table.

Definition set_column_from (first : nat) (col : nat) (vals : list Z)
  (table : list (list Z)) : list (list Z) :=
  take first table
  ++ zip_with (fun row v => <[col := v]> row) (take (length vals) (drop first table)) vals
  ++ drop (first + length vals)%nat table.

(** [table[lo:hi, col] = vals]. *)
Definition assign_column_slice (lo hi : nat) (col : nat) (vals : list Z)
  (table : list (list Z)) : result (list (list Z)) :=
  let n := length (py_slice lo hi table) in
  if (length vals =? n)%nat then Ok (set_column_from lo col vals table)
  else match vals with
       | [v] => Ok (set_column_from lo col (repeat v n) table)
       | _ => Raise ValueError
       end.

(** A line printed by the builder: 'Group g ERROR: job reduction below zero'
    with the job, the final total, the delta and the start count. *)
Record error_line : Type := {
  err_group : Z; err_job : Z; err_final : Z; err_delta : Z; err_start : Z;
  err_job_levels : Z
}.

(** The first loop over [job_changes]: the delta of each change and the
    lines printed. *)
Fixpoint collect_changes (job_changes : list job_change) (standalone : bool)
  (sep_index : nat) (first_row : result (list Z)) (job_levels : Z)
  : result (list Z * list error_line) :=
  match job_changes with
  | [] => Ok ([], [])
  | change :: rest =>
      let* delta :=
        if standalone then py_index (change_eg_deltas change) sep_index
        else Ok (change_delta change) in
      let* row := first_row in
      let* start_count := py_index_z row (change_job change - 1) in
      let* more := collect_changes rest standalone sep_index first_row job_levels in
      let line := {| err_group := Z.of_nat sep_index + 1; err_job := change_job change;
                     err_final := start_count + delta; err_delta := delta;
                     err_start := start_count; err_job_levels := job_levels |} in
      Ok (delta :: fst more,
          if start_count + delta <? 0 then line :: snd more else snd more)
  end.

(** The second loop: ramp each change in over its months and carry the
    final delta down the rest of the column. *)
Fixpoint apply_changes (job_changes : list job_change) (gain_loss : list Z)
  (width : nat) (this_job_table : list (list Z)) : result (list (list Z)) :=
  match job_changes, gain_loss with
  | change :: rest, gain :: gains =>
      let months := length this_job_table in
      let col_z := change_job change - 1 in
      let* col :=
        if 0 <=? col_z then
          if col_z <? Z.of_nat width then Ok (Z.to_nat col_z) else Raise IndexError
        else if - Z.of_nat width <=? col_z then Ok (Z.to_nat (Z.of_nat width + col_z))
             else Raise IndexError in
      let lo := py_bound months (change_start change) in
      let hi := py_bound months (change_end change) in
      let col_change_range := py_slice lo hi (column col this_job_table) in
      let* additives := calculated_additives gain (change_end change - change_start change) in
      let* ramp := np_add col_change_range additives in
      let* this_job_table := assign_column_slice lo hi col ramp this_job_table in
      let fill_down_col_range := drop hi (column col this_job_table) in
      let* filled := np_add fill_down_col_range (py_from (-1) additives) in
      let* this_job_table := assign_column_slice hi months col filled this_job_table in
      apply_changes rest gains width this_job_table
  | _, _ => Ok this_job_table
  end.

(** The table of one list of initial counts. *)
Definition job_table_of (months : nat) (job_levels : nat) (counts : list Z)
  (job_changes : list job_change) (standalone : bool) (sep_index : nat)
  : result (list (list Z) * list Z * list error_line) :=
  let* first_row :=
    if (length counts =? job_levels)%nat then Ok counts
    else match counts with
         | [c] => Ok (repeat c job_levels)
         | _ => Raise ValueError
         end in
  let this_job_table := repeat first_row months in
  let* collected :=
    collect_changes job_changes standalone sep_index (py_index this_job_table 0)
                    (Z.of_nat job_levels) in
  let* this_job_table := apply_changes job_changes (fst collected) job_levels this_job_table in
  let job_total_each_month := map sumZ this_job_table in
  Ok (this_job_table, job_total_each_month, snd collected).

Fixpoint job_tables (months job_levels : nat) (this_list_of_counts : list (list Z))
  (job_changes : list job_change) (standalone : bool) (sep_index : nat)
  : result (list (list (list Z) * list Z) * list error_line) :=
  match this_list_of_counts with
  | [] => Ok ([], [])
  | counts :: rest =>
      let* one := job_table_of months job_levels counts job_changes standalone sep_index in
      let* more := job_tables months job_levels rest job_changes standalone (S sep_index) in
      Ok ((fst (fst one), snd (fst one)) :: fst more, snd one ++ snd more)
  end.

(** What the builder hands back: the table(s) with their monthly totals,
    and what it printed on the way. *)
Record gain_loss_result : Type := {
  tables : list (list (list Z) * list Z);
  printed : list error_line
}.

(** [init_job_counts] is the pair (counts of each group, combined counts).
    With [standalone = False] the single table and its totals are the head
    of [tables]. *)
Definition job_gain_loss_table (months job_levels : nat)
  (init_job_counts : list (list Z) * list Z) (job_changes : list job_change)
  (standalone : bool) : result gain_loss_result :=
  let this_list_of_counts :=
    if standalone then fst init_job_counts else [snd init_job_counts] in
  let* built := job_tables months job_levels this_list_of_counts job_changes standalone 0 in
  Ok {| tables := fst built; printed := snd built |}.

(** ** COUNT_PER_MONTH *)

Definition np_ge (a : list Z) (v : Z) : list bool := map (fun x => v <=? x) a.

(** [emp_count_array[i] = np.sum(career_months_array >= i)] for [i] from 0
    to the longest career; [np.max] of an empty array and [np.zeros] of a
    negative size raise ValueError. *)
Definition count_per_month (career_months_array : list Z) : result (list Z) :=
  let* longest := np_max career_months_array in
  let max_career := longest + 1 in
  if max_career <? 0 then Raise ValueError
  else Ok (map (fun i => np_count (np_ge career_months_array i))
               (np_arange 0 max_career)).

(** ** MAKE LOWER SLICE LIMITS *)

(** [np.cumsum]. *)
Fixpoint cumsum_from (acc : Z) (a : list Z) : list Z :=
  match a with
  | [] => []
  | x :: a' => (acc + x) :: cumsum_from (acc + x) a'
  end.

Definition np_cumsum (a : list Z) : list Z := cumsum_from 0 a.

(** [sorted(l)] and [sorted(l, reverse=True)] on integers. *)
Definition py_sorted (l : list Z) : list Z := merge_sort Z.le l.
Definition py_sorted_reverse (l : list Z) : list Z := reverse (merge_sort Z.le l).

(** [lower_list.pop()] drops the last element; the list is never empty
    here, a zero has just been appended. *)
Definition make_lower_slice_limits (month_counts_cumsum : list Z) : list Z :=
  let lower_list := py_sorted_reverse month_counts_cumsum in
  let lower_list := lower_list ++ [0] in
  let lower_list := py_sorted lower_list in
  removelast lower_list.

(** ** ASSIGN JOBS FULL FLUSH *)

(** The loop over the months: [long_job_array[tcount:n + tcount] =
    job_list[0:n]], a slice assignment with numpy's broadcasting rule. *)
Fixpoint full_flush_loop (monthly_nonret_counts : list nat) (job_list : list Z)
  (tcount : nat) (long_job_array : list Z) : result (list Z) :=
  match monthly_nonret_counts with
  | [] => Ok long_job_array
  | n :: later =>
      let* long_job_array :=
        np_copyto tcount (n + tcount) long_job_array (py_slice 0 n job_list) in
      full_flush_loop later job_list (tcount + n) long_job_array
  end.

Definition assign_jobs_full_flush (monthly_nonret_counts : list nat)
  (job_list : list Z) (job_level_count : Z) : result (list Z) :=
  let* long_job_array :=
    full_flush_loop monthly_nonret_counts job_list 0
                    (repeat 0 (sum_list monthly_nonret_counts)) in
  Ok (np_relabel 0 (job_level_count + 1) long_job_array).

(** ** Position-wise reading of the masked assignments *)

(** Number of set entries of a mask, and the rank of position [i]: how many
    set entries come before it. *)
Definition count_true (mask : list bool) : nat :=
  length (filter (fun b => b = true) mask).

Definition rank (mask : list bool) (i : nat) : nat := count_true (take i mask).

(** Whether the mask is set at position [i]. *)
Definition set_at (mask : list bool) (i : nat) : bool := default false (mask !! i).

(** Walk the mask and the array together, writing [v] at the first [n] set
    positions. *)
Fixpoint fill (n : nat) (mask : list bool) (a : list Z) (v : Z) : list Z :=
  match mask, a with
  | b :: m, x :: a' =>
      if b then
        match n with
        | O => x :: a'
        | S n' => v :: fill n' m a' v
        end
      else x :: fill n m a' v
  | _, _ => a
  end.

(** How many set positions [[:n]] keeps. *)
Definition slots (n : Z) (mask : list bool) : nat :=
  if 0 <=? n then Z.to_nat n else (count_true mask - Z.to_nat (- n))%nat.

(** The same walk, writing [v] at every set position after the first [k]. *)
Fixpoint fill_from (k : nat) (mask : list bool) (a : list Z) (v : Z) : list Z :=
  match mask, a with
  | b :: m, x :: a' =>
      if b then
        match k with
        | O => v :: fill_from 0 m a' v
        | S k' => x :: fill_from k' m a' v
        end
      else x :: fill_from k m a' v
  | _, _ => a
  end.

(** How many set positions [[n:]] skips. *)
Definition skipped (n : Z) (mask : list bool) : nat :=
  if 0 <=? n then Z.to_nat n else (count_true mask - Z.to_nat (- n))%nat.

(** Spec-side reading of Step B: row [i] is furloughed for a reduction when
    it is not furloughed yet and at least [keep] non-furloughed rows are
    senior to it. *)
Definition most_junior_active (fur_range : list Z) (keep : nat) (i : nat) : bool :=
  set_at (np_eq fur_range 0) i && (keep <=? rank (np_eq fur_range 0) i)%nat.

(** Spec-side reading of Step C: each row is left as it was, or was
    furloughed and is now recalled as a holder of the furlough level. *)
Definition recalled_or_same (K : Z) (orig fur orig' fur' : list Z) : Prop :=
  forall i : nat,
    (fur' !! i = fur !! i /\ orig' !! i = orig !! i)
    \/ (fur !! i = Some 1 /\ fur' !! i = Some 0 /\ orig' !! i = Some (K + 1)).

(** The amounts of the schedules that cover [month]. *)
Definition applicable_total (scheds : list recall_sched) (month : nat) : Z :=
  sumZ (map (fun s =>
               if py_in (Z.of_nat month) (np_arange (sched_start s) (sched_end s))
               then sched_total s else 0)
            scheds).

(** The same engine state or month result under another generator state. *)
Definition with_rng (g : rng) (st : engine_state) : engine_state :=
  {| orig := orig st; fur_data := fur_data st;
     long_assign_column := long_assign_column st;
     long_count_column := long_count_column st;
     ratio_cond_dict := ratio_cond_dict st; np_random := g |}.

Definition month_with_rng (g : rng) (r : month_result) : month_result :=
  {| orig_out := orig_out r; assign_out := assign_out r;
     fur_carried := fur_carried r; fur_out := fur_out r;
     count_out := count_out r; dict_out := dict_out r; rng_out := g |}.

(** Apply a function to what a computation returns. *)
Definition on_ok {A B : Type} (f : A -> B) (c : result A) : result B :=
  match c with
  | Ok a => Ok (f a)
  | Raise e => Raise e
  end.

(** Spec-side reading of a well-formed job change: a known level and
    months [start < end] inside the model. *)
Definition wf_change (months job_levels : nat) (change : job_change) : Prop :=
  1 <= change_job change <= Z.of_nat job_levels
  /\ 0 <= change_start change < change_end change
  /\ change_end change <= Z.of_nat months.

(** The error lines of the integrated table: one for each change whose total
    delta takes the initial count of its level below zero. *)
Definition reported (job_levels : nat) (counts : list Z) (job_changes : list job_change)
  : list error_line :=
  flat_map
    (fun change =>
       let start_count := nth (Z.to_nat (change_job change - 1)) counts 0 in
       if start_count + change_delta change <? 0 then
         [ {| err_group := 1; err_job := change_job change;
              err_final := start_count + change_delta change;
              err_delta := change_delta change; err_start := start_count;
              err_job_levels := Z.of_nat job_levels |} ]
       else [])
    job_changes.

(** The state of a month's assignments once the levels below [j] are done,
    in a month without conditions: a row is unassigned or holds a level no
    worse than the one it came with, and every active holder of a level
    below [j] is assigned. *)
Definition settled (o f : list Z) (j : Z) (a : list Z) : Prop :=
  length a = length o
  /\ (forall i x, a !! i = Some x ->
        x = 0 \/ (1 <= x < j /\ f !! i = Some 0
                  /\ exists y, o !! i = Some y /\ x <= y))
  /\ (forall i y, o !! i = Some y -> f !! i = Some 0 -> y < j ->
        exists x, a !! i = Some x /\ x <> 0).

(** The two unconditional fills of level [job]. *)
Definition plain_pass (job this_job_count : Z) (v : month_views) (a : list Z) : list Z :=
  seniority_fill job this_job_count v (nbnf_fill job this_job_count v a).

(** The count of level [k] in a month's row of the job table, and the
    capacity of the levels below [j]. *)
Definition level_count (row : list Z) (k : Z) : Z := nth (Z.to_nat (k - 1)) row 0.

Definition within_counts (row : list Z) (j : Z) (a : list Z) : Prop :=
  forall k, 1 <= k < j -> np_count (np_eq a k) <= level_count row k.

(** What the job loop may do to an assignment array: leave a row as it is
    or write a real level [1..K] into it. *)
Definition painted (K : Z) (a a' : list Z) : Prop :=
  length a' = length a
  /\ forall i x, a' !! i = Some x -> a !! i = Some x \/ 1 <= x <= K.

(** Spec-side reading of the end-of-month labels: a real level with
    [fur == 0], or no level ([unassigned] is the value that stands for it)
    with [fur == 1]. *)
Definition labelled (K unassigned : Z) (assign fur : list Z) : Prop :=
  length assign = length fur
  /\ forall i x, assign !! i = Some x ->
       (1 <= x <= K /\ fur !! i = Some 0) \/ (x = unassigned /\ fur !! i = Some 1).

(** [sum over k in 1..K of count(assign == k)]. *)
Definition assigned_total (K : Z) (assign : list Z) : Z :=
  sumZ (map (fun k => np_count (np_eq assign k)) (np_arange 1 (K + 1))).

(** ** Concrete inputs used by the examples *)

(** A configuration with [K] levels and nothing else switched on. *)
Definition plain_config (K : Z) : config :=
  {| num_of_job_levels := K; delayed_implementation := false; enhanced_jobs := false;
     sg_rights := []; ratio_cond := []; count_cond := []; quota_dict := ∅;
     recalls := [] |}.

(** One level, a pre-existing right of one job for the special group and a
    ratio condition on the same level, both for months [0, 2). *)
Definition prex_ratio_config : config :=
  {| num_of_job_levels := 1; delayed_implementation := false; enhanced_jobs := false;
     sg_rights := [ {| sg_eg := 1; sg_job := 1; sg_count := 1;
                       sg_start := 0; sg_end := 2 |} ];
     ratio_cond := [ {| ratio_eg := 1; ratio_job := 1;
                        ratio_start := 0; ratio_end := 2 |} ];
     count_cond := []; quota_dict := ∅; recalls := [] |}.

(** Six employees over two months; groups alternate, the most senior one
    is in the special group, the first four hold level 1. *)
Definition prex_ratio_frame : dataframe :=
  {| df_orig_job := [1;1;1;1;2;2; 0;0;0;0;0;0];
     df_eg := [1;2;1;2;1;2; 1;2;1;2;1;2];
     df_sg := [1;0;0;0;0;0; 1;0;0;0;0;0];
     df_fur := [0;0;0;0;0;0; 0;0;0;0;0;0];
     df_index := [10;11;12;13;14;15; 10;11;12;13;14;15] |}.

(** A single cut of eight jobs from a level that has five. *)
Definition deep_cut : job_change :=
  {| change_job := 1; change_start := 1; change_end := 2; change_delta := -8;
     change_eg_deltas := [] |}.

(** One recall of one employee in month 0. *)
Definition one_recall : recall_sched :=
  {| sched_total := 1; sched_per_eg := []; sched_start := 0; sched_end := 1 |}.

(** ** The calendar of month slices and what the loop keeps *)

(** Spec-side reading of the slice limits: month [m] owns the rows
    [lower[m] .. upper[m]) of the long arrays of [n] rows, and the next
    month starts where this one ends. *)
Definition calendar (lower upper : list nat) (n : nat) : Prop :=
  length lower = length upper
  /\ (forall m L U, lower !! m = Some L -> upper !! m = Some U -> (L <= U <= n)%nat)
  /\ (forall m L, lower !! S m = Some L -> upper !! m = Some L).

(** Row [i] carries a real level and is active, or carries no level and
    is furloughed. *)
Definition row_labelled (K : Z) (assign fur : list Z) (i : nat) : Prop :=
  (exists x, assign !! i = Some x /\ 1 <= x <= K /\ fur !! i = Some 0)
  \/ (assign !! i = Some 0 /\ fur !! i = Some 1).

(** The state between two months: the rows from [first] up to [frontier]
    are labelled, the rows from [frontier] on are still unassigned. *)
Definition engine_inv (K : Z) (n first frontier : nat) (st : engine_state) : Prop :=
  length (orig st) = n /\ length (fur_data st) = n
  /\ length (long_assign_column st) = n /\ length (long_count_column st) = n
  /\ (forall i, (frontier <= i < n)%nat -> long_assign_column st !! i = Some 0)
  /\ (forall i, (first <= i < frontier)%nat ->
        row_labelled K (long_assign_column st) (fur_data st) i).

(** How the limits of the next month relate to those of this one: the
    next slice lies after this one, or (last month) is this one. *)
Definition next_limits (lower upper lower_next upper_next : list nat) : Prop :=
  forall m L U Ln Un,
    lower !! m = Some L -> upper !! m = Some U ->
    lower_next !! m = Some Ln -> upper_next !! m = Some Un ->
    (U <= Ln)%nat \/ (Ln = L /\ Un = U).

(** One level, delayed implementation, one recall in month 0. *)
Definition delayed_recall_config : config :=
  {| num_of_job_levels := 1; delayed_implementation := true; enhanced_jobs := false;
     sg_rights := []; ratio_cond := []; count_cond := []; quota_dict := ∅;
     recalls := [one_recall] |}.

(** Two employees over two months, the junior one furloughed. *)
Definition delayed_recall_frame : dataframe :=
  {| df_orig_job := [1; 2; 1; 2]; df_eg := [1; 1; 1; 1]; df_sg := [0; 0; 0; 0];
     df_fur := [0; 1; 0; 1]; df_index := [10; 11; 10; 11] |}.

(** Two employees at level 1 over two months. *)
Definition two_by_two_frame : dataframe :=
  {| df_orig_job := [1; 1; 0; 0]; df_eg := [1; 1; 1; 1]; df_sg := [0; 0; 0; 0];
     df_fur := [0; 0; 0; 0]; df_index := [10; 11; 10; 11] |}.

(** No month has a condition, a job change or a recall. *)
Definition no_conditions : conditions :=
  {| sg_jobs := []; sg_dict := ∅; sg_month_range := []; ratio_jobs := [];
     ratio_cond_month := 0; ratio_cond_job := 1; ratio_month_range := [];
     count_jobs := []; count_month_range := []; recall_months := [];
     all_change_months := [] |}.

(** The state in which the engine enters its loop, without delayed
    implementation. *)
Definition initial_state (df : dataframe) (n : nat) (g : rng) : engine_state :=
  {| orig := df_orig_job df; fur_data := df_fur df;
     long_assign_column := repeat 0 n; long_count_column := repeat 0 n;
     ratio_cond_dict := None; np_random := g |}.

(** Three employees over two months, two at level 1 and one at level 2. *)
Definition three_by_two_frame : dataframe :=
  {| df_orig_job := [1; 1; 2; 0; 0; 0]; df_eg := [1; 1; 1; 1; 1; 1];
     df_sg := [0; 0; 0; 0; 0; 0]; df_fur := [0; 0; 0; 0; 0; 0];
     df_index := [10; 11; 12; 10; 11; 12] |}.

(** The limits of the next month, as the engine builds them:
    [l_next = l[1:]] with the last limit repeated. *)
Definition next_of (l l_next : list nat) : Prop :=
  (forall m, (S m < length l)%nat -> l_next !! m = l !! S m)
  /\ (forall m, S m = length l -> l_next !! m = l !! m).

(** The state between two months of a run without conditions and
    furloughs: the processed rows from [first] up to [L] hold a real level
    no worse than their orig job, the rows from [L] on are unassigned, and
    the slice [L .. U) of the coming month has only active rows, whose
    orig jobs fit the counts [row]. *)
Definition plain_inv (K : Z) (row : list Z) (n first L U : nat) (st : engine_state)
  : Prop :=
  length (orig st) = n /\ length (fur_data st) = n
  /\ length (long_assign_column st) = n /\ length (long_count_column st) = n
  /\ (forall i, (L <= i < n)%nat -> long_assign_column st !! i = Some 0)
  /\ (forall i, (first <= i < L)%nat ->
        exists x y, long_assign_column st !! i = Some x /\ orig st !! i = Some y
                    /\ 1 <= x <= y /\ y <= K /\ fur_data st !! i = Some 0)
  /\ (forall i, (L <= i < U)%nat ->
        fur_data st !! i = Some 0 /\ exists y, orig st !! i = Some y /\ 1 <= y <= K)
  /\ (forall k, 1 <= k <= K ->
        np_count (np_eq (py_slice L U (orig st)) k) <= level_count row k).

(** Two employees; the senior one leaves after month 0, the other stays
    for three months. *)
Definition retirement_frame : dataframe :=
  {| df_orig_job := [1; 2; 2; 2]; df_eg := [1; 1; 1; 1]; df_sg := [0; 0; 0; 0];
     df_fur := [0; 0; 0; 0]; df_index := [10; 11; 11; 11] |}.

(** ** The ratio condition, in the words of the specification *)

(** Modelled from the spec: the ratio of level [k], frozen at the first
    month of the ratio period:
    [count(orig == k and eg == eg_ref) / count(orig == k)] rounded to two
    decimals, with [eg_ref = 1]. *)
Definition frozen_ratio (orig_rng eg_range : list Z) (k : Z) : Q :=
  py_round2 (inject_Z (np_count (np_eq orig_rng k &&& np_eq eg_range 1))
             / inject_Z (np_count (np_eq orig_rng k))).

(** Modelled from the spec: [round(r * J[m][k])] slots go to the first
    unassigned active rows of group [eg_ref = 1]; the remaining slots go
    to the other groups, first to the first unassigned active rows with
    [orig <= k], then to the first unassigned active rows. *)
Definition ratio_fill (job this_job_count : Z) (ratio : Q)
  (orig_rng assign_rng eg_rng fur_rng : list Z) : list Z :=
  let eg_slots := py_round (ratio * inject_Z this_job_count) in
  let rest := this_job_count - eg_slots in
  let a1 := fill (Z.to_nat eg_slots)
                 (np_eq assign_rng 0 &&& np_eq eg_rng 1 &&& np_eq fur_rng 0)
                 assign_rng job in
  let nbnf := np_eq a1 0 &&& np_ne eg_rng 1 &&& np_eq fur_rng 0 &&& np_le orig_rng job in
  let a2 := fill (Z.to_nat rest) nbnf a1 job in
  let given := Nat.min (Z.to_nat rest) (count_true nbnf) in
  fill (Z.to_nat rest - given)
       (np_eq a2 0 &&& np_ne eg_rng 1 &&& np_eq fur_rng 0) a2 job.

(** Two levels, a ratio condition on level 1 for months [0, 2). *)
Definition ratio_config : config :=
  {| num_of_job_levels := 2; delayed_implementation := false; enhanced_jobs := false;
     sg_rights := [];
     ratio_cond := [ {| ratio_eg := 1; ratio_job := 1;
                        ratio_start := 0; ratio_end := 2 |} ];
     count_cond := []; quota_dict := ∅; recalls := [] |}.

(** What [prepare] computes for it under the condition list [['ratio']]. *)
Definition ratio_conditions : conditions :=
  {| sg_jobs := []; sg_dict := ∅; sg_month_range := []; ratio_jobs := [1];
     ratio_cond_month := 0; ratio_cond_job := 1; ratio_month_range := [0; 1];
     count_jobs := []; count_month_range := []; recall_months := [];
     all_change_months := [0; 1] |}.

(** What a pass over the levels [lo .. hi] may do to a row: leave it as
    it is, or give one of these levels to a row that was unassigned and
    active. *)
Definition touched (f : list Z) (lo hi : Z) (a a' : list Z) : Prop :=
  length a' = length a
  /\ forall i, a' !! i = a !! i
               \/ (a !! i = Some 0 /\ f !! i = Some 0
                   /\ exists j, lo <= j <= hi /\ a' !! i = Some j).

(** ** MONOTONIC TEST *)

(** [np.diff(a)]: the differences of neighbours, empty for fewer than two
    elements. *)
Fixpoint np_diff (a : list Z) : list Z :=
  match a with
  | x :: (y :: _) as later => (y - x) :: np_diff later
  | _ => []
  end.

(** [np.all(mask)]. *)
Definition np_all (mask : list bool) : bool := forallb (fun b => b) mask.

Definition monotonic (sequence : list Z) : bool :=
  let seq_diff := np_diff sequence in
  np_all (np_ge seq_diff 0).

(** ** GET_INDEXES_UP, GET_INDEXES_DOWN *)

(** One turn of the loop of [get_indexes_up]: the array is updated in
    place, so the left neighbour read at [i - 1] is the one the previous
    turn has written. *)
Definition indexes_up_step (list_of_positions : list Z) (i : nat) : list Z :=
  match list_of_positions !! i, list_of_positions !! (i - 1)%nat with
  | Some x, Some before =>
      if x <=? before then <[i := before + 1]> list_of_positions else list_of_positions
  | _, _ => list_of_positions
  end.

(** [for i in np.arange(1, list_of_positions.size)]. *)
Definition get_indexes_up (list_of_positions : list Z) : list Z :=
  foldl indexes_up_step list_of_positions (seq 1 (length list_of_positions - 1)).

Definition indexes_down_step (list_of_positions : list Z) (i : nat) : list Z :=
  match list_of_positions !! i, list_of_positions !! (i + 1)%nat with
  | Some x, Some after =>
      if after <=? x then <[i := after - 1]> list_of_positions else list_of_positions
  | _, _ => list_of_positions
  end.

(** [for i in np.arange(list_of_positions.size - 2, -1, -1)]. *)
Definition get_indexes_down (list_of_positions : list Z) : list Z :=
  foldl indexes_down_step list_of_positions
        (reverse (seq 0 (length list_of_positions - 1))).

(** ** MAKE_STOVEPIPE_JOBS_FROM_JOBS_ARR *)

(** [np.zeros(n)] of integers; a negative size raises ValueError. *)
Definition np_zeros (n : Z) : result (list Z) :=
  if n <? 0 then Raise ValueError else Ok (repeat 0 (Z.to_nat n)).

(** [arr[L:U] = v] for non-negative bounds: the slice is clipped to the
    array, nothing is written beyond its end. *)
Definition np_fill_slice (L U : nat) (v : Z) (arr : list Z) : list Z :=
  write_view L (repeat v (length (py_slice L U arr))) arr.

(** The loop over the job counts; [i] is the job number, [j] the first free
    position. *)
Fixpoint stovepipe_loop (jobs_arr : list Z) (i : Z) (j : nat)
  (result_jobs_arr : list Z) : list Z :=
  match jobs_arr with
  | [] => result_jobs_arr
  | job_quant :: later =>
      if 0 <? job_quant
      then stovepipe_loop later (i + 1) (j + Z.to_nat job_quant)
             (np_fill_slice j (j + Z.to_nat job_quant) i result_jobs_arr)
      else stovepipe_loop later (i + 1) j result_jobs_arr
  end.

Definition make_stovepipe_jobs_from_jobs_arr (jobs_arr : list Z)
  (total_emp_count : Z) : result (list Z) :=
  let* result_jobs_arr :=
    if total_emp_count =? 0 then np_zeros (sumZ jobs_arr)
    else np_zeros total_emp_count in
  Ok (stovepipe_loop jobs_arr 1 0 result_jobs_arr).

(** ** GENERATE MONTH SKELETON *)

(** The inner loop [for slot in np.arange(j, int(mcount) + j)]: it writes
    the month number and leaves the loop variable [slot] bound to the last
    position it visited, or as it was when the range is empty.  The array
    holds floats; the zeros and the month numbers written to it are whole
    numbers. *)
Fixpoint skeleton_slots (slots : list Z) (i : Z) (mnum_skeleton_array : list Z)
  (slot : option Z) : result (list Z * option Z) :=
  match slots with
  | [] => Ok (mnum_skeleton_array, slot)
  | s :: later =>
      if (Z.to_nat s <? length mnum_skeleton_array)%nat
      then skeleton_slots later i (<[Z.to_nat s := i]> mnum_skeleton_array) (Some s)
      else Raise IndexError
  end.

(** The outer loop; [j = slot + 1] reads the loop variable of the inner
    loop, which is unbound when no inner loop has run a turn yet. *)
Fixpoint skeleton_loop (month_count_array : list Z) (i j : Z)
  (mnum_skeleton_array : list Z) (slot : option Z) : result (list Z) :=
  match month_count_array with
  | [] => Ok mnum_skeleton_array
  | mcount :: later =>
      let* written :=
        skeleton_slots (np_arange j (mcount + j)) i mnum_skeleton_array slot in
      match written.2 with
      | None => Raise NameError
      | Some s => skeleton_loop later (i + 1) (s + 1) written.1 written.2
      end
  end.

Definition gen_month_skeleton (month_count_array : list Z) : result (list Z) :=
  let total_months := sumZ month_count_array in
  let* mnum_skeleton_array := np_zeros total_months in
  skeleton_loop month_count_array 0 0 mnum_skeleton_array None.

(** ** PRECALCULATE FURLOUGHS *)

(** One month of the loop: [fur_data[L:U]] is a view, so the marks land in
    [fur_data] itself. *)
Definition precalculate_month (monthly_job_totals head_counts : list Z)
  (lows highs : list nat) (fur_data : list Z) (i : nat) : result (list Z) :=
  let* L := py_index lows i in
  let* U := py_index highs i in
  let* total := py_index monthly_job_totals i in
  let* head := py_index head_counts i in
  let surplus := total - head in
  if surplus <? 0 then
    let view := py_slice L U fur_data in
    Ok (write_view L
          (np_put view (py_from (total - head) (np_where (np_eq view 0))) 1)
          fur_data)
  else Ok fur_data.

Fixpoint precalculate_loop (months : list nat) (monthly_job_totals head_counts : list Z)
  (lows highs : list nat) (fur_data : list Z) : result (list Z) :=
  match months with
  | [] => Ok fur_data
  | i :: later =>
      let* fur_data :=
        precalculate_month monthly_job_totals head_counts lows highs fur_data i in
      precalculate_loop later monthly_job_totals head_counts lows highs fur_data
  end.

(** [for i in np.arange(head_counts.size)]. *)
Definition precalculate_fur_without_recalls (monthly_job_totals head_counts : list Z)
  (fur_data : list Z) (lows highs : list nat) : result (list Z) :=
  precalculate_loop (seq 0 (length head_counts)) monthly_job_totals head_counts
                    lows highs fur_data.

(** ** Readings of the loops by recursion on the list *)

(** [get_indexes_up], read from the left: each position is raised just
    above its already raised left neighbour when it does not exceed it. *)
Fixpoint raised_from (before : Z) (l : list Z) : list Z :=
  match l with
  | [] => []
  | x :: l' =>
      let x' := if x <=? before then before + 1 else x in
      x' :: raised_from x' l'
  end.

Definition raised (l : list Z) : list Z :=
  match l with
  | [] => []
  | x :: l' => x :: raised_from x l'
  end.

(** [get_indexes_down], read from the right. *)
Fixpoint lowered (l : list Z) : list Z :=
  match l with
  | [] => []
  | x :: l' =>
      match lowered l' with
      | [] => [x]
      | (y :: _) as rest => (if y <=? x then y - 1 else x) :: rest
      end
  end.

(** The number [i] repeated once per count, then [i + 1], and so on: the
    blocks that the stovepipe list and the month skeleton are made of. *)
Fixpoint level_blocks (i : Z) (counts : list Z) : list Z :=
  match counts with
  | [] => []
  | c :: later => repeat i (Z.to_nat c) ++ level_blocks (i + 1) later
  end.

(** Strictly increasing, on neighbours. *)
Definition strictly_increasing (l : list Z) : Prop :=
  forall (i : nat) (x y : Z), l !! i = Some x -> l !! S i = Some y -> x < y.

(** What the precalculation makes of a month slice [view] with [total]
    jobs for [head] employees. *)
Definition marked_view (view : list Z) (total head : Z) : list Z :=
  if total - head <? 0
  then np_put view (py_from (total - head) (np_where (np_eq view 0))) 1
  else view.

(** * Properties *)

Lemma py_round_compat (q1 q2 : Q) : (q1 == q2)%Q -> py_round q1 = py_round q2.
Proof.
  intros H. unfold py_round. rewrite (Qfloor_comp _ _ H).
  assert (E : (q1 - inject_Z (Qfloor q2) == q2 - inject_Z (Qfloor q2))%Q) by (rewrite H; reflexivity).
  rewrite (Qcompare_comp _ _ E _ _ (Qeq_refl _)). reflexivity.
Qed.

Lemma py_round_Z (z : Z) : py_round (inject_Z z) = z.
Proof.
  unfold py_round. rewrite Qfloor_Z.
  assert (E : (inject_Z z - inject_Z z ?= 1 # 2)%Q = Lt).
  { rewrite <- Qlt_alt. lra. }
  rewrite E. reflexivity.
Qed.

Lemma py_round_floor (q : Q) : Qfloor q <= py_round q <= Qfloor q + 1.
Proof.
  unfold py_round. destruct (Qcompare _ _); [destruct (Z.even _)| |]; lia.
Qed.

Lemma py_round_bounds (q : Q) (a : Z) :
  (0 <= q)%Q -> (q <= inject_Z a)%Q -> 0 <= py_round q <= a.
Proof.
  intros H0 Ha. pose proof (py_round_floor q) as Hf.
  assert (0 <= Qfloor q).
  { change 0 with (Qfloor (inject_Z 0)). rewrite Qfloor_Z.
    rewrite <- (Qfloor_Z 0). apply Qfloor_resp_le. exact H0. }
  split; [lia|].
  assert (Hle : Qfloor q <= a).
  { rewrite <- (Qfloor_Z a). apply Qfloor_resp_le. exact Ha. }
  destruct (Z.eq_dec (Qfloor q) a) as [E|NE]; [|lia].
  assert (Hq : (q == inject_Z a)%Q).
  { apply Qle_antisym; [exact Ha|]. rewrite <- E. apply Qfloor_le. }
  rewrite (py_round_compat _ _ Hq), py_round_Z. lia.
Qed.

Lemma sumQ_nonneg (ws : list Z) :
  Forall (fun w => 0 < w) ws -> (0 <= sumQ (map inject_Z ws))%Q.
Proof.
  induction 1 as [|w ws Hw _ IH]; simpl; [lra|].
  assert (0 < inject_Z w)%Q by (rewrite <- (Zlt_Qlt 0); exact Hw). lra.
Qed.

Lemma share_bounds (w tw x : Q) :
  (0 < w)%Q -> (w <= tw)%Q -> (0 <= x)%Q -> (0 <= w / tw * x <= x)%Q.
Proof.
  intros Hw Htw Hx.
  assert (Hp0 : (0 <= w / tw)%Q) by (apply Qle_shift_div_l; lra).
  assert (Hp1 : (w / tw <= 1)%Q) by (apply Qle_shift_div_r; lra).
  split; nra.
Qed.

Lemma Qeq_bool_pos (q : Q) : (0 < q)%Q -> Qeq_bool q 0 = false.
Proof.
  intros H. destruct (Qeq_bool q 0) eqn:E; [|reflexivity].
  apply Qeq_bool_eq in E. lra.
Qed.

Lemma distribute_loop_shares (ws : list Z) :
  Forall (fun w => 0 < w) ws -> ws <> [] ->
  forall (tw avail : Q) (a : Z),
    (tw == sumQ (map inject_Z ws))%Q -> (avail == inject_Z a)%Q ->
    exists bins,
      distribute_loop tw avail (map inject_Z ws) = Ok bins
      /\ sumZ bins = a /\ length bins = length ws
      /\ (0 <= a -> Forall (fun b => 0 <= b) bins).
Proof.
  induction 1 as [|w ws Hw Hws IH]; [congruence|]. intros _ tw avail a Htw Hav.
  pose proof (sumQ_nonneg ws Hws) as Hrest.
  assert (Hwq : (0 < inject_Z w)%Q) by (rewrite <- (Zlt_Qlt 0); exact Hw).
  simpl in Htw. simpl.
  rewrite Qeq_bool_pos by lra.
  destruct ws as [|w' ws'].
  - simpl in *. exists [a].
    assert (E : (inject_Z w / tw * avail == inject_Z a)%Q).
    { rewrite Hav, Htw. field. lra. }
    rewrite (py_round_compat _ _ E), py_round_Z. simpl.
    repeat split; [lia|]. intros; constructor; [lia|constructor].
  - set (b := py_round (inject_Z w / tw * avail)).
    destruct (IH ltac:(congruence) (tw - inject_Z w)%Q (avail - inject_Z b)%Q (a - b))
      as (bins & Hb & Hsum & Hlen & Hnn).
    { rewrite Htw. ring. }
    { rewrite Hav. unfold Z.sub. rewrite inject_Z_plus, inject_Z_opp. ring. }
    rewrite Hb. simpl. exists (b :: bins). repeat split.
    + simpl. lia.
    + simpl in *. lia.
    + intros Ha.
      assert (Hbb : 0 <= b <= a).
      { apply py_round_bounds.
        - apply share_bounds; [lra|lra|]. rewrite Hav. rewrite <- (Zle_Qle 0). exact Ha.
        - rewrite <- Hav. apply share_bounds; [lra|lra|]. rewrite Hav.
          rewrite <- (Zle_Qle 0). exact Ha. }
      constructor; [lia|]. apply Hnn. lia.
Qed.

Lemma sumZ_zip_sub (x y : list Z) :
  length x = length y -> sumZ (zip_with Z.sub x y) = sumZ x - sumZ y.
Proof.
  revert y; induction x as [|a x IH]; intros [|b y] Hl; simpl in *; try lia.
  rewrite IH by lia. lia.
Qed.

Lemma foldl_min_le (l : list Z) (x : Z) :
  foldl Z.min x l <= x /\ Forall (fun y => foldl Z.min x l <= y) l.
Proof.
  revert x; induction l as [|a l IH]; intros x; simpl; [split; [lia|constructor]|].
  destruct (IH (Z.min x a)) as [H1 H2]. split; [lia|].
  constructor; [lia|exact H2].
Qed.

Lemma positive_slots_range (adds : list Z) (i : nat) :
  Forall (fun j => (i <= j < i + length adds)%nat) (positive_slots i adds).1.
Proof.
  revert i; induction adds as [|num rest IH]; intros i; simpl; [constructor|].
  specialize (IH (S i)). destruct (positive_slots (S i) rest) as [locs zeroed].
  simpl in IH. assert (Forall (fun j => (i <= j < i + S (length rest))%nat) locs).
  { eapply Forall_impl; [exact IH|]. simpl. intros; lia. }
  destruct (0 <? num); simpl; [constructor; [lia|]|]; assumption.
Qed.

Lemma positive_slots_none (adds : list Z) (i : nat) :
  (positive_slots i adds).1 = [] -> sumZ adds <= 0.
Proof.
  revert i; induction adds as [|num rest IH]; intros i; simpl; [lia|].
  specialize (IH (S i)). destruct (positive_slots (S i) rest) as [locs zeroed].
  destruct (0 <? num) eqn:E; simpl in *; [discriminate|].
  intros H. specialize (IH H). lia.
Qed.

Lemma np_take_at_ok {A : Type} (P : A -> Prop) (a : list A) (locs : list nat) :
  Forall (fun j => (j < length a)%nat) locs -> Forall P a ->
  exists chosen, np_take_at a locs = Ok chosen
                 /\ Forall P chosen /\ length chosen = length locs.
Proof.
  intros Hl HP. induction Hl as [|j locs Hj _ IH]; simpl.
  - exists []. repeat split; constructor.
  - destruct IH as (chosen & -> & HPc & Hlen).
    destruct (lookup_lt_is_Some_2 a j Hj) as [x Hx].
    unfold py_index. rewrite Hx. simpl. exists (x :: chosen).
    split; [reflexivity|split].
    + constructor; [|exact HPc]. eapply (Forall_lookup_1 P a j x); eauto.
    + simpl. lia.
Qed.

Lemma np_set_at_slots (adds : list Z) :
  forall (i : nat) (pre shares : list Z),
    length pre = i -> length shares = length (positive_slots i adds).1 ->
    exists filled,
      np_set_at (pre ++ (positive_slots i adds).2) (positive_slots i adds).1 shares
      = pre ++ filled
      /\ sumZ filled = sumZ shares /\ length filled = length adds
      /\ (Forall (fun s => 0 <= s) shares -> Forall (fun s => 0 <= s) filled).
Proof.
  induction adds as [|num rest IH]; intros i pre shares Hpre Hsh; simpl in *.
  - destruct shares; [|discriminate]. exists []. repeat split; auto.
  - specialize (IH (S i)). destruct (positive_slots (S i) rest) as [locs zeroed].
    simpl in IH. destruct (0 <? num); simpl in *.
    + destruct shares as [|s shares]; [discriminate|]. simpl.
      destruct (IH (pre ++ [s]) shares) as (filled & E & Hs & Hl & Hn).
      { rewrite length_app. simpl. lia. } { simpl in Hsh. lia. }
      exists (s :: filled).
      replace (<[i:=s]> (pre ++ num :: zeroed)) with ((pre ++ [s]) ++ zeroed).
      2:{ rewrite <- Hpre. rewrite insert_app_r_alt by lia.
          rewrite Nat.sub_diag. simpl. rewrite <- app_assoc. reflexivity. }
      rewrite E, <- app_assoc. simpl. repeat split; [lia|lia|].
      intros HF. inversion HF; subst. constructor; auto.
    + destruct (IH (pre ++ [0]) shares) as (filled & E & Hs & Hl & Hn).
      { rewrite length_app. simpl. lia. } { lia. }
      exists (0 :: filled).
      replace (pre ++ 0 :: zeroed) with ((pre ++ [0]) ++ zeroed)
        by (rewrite <- app_assoc; reflexivity).
      rewrite E, <- app_assoc. simpl. repeat split; [lia|lia|].
      intros HF. constructor; [lia|auto].
Qed.

Lemma astype_int_Z (ws : list Z) : map astype_int (map inject_Z ws) = ws.
Proof.
  induction ws as [|w ws IH]; simpl; [reflexivity|]. rewrite IH. f_equal.
  unfold astype_int. simpl. apply Z.quot_1_r.
Qed.


Lemma count_true_cons (b : bool) (m : list bool) :
  count_true (b :: m) = ((if b then 1 else 0) + count_true m)%nat.
Proof.
  unfold count_true. rewrite filter_cons. destruct b; simpl.
  - destruct (decide (true = true)); [reflexivity|congruence].
  - destruct (decide (false = true)); [discriminate|reflexivity].
Qed.

Lemma np_count_eq (mask : list bool) : np_count mask = Z.of_nat (count_true mask).
Proof. reflexivity. Qed.

Lemma where_from_length (m : list bool) (i : nat) :
  length (where_from i m) = count_true m.
Proof.
  revert i; induction m as [|b m IH]; intros i; [reflexivity|].
  rewrite count_true_cons. simpl. destruct b; simpl; rewrite IH; reflexivity.
Qed.

Lemma where_from_ge (m : list bool) (i : nat) :
  Forall (fun j => (i <= j)%nat) (where_from i m).
Proof.
  revert i; induction m as [|b m IH]; intros i; simpl; [constructor|].
  assert (H : Forall (fun j => (i <= j)%nat) (where_from (S i) m)).
  { eapply Forall_impl; [apply IH|]. simpl. intros; lia. }
  destruct b; [constructor; [lia|]|]; exact H.
Qed.

Lemma np_put_ge (ind : list nat) (a : list Z) (v : Z) :
  Forall (fun j => (length a <= j)%nat) ind -> np_put a ind v = a.
Proof.
  unfold np_put. induction 1 as [|j ind Hj _ IH]; simpl; [reflexivity|].
  rewrite list_insert_ge by exact Hj. exact IH.
Qed.

Lemma np_put_length (ind : list nat) (a : list Z) (v : Z) :
  length (np_put a ind v) = length a.
Proof.
  unfold np_put. revert a; induction ind as [|j ind IH]; intros a; simpl; [reflexivity|].
  rewrite IH. apply length_insert.
Qed.

Lemma fill_length (n : nat) (mask : list bool) (a : list Z) (v : Z) :
  length (fill n mask a v) = length a.
Proof.
  revert n a; induction mask as [|b m IH]; intros n [|x a]; simpl; try reflexivity.
  destruct b; [destruct n|]; simpl; try rewrite IH; reflexivity.
Qed.

Lemma np_put_take_where (mask : list bool) :
  forall (n i : nat) (pre a : list Z) (v : Z),
    length pre = i ->
    np_put (pre ++ a) (take n (where_from i mask)) v = pre ++ fill n mask a v.
Proof.
  induction mask as [|b m IH]; intros n i pre a v Hpre.
  - simpl. rewrite take_nil. reflexivity.
  - destruct a as [|x a].
    + simpl fill. apply np_put_ge. apply Forall_take.
      eapply Forall_impl; [apply where_from_ge|]. simpl.
      intros j Hj. rewrite length_app. simpl. lia.
    + simpl. destruct b.
      * destruct n as [|n]; [reflexivity|]. simpl.
        unfold np_put in *. simpl.
        replace (<[i:=v]> (pre ++ x :: a)) with ((pre ++ [v]) ++ a).
        2:{ rewrite <- Hpre, insert_app_r_alt by lia.
            rewrite Nat.sub_diag. simpl. rewrite <- app_assoc. reflexivity. }
        rewrite (IH n (S i) (pre ++ [v]) a v).
        -- rewrite <- app_assoc. reflexivity.
        -- rewrite length_app. simpl. lia.
      * replace (pre ++ x :: a) with ((pre ++ [x]) ++ a)
          by (rewrite <- app_assoc; reflexivity).
        rewrite (IH n (S i) (pre ++ [x]) a v).
        -- rewrite <- app_assoc. reflexivity.
        -- rewrite length_app. simpl. lia.
Qed.

Lemma put_first_fill (n : Z) (mask : list bool) (a : list Z) (v : Z) :
  put_first n mask a v = fill (slots n mask) mask a v.
Proof.
  unfold put_first, py_upto, slots, np_where.
  rewrite where_from_length.
  destruct (0 <=? n); apply (np_put_take_where mask _ 0%nat [] a v eq_refl).
Qed.

Lemma np_put_where_fill (mask : list bool) (a : list Z) (v : Z) :
  np_put a (np_where mask) v = fill (count_true mask) mask a v.
Proof.
  pose proof (np_put_take_where mask (count_true mask) 0%nat [] a v eq_refl) as H.
  simpl in H. rewrite <- H. unfold np_where. f_equal.
  symmetry. apply take_ge. rewrite where_from_length. lia.
Qed.

Lemma rank_S_cons (b : bool) (m : list bool) (i : nat) :
  rank (b :: m) (S i) = ((if b then 1 else 0) + rank m i)%nat.
Proof. unfold rank. simpl. apply count_true_cons. Qed.

Lemma fill_lookup (n : nat) (mask : list bool) (a : list Z) (v : Z) (i : nat) :
  fill n mask a v !! i =
    (fun x => if set_at mask i && (rank mask i <? n)%nat then v else x) <$> a !! i.
Proof.
  revert n a i; induction mask as [|b m IH]; intros n a i.
  - simpl. unfold set_at. destruct i; simpl; destruct (a !! _); reflexivity.
  - destruct a as [|x a]; [reflexivity|]. destruct i as [|i].
    + simpl. destruct b; [destruct n|]; reflexivity.
    + rewrite rank_S_cons. unfold set_at. simpl lookup at 2 3.
      fold (set_at m i). simpl fill.
      destruct b.
      * destruct n as [|n]; simpl.
        -- rewrite andb_false_r. destruct (a !! i); reflexivity.
        -- rewrite IH. reflexivity.
      * simpl. rewrite IH. reflexivity.
Qed.

Lemma rank_lt_count (mask : list bool) (i : nat) :
  set_at mask i = true -> (rank mask i < count_true mask)%nat.
Proof.
  revert i; induction mask as [|b m IH]; intros i; [unfold set_at; destruct i; discriminate|].
  destruct i as [|i].
  - unfold set_at, rank. simpl. intros ->. rewrite count_true_cons.
    unfold count_true. simpl. lia.
  - rewrite rank_S_cons, count_true_cons. unfold set_at. simpl. intros H.
    specialize (IH i H). lia.
Qed.

Lemma rank_le_count (mask : list bool) (i : nat) : (rank mask i <= count_true mask)%nat.
Proof.
  revert i; induction mask as [|b m IH]; intros i.
  - unfold rank. rewrite take_nil. lia.
  - destruct i as [|i]; [unfold rank; simpl; unfold count_true at 1; simpl; lia|].
    rewrite rank_S_cons, count_true_cons. specialize (IH i). lia.
Qed.

(** Counting under pointwise implication. *)
Lemma count_true_mono (m1 m2 : list bool) :
  (forall i, set_at m1 i = true -> set_at m2 i = true) ->
  (count_true m1 <= count_true m2)%nat.
Proof.
  revert m2; induction m1 as [|b m1 IH]; intros m2 H.
  - unfold count_true at 1. simpl. lia.
  - destruct m2 as [|c m2].
    + destruct b.
      * specialize (H 0%nat eq_refl). discriminate.
      * rewrite count_true_cons. simpl.
        rewrite (IH []); [reflexivity|]. intros i Hi. apply (H (S i) Hi).
    + rewrite !count_true_cons.
      assert (count_true m1 <= count_true m2)%nat.
      { apply IH. intros i Hi. apply (H (S i) Hi). }
      destruct b, c; simpl; try lia.
      specialize (H 0%nat eq_refl). discriminate.
Qed.

Lemma count_true_zero (m : list bool) :
  (forall i, set_at m i = false) -> count_true m = 0%nat.
Proof.
  intros H. assert (count_true m <= count_true [])%nat; [|unfold count_true in *; simpl in *; lia].
  apply count_true_mono. intros i Hi. rewrite H in Hi. discriminate.
Qed.

Lemma fill_from_length (k : nat) (mask : list bool) (a : list Z) (v : Z) :
  length (fill_from k mask a v) = length a.
Proof.
  revert k a; induction mask as [|b m IH]; intros k [|x a]; simpl; try reflexivity.
  destruct b; [destruct k|]; simpl; rewrite IH; reflexivity.
Qed.

Lemma np_put_drop_where (mask : list bool) :
  forall (k i : nat) (pre a : list Z) (v : Z),
    length pre = i ->
    np_put (pre ++ a) (drop k (where_from i mask)) v = pre ++ fill_from k mask a v.
Proof.
  induction mask as [|b m IH]; intros k i pre a v Hpre.
  - simpl. rewrite drop_nil. reflexivity.
  - destruct a as [|x a].
    + simpl fill_from. apply np_put_ge. apply Forall_drop.
      eapply Forall_impl; [apply where_from_ge|]. simpl.
      intros j Hj. rewrite length_app. simpl. lia.
    + simpl. destruct b.
      * destruct k as [|k]; simpl.
        -- unfold np_put in *. simpl.
           replace (<[i:=v]> (pre ++ x :: a)) with ((pre ++ [v]) ++ a).
           2:{ rewrite <- Hpre, insert_app_r_alt by lia.
               rewrite Nat.sub_diag. simpl. rewrite <- app_assoc. reflexivity. }
           pose proof (IH 0%nat (S i) (pre ++ [v]) a v) as H.
           rewrite drop_0 in H. unfold np_put in H. rewrite H.
           ++ rewrite <- app_assoc. reflexivity.
           ++ rewrite length_app. simpl. lia.
        -- replace (pre ++ x :: a) with ((pre ++ [x]) ++ a)
             by (rewrite <- app_assoc; reflexivity).
           rewrite (IH k (S i) (pre ++ [x]) a v).
           ++ rewrite <- app_assoc. reflexivity.
           ++ rewrite length_app. simpl. lia.
      * replace (pre ++ x :: a) with ((pre ++ [x]) ++ a)
          by (rewrite <- app_assoc; reflexivity).
        rewrite (IH k (S i) (pre ++ [x]) a v).
        -- rewrite <- app_assoc. reflexivity.
        -- rewrite length_app. simpl. lia.
Qed.

Lemma put_from_fill (n : Z) (mask : list bool) (a : list Z) (v : Z) :
  np_put a (py_from n (np_where mask)) v = fill_from (skipped n mask) mask a v.
Proof.
  unfold py_from, skipped, np_where.
  rewrite where_from_length.
  destruct (0 <=? n); apply (np_put_drop_where mask _ 0%nat [] a v eq_refl).
Qed.

Lemma fill_from_lookup (k : nat) (mask : list bool) (a : list Z) (v : Z) (i : nat) :
  fill_from k mask a v !! i =
    (fun x => if set_at mask i && (k <=? rank mask i)%nat then v else x) <$> a !! i.
Proof.
  revert k a i; induction mask as [|b m IH]; intros k a i.
  - simpl. unfold set_at. destruct i; simpl; destruct (a !! _); reflexivity.
  - destruct a as [|x a]; [reflexivity|]. destruct i as [|i].
    + simpl. destruct b; [destruct k|]; reflexivity.
    + rewrite rank_S_cons. unfold set_at. simpl lookup at 2 3.
      fold (set_at m i). simpl fill_from.
      destruct b.
      * destruct k as [|k]; simpl; rewrite IH; reflexivity.
      * simpl. rewrite IH. reflexivity.
Qed.

(** After the reduction marks, the rows still active are the first [k] of
    those that were. *)
Lemma fill_from_active (fur : list Z) (k : nat) :
  count_true (np_eq (fill_from k (np_eq fur 0) fur 1) 0)
  = Nat.min k (count_true (np_eq fur 0)).
Proof.
  revert k; induction fur as [|x fur IH]; intros k; [destruct k; reflexivity|].
  simpl. destruct (x =? 0) eqn:E.
  - destruct k as [|k]; simpl; rewrite !count_true_cons.
    + rewrite IH. simpl. reflexivity.
    + rewrite E, IH. simpl. reflexivity.
  - simpl. rewrite !count_true_cons, E, IH. simpl. reflexivity.
Qed.

Lemma fill_from_furloughed (fur : list Z) (k : nat) :
  count_true (np_eq (fill_from k (np_eq fur 0) fur 1) 1)
  = (count_true (np_eq fur 1) + (count_true (np_eq fur 0) - k))%nat.
Proof.
  revert k; induction fur as [|x fur IH]; intros k; [destruct k; reflexivity|].
  simpl. destruct (x =? 0) eqn:E.
  - apply Z.eqb_eq in E. subst x.
    destruct k as [|k]; simpl; rewrite !count_true_cons; rewrite IH; simpl.
    all: unfold count_true; lia.
  - simpl. rewrite !count_true_cons, IH.
    destruct (x =? 1); simpl; lia.
Qed.

(** C6: in a job-reduction month with [T[m]] below the number of
    non-furloughed rows, the furlough step marks exactly
    [active - T[m]] rows, namely the non-furloughed rows that have at least
    [T[m]] non-furloughed rows senior to them, and sets their orig job to
    [K + 1]; every other row is untouched. With [T[m]] at or above the
    active count the step changes nothing. *)
Theorem furlough_for_reductions_spec (cf : config) (T reduction_months : list Z)
  (month : nat) (orig fur : list Z) (total : Z) :
  length orig = length fur ->
  T !! month = Some total -> 0 <= total ->
  py_in (Z.of_nat month) reduction_months = true ->
  let active := np_count (np_eq fur 0) in
  (total < active ->
   exists orig' fur',
     furlough_step cf T reduction_months month orig fur = Ok (orig', fur')
     /\ np_count (np_eq fur' 0) = total
     /\ np_count (np_eq fur' 1) = np_count (np_eq fur 1) + (active - total)
     /\ forall i,
         fur' !! i
         = (fun x => if most_junior_active fur (Z.to_nat total) i then 1 else x)
             <$> fur !! i
         /\ orig' !! i
            = (fun x => if most_junior_active fur (Z.to_nat total) i
                        then num_of_job_levels cf + 1 else x) <$> orig !! i)
  /\ (active <= total ->
      furlough_step cf T reduction_months month orig fur = Ok (orig, fur)).
Proof.
  intros Hlen HT Hpos Hin active.
  unfold furlough_step. rewrite Hin. unfold mark_for_furlough, py_index.
  rewrite HT. simpl. fold active. split.
  - intros Hlt. destruct (0 <=? total - active) eqn:E; [lia|]. clear E.
    rewrite !put_from_fill.
    assert (Hk : skipped (total - active) (np_eq fur 0) = Z.to_nat total).
    { unfold skipped. destruct (0 <=? total - active) eqn:E; [lia|].
      unfold active in *. rewrite np_count_eq in *. lia. }
    rewrite Hk. eexists _, _. split; [reflexivity|].
    rewrite !np_count_eq, fill_from_active, fill_from_furloughed.
    unfold active in *. rewrite np_count_eq in *.
    split; [lia|]. split; [lia|].
    intros i. rewrite !fill_from_lookup. split; reflexivity.
  - intros Hge. destruct (0 <=? total - active) eqn:E; [reflexivity|lia].
Qed.

Lemma np_put_lookup (ind : list nat) (a : list Z) (v : Z) (i : nat) :
  np_put a ind v !! i = (fun x => if bool_decide (i ∈ ind) then v else x) <$> a !! i.
Proof.
  unfold np_put. revert a. induction ind as [|j ind IH]; intros a; simpl.
  - destruct (a !! i); reflexivity.
  - rewrite IH. destruct (decide (j = i)) as [->|Hne].
    + rewrite (bool_decide_eq_true_2 (i ∈ i :: ind)) by (apply elem_of_cons; left; reflexivity).
      destruct (a !! i) eqn:E.
      * rewrite list_lookup_insert_eq by (eapply lookup_lt_Some; eauto). simpl.
        destruct (bool_decide (i ∈ ind)); reflexivity.
      * rewrite list_insert_ge by (apply lookup_ge_None; auto). rewrite E. reflexivity.
    + rewrite list_lookup_insert_ne by auto. destruct (a !! i); simpl; [|reflexivity].
      f_equal. rewrite (bool_decide_ext (i ∈ j :: ind) (i ∈ ind)); [reflexivity|].
      rewrite elem_of_cons. naive_solver.
Qed.

Lemma count_insert_le (a : list Z) (j : nat) (v w : Z) :
  (count_true (np_eq (<[j := v]> a) w) <= count_true (np_eq a w) + 1)%nat.
Proof.
  revert j; induction a as [|x a IH]; intros j;
    [destruct j; unfold count_true; simpl; lia|].
  destruct j as [|j]; cbn [np_eq map]; simpl insert; cbn [np_eq map];
    rewrite !count_true_cons.
  - destruct (v =? w), (x =? w); lia.
  - specialize (IH j). unfold np_eq in IH. lia.
Qed.

Lemma count_np_put_le (ind : list nat) (a : list Z) (v w : Z) :
  (count_true (np_eq (np_put a ind v) w) <= count_true (np_eq a w) + length ind)%nat.
Proof.
  unfold np_put. revert a; induction ind as [|j ind IH]; intros a; simpl; [lia|].
  specialize (IH (<[j:=v]> a)). pose proof (count_insert_le a j v w). lia.
Qed.

Lemma py_upto_length {A : Type} (n : Z) (l : list A) :
  0 <= n -> (length (py_upto n l) <= Z.to_nat n)%nat.
Proof.
  intros H. unfold py_upto. destruct (0 <=? n) eqn:E; [|lia].
  rewrite length_take. lia.
Qed.

Lemma py_upto_subset {A : Type} (n : Z) (l : list A) (x : A) :
  x ∈ py_upto n l -> x ∈ l.
Proof.
  unfold py_upto. destruct (0 <=? n); intros H; apply elem_of_take in H;
    destruct H as (i & Hi & _); apply list_elem_of_lookup; eauto.
Qed.

Lemma where_from_set (mask : list bool) (o j : nat) :
  j ∈ where_from o mask -> exists i, j = (o + i)%nat /\ set_at mask i = true.
Proof.
  revert o; induction mask as [|b m IH]; intros o; simpl.
  - intros H. apply elem_of_nil in H. contradiction.
  - intros H.
    assert (G : j ∈ where_from (S o) m -> exists i, j = (o + i)%nat /\ set_at (b :: m) i = true).
    { intros H'. destruct (IH _ H') as (i & -> & Hi). exists (S i). split; [lia|exact Hi]. }
    destruct b; [|auto]. apply elem_of_cons in H. destruct H as [->|H]; [|auto].
    exists 0%nat. split; [lia|reflexivity].
Qed.

Lemma py_stride_from_subset {A : Type} (l : list A) (skip stride : nat) (x : A) :
  x ∈ py_stride_from skip stride l -> x ∈ l.
Proof.
  revert skip; induction l as [|y l IH]; intros skip; simpl; [auto|].
  destruct skip as [|k]; rewrite ?elem_of_cons; intros H.
  - destruct H as [->|H]; [left; reflexivity|right; eauto].
  - right; eauto.
Qed.

Lemma elem_insert_inv (l : list nat) (i : nat) (v y : nat) :
  y ∈ <[i := v]> l -> y = v \/ y ∈ l.
Proof.
  intros H. apply list_elem_of_lookup in H. destruct H as (k & Hk).
  apply list_lookup_insert_Some in Hk. destruct Hk as [(_ & -> & _)|(_ & Hk)].
  - left; reflexivity.
  - right. apply list_elem_of_lookup. eauto.
Qed.

Lemma swap_subset (i j : nat) (x : list nat) (y : nat) : y ∈ swap i j x -> y ∈ x.
Proof.
  unfold swap. destruct (x !! i) as [xi|] eqn:Ei; [|auto].
  destruct (x !! j) as [xj|] eqn:Ej; [|auto]. intros H.
  apply elem_insert_inv in H. destruct H as [->|H].
  - apply list_elem_of_lookup. eauto.
  - apply elem_insert_inv in H. destruct H as [->|H]; [|exact H].
    apply list_elem_of_lookup. eauto.
Qed.

Lemma shuffle_loop_subset (steps : list nat) (x : list nat) (g : rng) (y : nat) :
  y ∈ (shuffle_loop steps x g).1 -> y ∈ x.
Proof.
  revert x g; induction steps as [|i steps IH]; intros x g; simpl; [auto|].
  destruct (random_interval g i) as [j g']. intros H.
  apply IH in H. eapply swap_subset; eauto.
Qed.

Lemma swap_length (i j : nat) (x : list nat) : length (swap i j x) = length x.
Proof.
  unfold swap. destruct (x !! i); [|reflexivity]. destruct (x !! j); [|reflexivity].
  rewrite !length_insert. reflexivity.
Qed.

Lemma fill_zero (mask : list bool) (a : list Z) (v : Z) : fill 0 mask a v = a.
Proof.
  revert a; induction mask as [|b m IH]; intros [|x a]; simpl; try reflexivity.
  destruct b; [reflexivity|]. rewrite IH. reflexivity.
Qed.

(** Two recalls in seniority order add up. *)
Lemma fill_recall_twice (fur orig : list Z) (n1 n2 : nat) (v : Z) :
  let fur1 := fill n1 (np_eq fur 1) fur 0 in
  fill n2 (np_eq fur1 1) fur1 0 = fill (n1 + n2) (np_eq fur 1) fur 0
  /\ fill n2 (np_eq fur1 1) (fill n1 (np_eq fur 1) orig v) v
     = fill (n1 + n2) (np_eq fur 1) orig v.
Proof.
  revert orig n1; induction fur as [|x fur IH]; intros orig n1; simpl.
  - split; [reflexivity|]. destruct orig; reflexivity.
  - destruct (x =? 1) eqn:E.
    + destruct n1 as [|n1]; simpl.
      * rewrite E. simpl. split; [reflexivity|].
        destruct orig as [|y orig]; reflexivity.
      * destruct (IH (tl orig) n1) as [H1 H2]. simpl in H1, H2.
        rewrite H1. split; [reflexivity|].
        destruct orig as [|y orig]; simpl; [reflexivity|].
        simpl in H2. rewrite H2. reflexivity.
    + simpl. rewrite E. destruct (IH (tl orig) n1) as [H1 H2]. simpl in H1, H2.
      rewrite H1. split; [reflexivity|].
      destruct orig as [|y orig]; simpl; [reflexivity|].
      simpl in H2. rewrite H2. reflexivity.
Qed.

Lemma set_at_np_eq (a : list Z) (v : Z) (i : nat) :
  set_at (np_eq a v) i = true <-> a !! i = Some v.
Proof.
  unfold set_at, np_eq. rewrite list_lookup_fmap.
  destruct (a !! i) as [x|]; simpl; [|split; discriminate].
  rewrite Z.eqb_eq. split; [intros ->; reflexivity|intros [= ->]; reflexivity].
Qed.

Lemma recalled_or_same_refl (K : Z) (orig fur : list Z) :
  recalled_or_same K orig fur orig fur.
Proof. intros i. left. split; reflexivity. Qed.

Lemma recalled_or_same_trans (K : Z) (o0 f0 o1 f1 o2 f2 : list Z) :
  recalled_or_same K o0 f0 o1 f1 -> recalled_or_same K o1 f1 o2 f2 ->
  recalled_or_same K o0 f0 o2 f2.
Proof.
  intros H1 H2 i. destruct (H2 i) as [[Hf Ho]|(Hf & Hf' & Ho')].
  - rewrite Hf, Ho. apply H1.
  - right. destruct (H1 i) as [[Hf1 Ho1]|(_ & Hf1 & _)]; [|congruence].
    rewrite <- Hf1. auto.
Qed.

(** One recall: the chosen rows, all of them furloughed, become active
    holders of the furlough level. *)
Lemma recall_chosen (K : Z) (orig fur : list Z) (chosen : list nat) :
  length orig = length fur ->
  (forall j, j ∈ chosen -> j ∈ np_where (np_eq fur 1)) ->
  recalled_or_same K orig fur (np_put orig chosen (K + 1)) (np_put fur chosen 0).
Proof.
  intros Hlen Hsub i. rewrite !np_put_lookup.
  destruct (bool_decide (i ∈ chosen)) eqn:E.
  - right. apply bool_decide_eq_true_1 in E. apply Hsub in E.
    apply where_from_set in E. destruct E as (i' & -> & Hset). simpl in *.
    apply set_at_np_eq in Hset. rewrite Hset. simpl.
    destruct (orig !! i') eqn:Eo; [auto|].
    apply lookup_ge_None in Eo. apply lookup_lt_Some in Hset. lia.
  - left. destruct (fur !! i), (orig !! i); split; reflexivity.
Qed.

Lemma applicable_total_nonneg (scheds : list recall_sched) (month : nat) :
  Forall (fun s => 0 <= sched_total s) scheds -> 0 <= applicable_total scheds month.
Proof.
  unfold applicable_total. induction 1 as [|s scheds Hs _ IH]; simpl; [lia|].
  destruct (py_in _ _); lia.
Qed.

Lemma recall_loop_cap (K : Z) (month eg_index : nat) (method : recall_method)
  (stride : positive) (scheds : list recall_sched) :
  Forall (fun s => 0 <= sched_total s) scheds ->
  forall (excess : Z) (orig fur : list Z) (g : rng),
    0 <= excess -> length orig = length fur ->
    exists orig' fur' g',
      recall_loop scheds excess orig fur g K month false eg_index method stride
      = Ok (orig', fur', g')
      /\ length orig' = length fur'
      /\ np_count (np_eq fur' 0) <= np_count (np_eq fur 0) + excess
      /\ np_count (np_eq fur' 0)
         <= np_count (np_eq fur 0) + applicable_total scheds month
      /\ recalled_or_same K orig fur orig' fur'.
Proof.
  induction 1 as [|s scheds Hs Hrest IH]; intros excess orig fur g Hex Hlen.
  - simpl. exists orig, fur, g. split; [reflexivity|]. split; [exact Hlen|].
    unfold applicable_total. simpl.
    split; [lia|]. split; [lia|]. apply recalled_or_same_refl.
  - pose proof (applicable_total_nonneg scheds month Hrest) as Hnn.
    cbn [recall_loop]. unfold applicable_total in *. cbn [map sumZ foldr].
    fold (sumZ (map (fun s0 => if py_in (Z.of_nat month)
                                    (np_arange (sched_start s0) (sched_end s0))
                               then sched_total s0 else 0) scheds)) in *.
    destruct (py_in (Z.of_nat month) (np_arange (sched_start s) (sched_end s))).
    2:{ simpl. destruct (IH excess orig fur g Hex Hlen)
          as (o' & f' & g' & E & Hl & H1 & H2 & H3).
        exists o', f', g'. repeat (split; [assumption || lia|]). exact H3. }
    cbn [negb bind andb].
    set (r := Z.min (sched_total s) excess).
    assert (Hr : 0 <= r <= excess) by lia.
    set (idx := np_where (np_eq fur 1)).
    assert (Hch : exists chosen g1,
               match method with
               | sen_order => (py_upto r idx, g)
               | stride_method => (py_upto r (py_stride stride idx), g)
               | random_method =>
                   let '(shuffled, g') := np_random_shuffle idx g in
                   (py_upto r shuffled, g')
               end = (chosen, g1)
               /\ (length chosen <= Z.to_nat r)%nat
               /\ forall j, j ∈ chosen -> j ∈ idx).
    { destruct method.
      - eexists _, _. split; [reflexivity|]. split; [apply py_upto_length; lia|].
        intros j. apply py_upto_subset.
      - eexists _, _. split; [reflexivity|]. split; [apply py_upto_length; lia|].
        intros j Hj. apply py_upto_subset in Hj.
        unfold py_stride in Hj. eapply py_stride_from_subset; eauto.
      - destruct (np_random_shuffle idx g) as [sh g1] eqn:Esh.
        eexists _, _. split; [reflexivity|]. split; [apply py_upto_length; lia|].
        intros j Hj. apply py_upto_subset in Hj.
        unfold np_random_shuffle in Esh.
        apply (shuffle_loop_subset (rev (seq 1 (length idx - 1))) idx g j).
        rewrite Esh. exact Hj. }
    destruct Hch as (chosen & g1 & -> & Hcl & Hsub).
    pose proof (recall_chosen K orig fur chosen Hlen Hsub) as Hstep.
    pose proof (count_np_put_le chosen fur 0 0) as Hcount.
    assert (Hl1 : length (np_put orig chosen (K + 1)) = length (np_put fur chosen 0))
      by (rewrite !np_put_length; exact Hlen).
    destruct (excess - r =? 0) eqn:E0.
    + eexists _, _, _. split; [reflexivity|]. split; [exact Hl1|].
      rewrite !np_count_eq in *. split; [lia|]. split; [lia|]. exact Hstep.
    + destruct (IH (excess - r) (np_put orig chosen (K + 1)) (np_put fur chosen 0) g1
                  ltac:(lia) Hl1) as (o' & f' & g' & E & Hl & H1 & H2 & H3).
      exists o', f', g'. split; [exact E|]. split; [exact Hl|].
      rewrite !np_count_eq in *. split; [lia|]. split; [lia|].
      eapply recalled_or_same_trans; eauto.
Qed.

Lemma recall_loop_sen_order (K : Z) (month eg_index : nat) (stride : positive)
  (scheds : list recall_sched) :
  Forall (fun s => 0 <= sched_total s) scheds ->
  forall (excess : Z) (orig fur : list Z) (g : rng),
    0 <= excess ->
    exists R : nat,
      recall_loop scheds excess orig fur g K month false eg_index sen_order stride
      = Ok (fill R (np_eq fur 1) orig (K + 1), fill R (np_eq fur 1) fur 0, g)
      /\ Z.of_nat R <= excess.
Proof.
  induction 1 as [|s scheds Hs Hrest IH]; intros excess orig fur g Hex.
  - simpl. exists 0%nat. rewrite !fill_zero. split; [reflexivity|lia].
  - cbn [recall_loop].
    destruct (py_in (Z.of_nat month) (np_arange (sched_start s) (sched_end s))).
    2:{ simpl. apply IH. exact Hex. }
    cbn [negb bind andb].
    set (r := Z.min (sched_total s) excess).
    assert (Hr : 0 <= r <= excess) by lia.
    fold (put_first r (np_eq fur 1) fur 0).
    fold (put_first r (np_eq fur 1) orig (K + 1)).
    rewrite !put_first_fill.
    assert (Hs' : slots r (np_eq fur 1) = Z.to_nat r).
    { unfold slots. destruct (0 <=? r) eqn:E; [reflexivity|lia]. }
    rewrite Hs'.
    destruct (excess - r =? 0) eqn:E0.
    + exists (Z.to_nat r). split; [reflexivity|lia].
    + destruct (IH (excess - r) (fill (Z.to_nat r) (np_eq fur 1) orig (K + 1))
                  (fill (Z.to_nat r) (np_eq fur 1) fur 0) g ltac:(lia))
        as (R & E & HR).
      rewrite E. exists (Z.to_nat r + R)%nat.
      destruct (fill_recall_twice fur orig (Z.to_nat r) R (K + 1)) as [H1 H2].
      simpl in H1, H2. rewrite H1, H2. split; [reflexivity|lia].
Qed.

(** C7: [mark_for_recall] changes nothing unless [T[m]] exceeds the
    number of non-furloughed rows; the rows it recalls were furloughed, get
    [fur = 0] and orig [K + 1], and their number is at most the surplus
    and at most the sum of the amounts of the schedules that cover the
    month; under [sen_order] they are the first (most senior) furloughed
    rows. *)
Theorem recall_capped_by_surplus (K : Z) (orig fur : list Z) (month : nat)
  (scheds : list recall_sched) (T : list Z) (total : Z) (eg_index : nat)
  (method : recall_method) (stride : positive) (g : rng) :
  length orig = length fur ->
  T !! month = Some total ->
  Forall (fun s => 0 <= sched_total s) scheds ->
  let surplus := total - np_count (np_eq fur 0) in
  exists orig' fur' g',
    mark_for_recall orig K fur month scheds T false eg_index method stride g
    = Ok (orig', fur', g')
    /\ (surplus <= 0 -> orig' = orig /\ fur' = fur)
    /\ np_count (np_eq fur' 0) - np_count (np_eq fur 0) <= Z.max 0 surplus
    /\ np_count (np_eq fur' 0) - np_count (np_eq fur 0)
       <= applicable_total scheds month
    /\ recalled_or_same K orig fur orig' fur'
    /\ (method = sen_order ->
        exists R : nat,
          Z.of_nat R <= Z.max 0 surplus
          /\ fur' = fill R (np_eq fur 1) fur 0
          /\ orig' = fill R (np_eq fur 1) orig (K + 1)).
Proof.
  intros Hlen HT Hs surplus. unfold mark_for_recall, py_index. rewrite HT.
  cbn [bind]. fold surplus.
  pose proof (applicable_total_nonneg scheds month Hs) as Hnn.
  destruct (0 <? surplus) eqn:E.
  - apply Z.ltb_lt in E.
    destruct (recall_loop_cap K month eg_index method stride scheds Hs surplus
                orig fur g ltac:(lia) Hlen) as (o' & f' & g' & Eq & Hl & H1 & H2 & H3).
    exists o', f', g'. split; [exact Eq|]. split; [lia|].
    split; [lia|]. split; [lia|]. split; [exact H3|].
    intros ->.
    destruct (recall_loop_sen_order K month eg_index stride scheds Hs surplus
                orig fur g ltac:(lia)) as (R & ER & HR).
    rewrite ER in Eq. injection Eq as <- <- <-.
    exists R. split; [lia|]. split; reflexivity.
  - apply Z.ltb_ge in E. exists orig, fur, g. split; [reflexivity|].
    split; [auto|]. split; [lia|]. split; [lia|].
    split; [apply recalled_or_same_refl|].
    intros _. exists 0%nat. rewrite !fill_zero. split; [lia|]. split; reflexivity.
Qed.

(** ** The random generator and the engine *)

Lemma recall_loop_rng (K : Z) (month : nat) (standalone : bool) (eg_index : nat)
  (method : recall_method) (stride : positive) (scheds : list recall_sched) :
  method <> random_method ->
  forall (excess : Z) (orig fur : list Z) (g : rng),
    recall_loop scheds excess orig fur g K month standalone eg_index method stride
    = on_ok (fun r => (r.1, g))
        (recall_loop scheds excess orig fur [] K month standalone eg_index method stride).
Proof.
  intros Hm. induction scheds as [|s scheds IH]; intros excess orig fur g.
  - reflexivity.
  - cbn [recall_loop].
    destruct (negb (py_in (Z.of_nat month) (np_arange (sched_start s) (sched_end s)))).
    { apply IH. }
    destruct (if standalone then py_index (sched_per_eg s) eg_index
              else Ok (sched_total s)) as [amount|e]; [|reflexivity].
    cbn [bind].
    destruct (standalone && (amount =? 0)); [apply IH|].
    destruct method; [| |congruence].
    + destruct (excess - Z.min amount excess =? 0); [reflexivity|apply IH].
    + destruct (excess - Z.min amount excess =? 0); [reflexivity|apply IH].
Qed.

Lemma mark_for_recall_rng (orig : list Z) (K : Z) (fur : list Z) (month : nat)
  (scheds : list recall_sched) (T : list Z) (standalone : bool) (eg_index : nat)
  (method : recall_method) (stride : positive) (g : rng) :
  method <> random_method ->
  mark_for_recall orig K fur month scheds T standalone eg_index method stride g
  = on_ok (fun r => (r.1, g))
      (mark_for_recall orig K fur month scheds T standalone eg_index method stride []).
Proof.
  intros Hm. unfold mark_for_recall.
  destruct (py_index T month) as [total|e]; [|reflexivity]. cbn [bind].
  destruct (0 <? total - np_count (np_eq fur 0)); [|reflexivity].
  apply recall_loop_rng. exact Hm.
Qed.

Section EngineRng.

Variable cf : config.
Variable condition_list : list string.
Variable fur_return : bool.
Variable J : list (list Z).
Variable T : list Z.
Variable reduction_months : list Z.
Variable cond : conditions.

Lemma recall_step_rng (month : nat) (orig fur : list Z) (g : rng) :
  recall_step cf fur_return T cond month orig fur g
  = on_ok (fun r => (r.1, g)) (recall_step cf fur_return T cond month orig fur []).
Proof.
  unfold recall_step.
  destruct (fur_return && py_in (Z.of_nat month) (recall_months cond)); [|reflexivity].
  apply mark_for_recall_rng. discriminate.
Qed.

Lemma month_body_rng (month : nat) (o a c f eg sg np : list Z)
  (dict : option (gmap Z pyfloat)) (g : rng) :
  month_body cf condition_list fur_return J T reduction_months cond month
             o a c f eg sg np dict g
  = on_ok (month_with_rng g)
      (month_body cf condition_list fur_return J T reduction_months cond month
                  o a c f eg sg np dict []).
Proof.
  unfold month_body.
  destruct (furlough_step cf T reduction_months month o f) as [[o1 f1]|e];
    [|reflexivity].
  cbn [bind fst snd]. rewrite (recall_step_rng month o1 f1 g).
  destruct (recall_step cf fur_return T cond month o1 f1 []) as [[[o2 f2] g2]|e];
    [|reflexivity].
  cbn [on_ok bind fst snd].
  destruct (job_loop _ _ _ _ _ _ _ _ _ _ _) as [[[a3 c3] d3]|e]; reflexivity.
Qed.

Variable df : dataframe.
Variable lower upper lower_next upper_next : list nat.
Variable total_months : nat.

Lemma month_pass_rng (month : nat) (g : rng) (st : engine_state) :
  month_pass cf condition_list fur_return J T reduction_months cond df
             lower upper lower_next upper_next total_months month (with_rng g st)
  = on_ok (with_rng g)
      (month_pass cf condition_list fur_return J T reduction_months cond df
                  lower upper lower_next upper_next total_months month
                  (with_rng [] st)).
Proof.
  unfold month_pass.
  destruct (py_index lower month) as [L|e]; [|reflexivity].
  destruct (py_index upper month) as [U|e]; [|reflexivity].
  destruct (py_index lower_next month) as [Ln|e]; [|reflexivity].
  destruct (py_index upper_next month) as [Un|e]; [|reflexivity].
  cbn [bind with_rng orig fur_data long_assign_column long_count_column
       ratio_cond_dict np_random].
  rewrite month_body_rng.
  destruct (month_body _ _ _ _ _ _ _ _ _ _ _ _ _ _ _ _ []) as [r|e]; [|reflexivity].
  cbn [on_ok bind month_with_rng orig_out assign_out fur_out count_out dict_out rng_out].
  destruct (np_copyto Ln Un (write_view L (orig_out r) (orig st)) _) as [o'|e];
    [|reflexivity].
  cbn [bind].
  destruct (np_copyto Ln Un (write_view L (fur_out r) (fur_data st)) _) as [f'|e];
    reflexivity.
Qed.

Lemma with_rng_id (st : engine_state) : with_rng (np_random st) st = st.
Proof. destruct st; reflexivity. Qed.

Lemma month_loop_rng (months : list nat) (g : rng) (st : engine_state) :
  month_loop cf condition_list fur_return J T reduction_months cond df
             lower upper lower_next upper_next total_months months (with_rng g st)
  = on_ok (with_rng g)
      (month_loop cf condition_list fur_return J T reduction_months cond df
                  lower upper lower_next upper_next total_months months
                  (with_rng [] st)).
Proof.
  revert g st; induction months as [|m months IH]; intros g st; [reflexivity|].
  cbn [month_loop]. rewrite (month_pass_rng m g st).
  destruct (month_pass _ _ _ _ _ _ _ _ _ _ _ _ _ m (with_rng [] st)) as [st1|e];
    [|reflexivity].
  cbn [on_ok bind]. rewrite (IH g st1).
  rewrite <- (with_rng_id st1) at 2. rewrite (IH (np_random st1) st1).
  destruct (month_loop _ _ _ _ _ _ _ _ _ _ _ _ _ months (with_rng [] st1)) as [st2|e];
    reflexivity.
Qed.

End EngineRng.

Lemma engine_rng (cf : config) (df : dataframe) (lower upper : list nat)
  (total_months : nat) (J : list (list Z)) (T : list Z)
  (job_change_months job_reduction_months : list Z) (start_month : nat)
  (condition_list : list string) (fur_return : bool) (g : rng) :
  assign_jobs_nbnf_job_changes cf df lower upper total_months J T job_change_months
    job_reduction_months start_month condition_list fur_return g
  = on_ok (fun r => (r.1, g))
      (assign_jobs_nbnf_job_changes cf df lower upper total_months J T
         job_change_months job_reduction_months start_month condition_list
         fur_return []).
Proof.
  unfold assign_jobs_nbnf_job_changes.
  destruct (py_last (drop 1 lower)) as [ll|e]; [|reflexivity]. cbn [bind].
  destruct (py_last (drop 1 upper)) as [ul|e]; [|reflexivity]. cbn [bind].
  destruct (if delayed_implementation cf then _ else _) as [a0|e]; [|reflexivity].
  cbn [bind].
  destruct (prepare cf condition_list fur_return job_change_months) as [cond|e];
    [|reflexivity].
  cbn [bind].
  set (st0 := {| orig := df_orig_job df; fur_data := df_fur df;
                 long_assign_column := a0;
                 long_count_column := repeat 0 total_months;
                 ratio_cond_dict := None; np_random := [] |}).
  change {| orig := df_orig_job df; fur_data := df_fur df;
            long_assign_column := a0;
            long_count_column := repeat 0 total_months;
            ratio_cond_dict := None; np_random := g |} with (with_rng g st0).
  change st0 with (with_rng [] st0) at 2.
  rewrite month_loop_rng.
  destruct (month_loop _ _ _ _ _ _ _ _ _ _ _ _ _ _ (with_rng [] st0)) as [st1|e];
    reflexivity.
Qed.

(** ** The job-count table builder *)

Lemma collect_changes_integrated (job_levels : nat) (counts : list Z)
  (job_changes : list job_change) (months : nat) :
  length counts = job_levels ->
  Forall (wf_change months job_levels) job_changes ->
  collect_changes job_changes false 0 (Ok counts) (Z.of_nat job_levels)
  = Ok (map change_delta job_changes, reported job_levels counts job_changes).
Proof.
  intros Hlen. induction 1 as [|c cs Hc _ IH]; [reflexivity|].
  destruct Hc as ((Hj1 & Hj2) & _).
  cbn [collect_changes bind]. unfold py_index_z.
  destruct (0 <=? change_job c - 1) eqn:E; [|lia].
  unfold py_index.
  destruct (lookup_lt_is_Some_2 counts (Z.to_nat (change_job c - 1)) ltac:(lia))
    as [x Hx].
  rewrite Hx. cbn [bind]. rewrite IH. cbn [bind fst snd map].
  unfold reported. cbn [flat_map].
  rewrite (nth_lookup_Some _ _ 0 _ Hx). simpl Z.of_nat.
  destruct (x + change_delta c <? 0); reflexivity.
Qed.

Lemma column_length (col : nat) (table : list (list Z)) :
  length (column col table) = length table.
Proof. unfold column. apply length_map. Qed.

Lemma py_slice_length {A : Type} (lo hi : nat) (l : list A) :
  (hi <= length l)%nat -> length (py_slice lo hi l) = (hi - lo)%nat.
Proof. intros H. unfold py_slice. rewrite length_take, length_drop. lia. Qed.

Lemma set_column_from_length (first col : nat) (vals : list Z) (table : list (list Z)) :
  (first + length vals <= length table)%nat ->
  length (set_column_from first col vals table) = length table.
Proof.
  intros H. unfold set_column_from.
  rewrite !length_app, length_zip_with, !length_take, !length_drop. lia.
Qed.

Lemma calculated_additives_length (gain n : Z) :
  0 <= n ->
  exists adds, calculated_additives gain n = Ok adds /\ length adds = Z.to_nat n.
Proof.
  intros Hn. unfold calculated_additives.
  destruct (n + 1 <? 0) eqn:E; [lia|]. eexists; split; [reflexivity|].
  unfold np_arange. rewrite !length_map, length_seq. lia.
Qed.

Lemma np_add_same (x y : list Z) :
  length x = length y ->
  exists s, np_add x y = Ok s /\ length s = length x.
Proof.
  intros H. unfold np_add. rewrite (proj2 (Nat.eqb_eq _ _) H).
  eexists; split; [reflexivity|]. rewrite length_zip_with. lia.
Qed.

Lemma np_add_scalar (x : list Z) (b : Z) :
  exists s, np_add x [b] = Ok s /\ length s = length x.
Proof.
  unfold np_add. destruct (length x =? length [b])%nat eqn:E.
  - apply Nat.eqb_eq in E. eexists; split; [reflexivity|].
    rewrite length_zip_with. simpl in *. lia.
  - destruct x as [|a [|a' x]]; simpl in *.
    + eexists; split; reflexivity.
    + discriminate.
    + eexists; split; [reflexivity|]. simpl. rewrite length_map. reflexivity.
Qed.

Lemma assign_column_slice_ok (lo hi col : nat) (vals : list Z) (table : list (list Z)) :
  (lo <= hi <= length table)%nat -> length vals = (hi - lo)%nat ->
  exists table', assign_column_slice lo hi col vals table = Ok table'
                 /\ length table' = length table.
Proof.
  intros Hb Hv. unfold assign_column_slice.
  rewrite py_slice_length by lia. rewrite (proj2 (Nat.eqb_eq _ _) Hv).
  eexists; split; [reflexivity|]. apply set_column_from_length. lia.
Qed.

Lemma apply_changes_integrated (months job_levels : nat) (job_changes : list job_change) :
  Forall (wf_change months job_levels) job_changes ->
  forall table : list (list Z),
    length table = months ->
    exists table',
      apply_changes job_changes (map change_delta job_changes) job_levels table
      = Ok table' /\ length table' = months.
Proof.
  induction 1 as [|c cs Hc _ IH]; intros table Hlen.
  - exists table. split; [reflexivity|exact Hlen].
  - destruct Hc as ((Hj1 & Hj2) & (Hs1 & Hs2) & He).
    cbn [apply_changes map].
    destruct (0 <=? change_job c - 1) eqn:E1; [|lia].
    destruct (change_job c - 1 <? Z.of_nat job_levels) eqn:E2; [|lia].
    cbn [bind]. rewrite Hlen.
    set (col := Z.to_nat (change_job c - 1)).
    assert (Hlo : py_bound months (change_start c) = Z.to_nat (change_start c)).
    { unfold py_bound. destruct (0 <=? change_start c) eqn:E; lia. }
    assert (Hhi : py_bound months (change_end c) = Z.to_nat (change_end c)).
    { unfold py_bound. destruct (0 <=? change_end c) eqn:E; lia. }
    rewrite Hlo, Hhi.
    set (lo := Z.to_nat (change_start c)). set (hi := Z.to_nat (change_end c)).
    destruct (calculated_additives_length (change_delta c)
                (change_end c - change_start c) ltac:(lia)) as (adds & -> & Hal).
    cbn [bind].
    destruct (np_add_same (py_slice lo hi (column col table)) adds)
      as (ramp & -> & Hrl).
    { rewrite py_slice_length by (rewrite column_length; lia). lia. }
    rewrite py_slice_length in Hrl by (rewrite column_length; lia).
    cbn [bind].
    destruct (assign_column_slice_ok lo hi col ramp table ltac:(lia) Hrl)
      as (table1 & -> & Hl1).
    cbn [bind].
    assert (Hlast : exists b, py_from (-1) adds = [b]).
    { unfold py_from. change (0 <=? -1) with false. cbv iota.
      change (Z.to_nat (- -1)) with 1%nat.
      destruct adds as [|a adds _] using rev_ind; [simpl in Hal; lia|].
      exists a. rewrite length_app. cbn [length].
      replace (length adds + 1 - 1)%nat with (length adds) by lia.
      apply drop_app_length. }
    destruct Hlast as (b & ->).
    destruct (np_add_scalar (drop hi (column col table1)) b) as (filled & -> & Hfl).
    rewrite length_drop, column_length in Hfl.
    cbn [bind].
    destruct (assign_column_slice_ok hi months col filled table1 ltac:(lia) ltac:(lia))
      as (table2 & -> & Hl2).
    cbn [bind]. apply IH. lia.
Qed.


(** ** Reading masks row by row *)

Lemma set_at_and (m1 m2 : list bool) (i : nat) :
  set_at (m1 &&& m2) i = set_at m1 i && set_at m2 i.
Proof.
  unfold set_at, np_and. rewrite lookup_zip_with.
  destruct (m1 !! i) as [b1|]; simpl; [|reflexivity].
  destruct (m2 !! i) as [b2|]; simpl; [reflexivity|].
  rewrite andb_false_r. reflexivity.
Qed.

Lemma set_at_np_le (a : list Z) (v : Z) (i : nat) :
  set_at (np_le a v) i = true <-> exists x, a !! i = Some x /\ x <= v.
Proof.
  unfold set_at, np_le. rewrite list_lookup_fmap.
  destruct (a !! i) as [x|]; simpl.
  - rewrite Z.leb_le. split; [eauto|intros (y & [= <-] & H); exact H].
  - split; [discriminate|intros (y & [=] & _)].
Qed.

Lemma np_eq_length (a : list Z) (v : Z) : length (np_eq a v) = length a.
Proof. apply length_map. Qed.

Lemma set_at_lt (m : list bool) (i : nat) : set_at m i = true -> (i < length m)%nat.
Proof.
  unfold set_at. destruct (m !! i) eqn:E; [|discriminate].
  intros _. eapply lookup_lt_Some; eauto.
Qed.

(** A fill that reaches every set row. *)
Lemma fill_all_lookup (n : nat) (mask : list bool) (a : list Z) (v : Z) (i : nat) :
  (count_true mask <= n)%nat ->
  fill n mask a v !! i = (fun x => if set_at mask i then v else x) <$> a !! i.
Proof.
  intros Hn. rewrite fill_lookup. destruct (a !! i) as [x|]; [|reflexivity].
  simpl. destruct (set_at mask i) eqn:E; [|reflexivity].
  pose proof (rank_lt_count mask i E).
  destruct (rank mask i <? n)%nat eqn:E2; [reflexivity|].
  apply Nat.ltb_ge in E2. lia.
Qed.

(** A fill never touches a row outside its mask. *)
Lemma fill_keeps (n : nat) (mask : list bool) (a : list Z) (v : Z) (i : nat) :
  set_at mask i = false -> fill n mask a v !! i = a !! i.
Proof.
  intros H. rewrite fill_lookup, H. destruct (a !! i); reflexivity.
Qed.

Lemma fill_cases (n : nat) (mask : list bool) (a : list Z) (v : Z) (i : nat) (y : Z) :
  fill n mask a v !! i = Some y ->
  a !! i = Some y \/ (y = v /\ set_at mask i = true).
Proof.
  rewrite fill_lookup. destruct (a !! i) as [x|]; [|discriminate]. simpl.
  destruct (set_at mask i); simpl; [|intros [= <-]; auto].
  destruct (rank mask i <? n)%nat; intros [= <-]; auto.
Qed.

(** How many rows hold [v] after a fill whose mask avoids the rows that
    already did. *)
Lemma fill_count (n : nat) (mask : list bool) (a : list Z) (v : Z) :
  Forall2 (fun (b : bool) x => b = true -> x <> v) mask a ->
  count_true (np_eq (fill n mask a v) v)
  = (count_true (np_eq a v) + Nat.min n (count_true mask))%nat.
Proof.
  intros H. revert n. induction H as [|b x mask a Hb _ IH]; intros n.
  { destruct n; reflexivity. }
  cbn [fill]. destruct b.
  - assert (E : (x =? v) = false) by (apply Z.eqb_neq; auto).
    destruct n as [|n]; cbn [np_eq map]; rewrite !count_true_cons.
    { rewrite E. simpl. lia. }
    rewrite Z.eqb_refl, E. specialize (IH n). unfold np_eq in IH.
    rewrite IH. simpl. lia.
  - cbn [np_eq map]. rewrite !count_true_cons.
    specialize (IH n). unfold np_eq in IH. rewrite IH. simpl. lia.
Qed.

Lemma Forall2_from_lookup {A B : Type} (P : A -> B -> Prop) (l : list A) (k : list B) :
  length l = length k ->
  (forall i x y, l !! i = Some x -> k !! i = Some y -> P x y) ->
  Forall2 P l k.
Proof. intros Hl HP. apply Forall2_same_length_lookup_2; auto. Qed.

Lemma count_zero_from_lookup (a : list Z) (v : Z) :
  (forall i, a !! i <> Some v) -> count_true (np_eq a v) = 0%nat.
Proof.
  intros H. apply count_true_zero. intros i.
  destruct (set_at (np_eq a v) i) eqn:E; [|reflexivity].
  apply set_at_np_eq in E. elim (H i E).
Qed.

Lemma slots_nonneg (n : Z) (mask : list bool) :
  0 <= n -> slots n mask = Z.to_nat n.
Proof. intros H. unfold slots. destruct (0 <=? n) eqn:E; [reflexivity|lia]. Qed.

(** ** A level of a month without conditions *)

Section PlainLevel.

Variable v : month_views.
Let o := orig_job_range v.
Let f := fur_range v.
Hypothesis Hlen : length o = length f.

Lemma nbnf_mask_set (j : Z) (a : list Z) (i : nat) :
  set_at (np_eq a 0 &&& np_le o j &&& np_eq f 0) i = true <->
  a !! i = Some 0 /\ (exists y, o !! i = Some y /\ y <= j) /\ f !! i = Some 0.
Proof.
  rewrite !set_at_and, !andb_true_iff, !set_at_np_eq, set_at_np_le. tauto.
Qed.

Lemma seniority_mask_set (a : list Z) (i : nat) :
  set_at (np_eq a 0 &&& np_eq f 0) i = true <->
  a !! i = Some 0 /\ f !! i = Some 0.
Proof. rewrite !set_at_and, !andb_true_iff, !set_at_np_eq. tauto. Qed.

Lemma holders_mask_set (j : Z) (i : nat) :
  set_at (np_eq f 0 &&& np_eq o j) i = true <-> f !! i = Some 0 /\ o !! i = Some j.
Proof. rewrite !set_at_and, !andb_true_iff, !set_at_np_eq. tauto. Qed.

Lemma set_at_false_iff (m : list bool) (i : nat) (P : Prop) :
  (set_at m i = true <-> P) -> ~ P -> set_at m i = false.
Proof. intros H HP. destruct (set_at m i); [tauto|reflexivity]. Qed.

Lemma plain_level (j cnt : Z) (a : list Z) :
  1 <= j -> settled o f j a ->
  np_count (np_eq f 0 &&& np_eq o j) <= cnt ->
  settled o f (j + 1) (plain_pass j cnt v a)
  /\ np_count (np_eq (plain_pass j cnt v a) j) <= cnt
  /\ (forall i x, a !! i = Some x -> x <> 0 -> plain_pass j cnt v a !! i = Some x).
Proof.
  intros Hj (Hal & HI1 & HI2) Hcnt.
  unfold plain_pass, seniority_fill, nbnf_fill. fold o f.
  set (m1 := np_eq a 0 &&& np_le o j &&& np_eq f 0).
  (* nobody holds level j yet *)
  assert (Hnone : count_true (np_eq a j) = 0%nat).
  { apply count_zero_from_lookup. intros i Hi.
    destruct (HI1 i j Hi) as [?|((? & ?) & _)]; lia. }
  rewrite (np_count_eq (np_eq a j)), Hnone, Z.sub_0_r. rewrite np_count_eq in Hcnt.
  (* the entitled rows are holders of level j and fit in the count *)
  assert (Hm1 : (count_true m1 <= count_true (np_eq f 0 &&& np_eq o j))%nat).
  { apply count_true_mono. intros i Hi. apply nbnf_mask_set in Hi.
    destruct Hi as (Ha & (y & Hy & Hyj) & Hf). apply holders_mask_set.
    split; [exact Hf|]. destruct (Z.eq_dec y j) as [->|Hne]; [exact Hy|].
    destruct (HI2 i y Hy Hf ltac:(lia)) as (x & Hx & Hx0). congruence. }
  rewrite (put_first_fill cnt), slots_nonneg by lia.
  set (a1 := fill (Z.to_nat cnt) m1 a j).
  assert (Ha1 : forall i, a1 !! i = (fun x => if set_at m1 i then j else x) <$> a !! i).
  { intros i. apply fill_all_lookup. lia. }
  assert (Ha1l : length a1 = length o) by (unfold a1; rewrite fill_length; exact Hal).
  assert (Hc1 : count_true (np_eq a1 j) = count_true m1).
  { unfold a1. rewrite fill_count.
    - rewrite Hnone. lia.
    - apply Forall2_from_lookup.
      + unfold m1, np_and. rewrite !length_zip_with, !np_eq_length.
        unfold np_le. rewrite length_map. lia.
      + intros i b x Hb Hx -> ->.
        destruct (HI1 i j Hx) as [?|((? & ?) & _)]; lia. }
  (* invariants after the no-bump no-flush fill *)
  assert (H1 : forall i x, a1 !! i = Some x ->
                 x = 0 \/ (1 <= x < j + 1 /\ f !! i = Some 0
                           /\ exists y, o !! i = Some y /\ x <= y)).
  { intros i x. rewrite Ha1. destruct (a !! i) as [x0|] eqn:Ea; [|discriminate].
    simpl. destruct (set_at m1 i) eqn:Em; intros [= <-].
    - right. apply nbnf_mask_set in Em. destruct Em as (Ha0 & (y & Hy & Hyj) & Hf).
      split; [lia|]. split; [exact Hf|]. exists y. split; [exact Hy|].
      destruct (Z.eq_dec y j) as [->|Hne]; [lia|].
      destruct (HI2 i y Hy Hf ltac:(lia)) as (x & Hx & Hx0).
      congruence.
    - destruct (HI1 i x0 Ea) as [?|((? & ?) & ? & ?)]; [left; assumption|right].
      split; [lia|]. split; assumption. }
  assert (H2 : forall i y, o !! i = Some y -> f !! i = Some 0 -> y < j + 1 ->
                 exists x, a1 !! i = Some x /\ x <> 0).
  { intros i y Hy Hf Hlt. rewrite Ha1.
    destruct (a !! i) as [x0|] eqn:Ea.
    2:{ apply lookup_ge_None in Ea. apply lookup_lt_Some in Hy. lia. }
    simpl. destruct (set_at m1 i) eqn:Em; [exists j; split; [reflexivity|lia]|].
    exists x0. split; [reflexivity|]. intros ->.
    assert (set_at m1 i = true); [|congruence].
    apply nbnf_mask_set. split; [exact Ea|]. split; [|exact Hf].
    exists y. split; [exact Hy|lia]. }
  (* the seniority fill *)
  rewrite (np_count_eq (np_eq a1 j)), Hc1. rewrite put_first_fill, slots_nonneg by lia.
  set (m2 := np_eq a1 0 &&& np_eq f 0).
  set (n2 := Z.to_nat (cnt - Z.of_nat (count_true m1))).
  assert (Hc2 : count_true (np_eq (fill n2 m2 a1 j) j)
                = (count_true m1 + Nat.min n2 (count_true m2))%nat).
  { rewrite fill_count, Hc1; [reflexivity|].
    apply Forall2_from_lookup.
    - unfold m2, np_and. rewrite !length_zip_with, !np_eq_length. lia.
    - intros i b x Hb Hx -> ->.
      assert (Hs : set_at m2 i = true) by (unfold set_at; rewrite Hb; reflexivity).
      apply seniority_mask_set in Hs. destruct Hs as (Hs & _). rewrite Hs in Hx.
      injection Hx as <-. lia. }
  split; [split; [|split]|split].
  - rewrite fill_length. exact Ha1l.
  - intros i x Hx. apply fill_cases in Hx. destruct Hx as [Hx|(-> & Hs)]; [auto|].
    apply seniority_mask_set in Hs. destruct Hs as (Ha0 & Hf). right.
    destruct (o !! i) as [y|] eqn:Ey.
    2:{ apply lookup_ge_None in Ey. apply lookup_lt_Some in Hf. lia. }
    split; [lia|]. split; [exact Hf|]. exists y. split; [reflexivity|].
    destruct (Z_lt_le_dec y (j + 1)) as [Hlt|Hge]; [|lia].
    destruct (H2 i y Ey Hf Hlt) as (x & Hx & Hx0). congruence.
  - intros i y Hy Hf Hlt. destruct (H2 i y Hy Hf Hlt) as (x & Hx & Hx0).
    exists x. split; [|exact Hx0]. rewrite fill_keeps; [exact Hx|].
    eapply set_at_false_iff; [apply seniority_mask_set|]. intros (Ha0 & _). congruence.
  - rewrite np_count_eq, Hc2. lia.
  - intros i x Hx Hx0. rewrite fill_keeps.
    + rewrite Ha1, Hx. simpl.
      rewrite (set_at_false_iff m1 i _ (nbnf_mask_set j a i)); [reflexivity|].
      intros (Ha0 & _). congruence.
    + eapply set_at_false_iff; [apply seniority_mask_set|]. intros (Ha0 & _).
      rewrite Ha1, Hx in Ha0. simpl in Ha0.
      rewrite (set_at_false_iff m1 i _ (nbnf_mask_set j a i)) in Ha0; [congruence|].
      intros (Ha0' & _). congruence.
Qed.

End PlainLevel.

(** ** The job loop of a month without conditions *)

Lemma np_arange_nil (a b : Z) : b <= a -> np_arange a b = [].
Proof. intros H. unfold np_arange. replace (Z.to_nat (b - a)) with 0%nat by lia. reflexivity. Qed.

Lemma np_arange_cons (a b : Z) : a < b -> np_arange a b = a :: np_arange (a + 1) b.
Proof.
  intros H. unfold np_arange.
  replace (Z.to_nat (b - a)) with (S (Z.to_nat (b - (a + 1)))) by lia.
  cbn [seq map]. f_equal; [lia|].
  rewrite <- seq_shift, map_map. apply map_ext. intros i. lia.
Qed.

Lemma np_arange_app (a b c : Z) :
  a <= b <= c -> np_arange a c = np_arange a b ++ np_arange b c.
Proof.
  intros H. remember (Z.to_nat (b - a)) as n eqn:En.
  revert a H En. induction n as [|n IH]; intros a H En.
  - assert (a = b) by lia. subst. rewrite (np_arange_nil b b) by lia. reflexivity.
  - rewrite (np_arange_cons a c), (np_arange_cons a b) by lia.
    rewrite (IH (a + 1)) by lia. reflexivity.
Qed.

Lemma plain_pass_cases (j cnt : Z) (v : month_views) (a : list Z) (i : nat) (x : Z) :
  plain_pass j cnt v a !! i = Some x -> a !! i = Some x \/ (x = j /\ a !! i = Some 0).
Proof.
  unfold plain_pass, seniority_fill, nbnf_fill. rewrite !put_first_fill.
  intros H. apply fill_cases in H. destruct H as [H|(-> & Hs)].
  - apply fill_cases in H. destruct H as [H|(-> & Hs)]; [auto|].
    right. split; [reflexivity|].
    rewrite !set_at_and, !andb_true_iff, set_at_np_eq in Hs. tauto.
  - right. split; [reflexivity|].
    rewrite !set_at_and, !andb_true_iff, set_at_np_eq in Hs. destruct Hs as (Hs & _).
    apply fill_cases in Hs. destruct Hs as [Hs|(_ & Hs)]; [exact Hs|].
    rewrite !set_at_and, !andb_true_iff, set_at_np_eq in Hs. tauto.
Qed.

Lemma plain_pass_length (j cnt : Z) (v : month_views) (a : list Z) :
  length (plain_pass j cnt v a) = length a.
Proof.
  unfold plain_pass, seniority_fill, nbnf_fill. rewrite !put_first_fill, !fill_length.
  reflexivity.
Qed.

Lemma plain_pass_keeps (j cnt : Z) (v : month_views) (a : list Z) (i : nat) (x : Z) :
  a !! i = Some x -> x <> 0 -> plain_pass j cnt v a !! i = Some x.
Proof.
  intros Hx Hx0. unfold plain_pass, seniority_fill, nbnf_fill.
  rewrite !put_first_fill.
  assert (H1 : fill (slots (cnt - np_count (np_eq a j))
                       (np_eq a 0 &&& np_le (orig_job_range v) j
                        &&& np_eq (fur_range v) 0))
                 (np_eq a 0 &&& np_le (orig_job_range v) j &&& np_eq (fur_range v) 0)
                 a j !! i = Some x).
  { rewrite fill_keeps; [exact Hx|].
    rewrite !set_at_and. destruct (set_at (np_eq a 0) i) eqn:E; [|reflexivity].
    apply set_at_np_eq in E. congruence. }
  rewrite fill_keeps; [exact H1|].
  rewrite !set_at_and. destruct (set_at (np_eq _ 0) i) eqn:E; [|reflexivity].
  apply set_at_np_eq in E. congruence.
Qed.

Section PlainMonth.

Variable cf : config.
Variable J : list (list Z).
Variable cond : conditions.
Variable month : nat.
Variable v : month_views.
Variable row : list Z.
Let o := orig_job_range v.
Let f := fur_range v.
Hypothesis HJ : J !! month = Some row.
Hypothesis Hlen : length o = length f.

Lemma job_pass_plain (job : Z) (col : nat) (cnt : Z) (a c : list Z)
  (dict : option (gmap Z pyfloat)) :
  row !! col = Some cnt ->
  job_pass cf [] J cond month v job col a c dict
  = Ok (plain_pass job cnt v a,
        np_put c (np_where (np_eq (plain_pass job cnt v a) job)) cnt, dict).
Proof.
  intros Hc. unfold job_pass, py_index. rewrite HJ. cbn [bind]. rewrite Hc. cbn [bind].
  destruct (py_in (Z.of_nat month) (all_change_months cond)); reflexivity.
Qed.

Lemma plain_loop (n : nat) :
  forall (j : Z) (a c : list Z) (dict : option (gmap Z pyfloat)),
    1 <= j -> (Z.to_nat (j - 1) + n <= length row)%nat ->
    settled o f j a -> within_counts row j a ->
    (forall k, j <= k < j + Z.of_nat n ->
               np_count (np_eq f 0 &&& np_eq o k) <= level_count row k) ->
    exists a' c',
      job_loop cf [] J cond month v (np_arange j (j + Z.of_nat n))
               (Z.to_nat (j - 1)) a c dict = Ok (a', c', dict)
      /\ settled o f (j + Z.of_nat n) a'
      /\ within_counts row (j + Z.of_nat n) a'
      /\ (forall i x, a !! i = Some x -> x <> 0 -> a' !! i = Some x).
Proof.
  induction n as [|n IH]; intros j a c dict Hj Hrow Hset Hcap Hcnt.
  - rewrite np_arange_nil by lia. exists a, c. cbn [job_loop].
    replace (j + Z.of_nat 0) with j by lia. auto.
  - rewrite np_arange_cons by lia. cbn [job_loop].
    destruct (lookup_lt_is_Some_2 row (Z.to_nat (j - 1)) ltac:(lia)) as [cnt Hc].
    rewrite (job_pass_plain j _ cnt a c dict Hc). cbn [bind].
    assert (Hcj : level_count row j = cnt).
    { unfold level_count. apply nth_lookup_Some with (d := 0) in Hc. exact Hc. }
    destruct (plain_level v Hlen j cnt a Hj Hset) as (Hset' & Hcap' & Hkeep).
    { rewrite <- Hcj. apply Hcnt. lia. }
    replace (S (Z.to_nat (j - 1))) with (Z.to_nat ((j + 1) - 1)) by lia.
    replace (j + Z.of_nat (S n)) with ((j + 1) + Z.of_nat n) by lia.
    destruct (IH (j + 1) (plain_pass j cnt v a)
                (np_put c (np_where (np_eq (plain_pass j cnt v a) j)) cnt) dict)
      as (a' & c' & E & Hs2 & Hc2 & Hk2).
    + lia.
    + lia.
    + exact Hset'.
    + intros k Hk. destruct (Z.eq_dec k j) as [->|Hne]; [rewrite Hcj; exact Hcap'|].
      etransitivity; [|apply (Hcap k); lia].
      rewrite !np_count_eq. apply inj_le. apply count_true_mono.
      intros i Hi. apply set_at_np_eq in Hi. apply set_at_np_eq.
      apply plain_pass_cases in Hi. destruct Hi as [Hi|(Hi & _)]; [exact Hi|lia].
    + intros k Hk. apply Hcnt. lia.
    + exists a', c'. split; [exact E|]. split; [exact Hs2|]. split; [exact Hc2|].
      intros i x Hx Hx0. apply Hk2; [|exact Hx0]. apply Hkeep; assumption.
Qed.

(** Levels processed without any hypothesis on their counts still leave
    every assigned row alone. *)
Lemma plain_loop_keeps (jobs : list Z) :
  forall (col : nat) (a c : list Z) (dict : option (gmap Z pyfloat)),
    (col + length jobs <= length row)%nat ->
    exists a' c',
      job_loop cf [] J cond month v jobs col a c dict = Ok (a', c', dict)
      /\ length a' = length a
      /\ (forall i x, a !! i = Some x -> x <> 0 -> a' !! i = Some x).
Proof.
  induction jobs as [|job jobs IH]; intros col a c dict Hrow.
  - exists a, c. cbn [job_loop]. auto.
  - cbn [job_loop]. cbn [length] in Hrow.
    destruct (lookup_lt_is_Some_2 row col ltac:(lia)) as [cnt Hc].
    rewrite (job_pass_plain job col cnt a c dict Hc). cbn [bind].
    destruct (IH (S col) (plain_pass job cnt v a)
                (np_put c (np_where (np_eq (plain_pass job cnt v a) job)) cnt) dict
                ltac:(lia)) as (a' & c' & E & Hl & Hk).
    exists a', c'. split; [exact E|]. split.
    + rewrite Hl. apply plain_pass_length.
    + intros i x Hx Hx0. apply Hk; [|exact Hx0]. apply plain_pass_keeps; assumption.
Qed.

End PlainMonth.

Lemma job_loop_app (cf : config) (cl : list string) (J : list (list Z))
  (cond : conditions) (month : nat) (v : month_views) (l1 l2 : list Z) :
  forall (col : nat) (a c : list Z) (dict : option (gmap Z pyfloat)),
    job_loop cf cl J cond month v (l1 ++ l2) col a c dict
    = bind (job_loop cf cl J cond month v l1 col a c dict)
        (fun st => job_loop cf cl J cond month v l2 (col + length l1)
                            st.1.1 st.1.2 st.2).
Proof.
  induction l1 as [|job l1 IH]; intros col a c dict.
  - cbn [app job_loop bind length fst snd]. rewrite Nat.add_0_r. reflexivity.
  - cbn [app job_loop].
    destruct (job_pass cf cl J cond month v job col a c dict) as [[[a1 c1] d1]|e];
      [|reflexivity].
    cbn [bind]. rewrite IH. cbn [length].
    replace (S col + length l1)%nat with (col + S (length l1))%nat by lia.
    reflexivity.
Qed.

Lemma np_arange_length (a b : Z) : length (np_arange a b) = Z.to_nat (b - a).
Proof. unfold np_arange. rewrite length_map, length_seq. reflexivity. Qed.

(** ** A whole month without conditions *)

Lemma recall_loop_rel (K : Z) (month eg_index : nat) (stride : positive)
  (scheds : list recall_sched) :
  forall (excess : Z) (orig fur : list Z) (g : rng),
    length orig = length fur ->
    exists orig' fur' g',
      recall_loop scheds excess orig fur g K month false eg_index sen_order stride
      = Ok (orig', fur', g')
      /\ length orig' = length fur' /\ length orig' = length orig
      /\ recalled_or_same K orig fur orig' fur'.
Proof.
  induction scheds as [|s scheds IH]; intros excess orig fur g Hlen.
  - exists orig, fur, g. cbn [recall_loop]. split; [reflexivity|].
    split; [exact Hlen|]. split; [reflexivity|]. apply recalled_or_same_refl.
  - cbn [recall_loop].
    destruct (py_in (Z.of_nat month) (np_arange (sched_start s) (sched_end s))).
    2:{ simpl. apply IH. exact Hlen. }
    cbn [negb bind andb].
    set (chosen := py_upto (Z.min (sched_total s) excess) (np_where (np_eq fur 1))).
    assert (Hsub : forall j, j ∈ chosen -> j ∈ np_where (np_eq fur 1)).
    { intros j. apply py_upto_subset. }
    pose proof (recall_chosen K orig fur chosen Hlen Hsub) as Hstep.
    assert (Hl1 : length (np_put orig chosen (K + 1)) = length (np_put fur chosen 0))
      by (rewrite !np_put_length; exact Hlen).
    destruct (excess - Z.min (sched_total s) excess =? 0).
    + eexists _, _, _. split; [reflexivity|]. split; [exact Hl1|].
      split; [apply np_put_length|exact Hstep].
    + destruct (IH (excess - Z.min (sched_total s) excess)
                  (np_put orig chosen (K + 1)) (np_put fur chosen 0) g Hl1)
        as (o' & f' & g' & E & Hl & Hl' & H3).
      exists o', f', g'. split; [exact E|]. split; [exact Hl|].
      split; [rewrite Hl'; apply np_put_length|].
      eapply recalled_or_same_trans; eauto.
Qed.

Lemma recall_step_rel (cf : config) (fur_return : bool) (T : list Z)
  (cond : conditions) (month : nat) (orig fur : list Z) (g : rng) (total : Z) :
  T !! month = Some total -> length orig = length fur ->
  exists orig' fur' g',
    recall_step cf fur_return T cond month orig fur g = Ok (orig', fur', g')
    /\ length orig' = length fur' /\ length orig' = length orig
    /\ recalled_or_same (num_of_job_levels cf) orig fur orig' fur'.
Proof.
  intros HT Hlen. unfold recall_step.
  assert (Hsame : exists orig' fur' g',
             Ok (orig, fur, g) = Ok (orig', fur', g')
             /\ length orig' = length fur' /\ length orig' = length orig
             /\ recalled_or_same (num_of_job_levels cf) orig fur orig' fur').
  { exists orig, fur, g. split; [reflexivity|]. split; [exact Hlen|].
    split; [reflexivity|]. apply recalled_or_same_refl. }
  destruct (fur_return && py_in (Z.of_nat month) (recall_months cond)); [|exact Hsame].
  unfold mark_for_recall, py_index. rewrite HT. cbn [bind].
  destruct (0 <? total - np_count (np_eq fur 0)); [|exact Hsame].
  apply recall_loop_rel. exact Hlen.
Qed.

Lemma settled_start (o f : list Z) (a : list Z) :
  length a = length o ->
  (forall i x, a !! i = Some x -> x = 0) ->
  (forall i y, f !! i = Some 0 -> o !! i = Some y -> 1 <= y) ->
  settled o f 1 a /\ forall row, within_counts row 1 a.
Proof.
  intros Hl Hz Hheld. split; [split; [exact Hl|split]|].
  - intros i x Hx. left. eapply Hz; eauto.
  - intros i y Hy Hf Hlt. specialize (Hheld i y Hf Hy). lia.
  - intros row k Hk. lia.
Qed.

Section PlainMonthBody.

Variable cf : config.
Variable fur_return : bool.
Variable J : list (list Z).
Variable T red : list Z.
Variable cond : conditions.
Variable month : nat.
Variable row : list Z.
Variable total : Z.
Let K := num_of_job_levels cf.
Hypothesis HK : 0 <= K.
Hypothesis HJ : J !! month = Some row.
Hypothesis Hrow : length row = Z.to_nat K.
Hypothesis HT : T !! month = Some total.

Lemma month_body_plain (o a c f eg sg np : list Z) (dict : option (gmap Z pyfloat))
  (g : rng) (j0 : Z) :
  length o = length f -> length a = length o ->
  (forall i x, a !! i = Some x -> x = 0) ->
  py_in (Z.of_nat month) red = false \/ np_count (np_eq f 0) <= total ->
  (forall i y, f !! i = Some 0 -> o !! i = Some y -> 1 <= y) ->
  0 <= j0 <= K ->
  (forall k, 1 <= k <= j0 ->
             np_count (np_eq f 0 &&& np_eq o k) <= level_count row k) ->
  exists r,
    month_body cf [] fur_return J T red cond month o a c f eg sg np dict g = Ok r
    /\ length (orig_out r) = length o
    /\ length (fur_carried r) = length o
    /\ length (assign_out r) = length o
    /\ recalled_or_same K o f (orig_out r) (fur_carried r)
    /\ fur_out r = mark_fur_range (assign_out r) (fur_carried r) K
    /\ dict_out r = dict
    /\ (forall i y, fur_carried r !! i = Some 0 -> orig_out r !! i = Some y ->
                    y <= j0 -> exists x, assign_out r !! i = Some x /\ 1 <= x <= y)
    /\ (j0 = K ->
        settled (orig_out r) (fur_carried r) (K + 1) (assign_out r)
        /\ within_counts row (K + 1) (assign_out r)).
Proof.
  intros Hlen Hal Hzero Hfur Hheld Hj0 Hcnt. unfold month_body.
  assert (Ef : furlough_step cf T red month o f = Ok (o, f)).
  { unfold furlough_step. destruct (py_in (Z.of_nat month) red) eqn:E; [|reflexivity].
    destruct Hfur as [?|Hfur]; [discriminate|].
    unfold mark_for_furlough, py_index. rewrite HT. cbn [bind].
    destruct (0 <=? total - np_count (np_eq f 0)) eqn:E2; [reflexivity|lia]. }
  rewrite Ef. cbn [bind fst snd].
  destruct (recall_step_rel cf fur_return T cond month o f g total HT Hlen)
    as (o' & f' & g' & -> & Hl' & Hlo & Hrel).
  cbn [bind]. fold K in Hrel.
  set (v := {| orig_job_range := o'; fur_range := f'; eg_range := eg;
               sg_range := sg; nonparticip_range := np |}).
  assert (Hheld' : forall i y, f' !! i = Some 0 -> o' !! i = Some y -> 1 <= y).
  { intros i y Hf Ho. destruct (Hrel i) as [[E1 E2]|(_ & E1 & E2)].
    - rewrite E1 in Hf. rewrite E2 in Ho. eauto.
    - rewrite E2 in Ho. injection Ho as <-. lia. }
  assert (Hcnt' : forall k, 1 <= k <= j0 ->
                    np_count (np_eq f' 0 &&& np_eq o' k) <= level_count row k).
  { intros k Hk. etransitivity; [|apply (Hcnt k Hk)].
    rewrite !np_count_eq. apply inj_le. apply count_true_mono. intros i.
    rewrite !set_at_and, !andb_true_iff, !set_at_np_eq. intros [Hf Ho].
    destruct (Hrel i) as [[E1 E2]|(_ & E1 & E2)].
    - rewrite <- E1, <- E2. auto.
    - rewrite E2 in Ho. injection Ho as Ho. lia. }
  destruct (settled_start o' f' a ltac:(lia) Hzero Hheld') as [Hs0 Hc0].
  pose proof (plain_loop cf J cond month v row HJ Hl' (Z.to_nat j0) 1 a c dict
                ltac:(lia) ltac:(simpl; lia) Hs0 (Hc0 row)) as Hloop.
  destruct Hloop as (a1 & c1 & E1 & Hs1 & Hc1 & Hk1).
  { intros k Hk. apply Hcnt'. lia. }
  replace (1 + Z.of_nat (Z.to_nat j0)) with (j0 + 1) in * by lia.
  pose proof (plain_loop_keeps cf J cond month v row HJ Hl' (np_arange (j0 + 1) (K + 1))
                (Z.to_nat j0) a1 c1 dict) as Hrest.
  destruct Hrest as (a2 & c2 & E2 & Hl2 & Hk2).
  { rewrite np_arange_length. lia. }
  fold K. rewrite (np_arange_app 1 (j0 + 1) (K + 1)) by lia.
  change (Z.to_nat (1 - 1)) with 0%nat in E1.
  rewrite job_loop_app, E1. cbn [bind fst snd].
  rewrite np_arange_length.
  replace (0 + Z.to_nat (j0 + 1 - 1))%nat with (Z.to_nat j0) by lia.
  rewrite E2. cbn [bind].
  destruct Hs1 as (Hl1 & HI1 & HI2).
  assert (Hl1' : length a1 = length o') by exact Hl1.
  eexists. split; [reflexivity|].
  cbn [orig_out fur_carried assign_out fur_out dict_out].
  split; [exact Hlo|]. split; [lia|]. split; [lia|]. split; [exact Hrel|].
  split; [reflexivity|]. split; [reflexivity|]. split.
  - intros i y Hf Ho Hy.
    destruct (HI2 i y Ho Hf ltac:(lia)) as (x & Hx & Hx0).
    exists x. split; [apply Hk2; assumption|].
    destruct (HI1 i x Hx) as [?|(Hx1 & _ & y' & Hy' & Hxy)]; [contradiction|].
    unfold v in Hy'. cbn in Hy'. rewrite Ho in Hy'. injection Hy' as <-. lia.
  - intros ->. rewrite np_arange_nil in E2 by lia. cbn [job_loop] in E2.
    injection E2 as <- <-. split; [|exact Hc1].
    split; [exact Hl1|]. split; assumption.
Qed.

End PlainMonthBody.

(** ** What any month leaves in its slices *)

Lemma painted_refl (K : Z) (a : list Z) : painted K a a.
Proof. split; [reflexivity|]. intros i x Hx. left. exact Hx. Qed.

Lemma painted_trans (K : Z) (a b c : list Z) :
  painted K a b -> painted K b c -> painted K a c.
Proof.
  intros [Hl1 H1] [Hl2 H2]. split; [lia|]. intros i x Hx.
  destruct (H2 i x Hx) as [Hb|Hr]; [apply H1; exact Hb|right; exact Hr].
Qed.

Lemma np_put_painted (K v : Z) (a : list Z) (ind : list nat) :
  1 <= v <= K -> painted K a (np_put a ind v).
Proof.
  intros Hv. split; [apply np_put_length|]. intros i x. rewrite np_put_lookup.
  destruct (a !! i) as [y|]; [|discriminate]. simpl.
  destruct (bool_decide (i ∈ ind)); intros [= <-]; auto.
Qed.

Lemma put_first_painted (K v n : Z) (mask : list bool) (a : list Z) :
  1 <= v <= K -> painted K a (put_first n mask a v).
Proof. intros Hv. apply np_put_painted. exact Hv. Qed.

Ltac paint :=
  repeat first
    [ apply painted_refl
    | apply np_put_painted; assumption
    | apply put_first_painted; assumption
    | eapply painted_trans; [|apply np_put_painted; assumption]
    | eapply painted_trans; [|apply put_first_painted; assumption] ].

Lemma assign_cond_ratio_painted (K job cnt eg_num : Z) (c_dict : gmap Z pyfloat)
  (o a eg f a' : list Z) :
  1 <= job <= K ->
  assign_cond_ratio job cnt eg_num c_dict o a eg f = Ok a' -> painted K a a'.
Proof.
  intros Hj. unfold assign_cond_ratio.
  destruct (dict_get c_dict job) as [[q|]|e]; cbn [bind]; try discriminate.
  intros [= <-]. paint.
Qed.

Lemma assign_cond_ratio_capped_painted (K job cnt : Z) (eg1 eg2 : list Z)
  (qd : gmap (Z * bool) quota) (enh : bool) (o a eg f ex a' : list Z) :
  1 <= job <= K ->
  assign_cond_ratio_capped job cnt eg1 eg2 qd enh o a eg f ex = Ok a' ->
  painted K a a'.
Proof.
  intros Hj. unfold assign_cond_ratio_capped.
  destruct (dict_get qd (job, enh)) as [[[w l] p]|e]; cbn [bind]; [|discriminate].
  destruct (distribute_vacancies_by_weights _ _ _) as [al|e]; cbn [bind];
    [|discriminate].
  destruct (0 <? sumZ al).
  - destruct (py_index al 0) as [q1|e]; cbn [bind]; [|discriminate].
    destruct (py_index al 1) as [q2|e]; cbn [bind]; [|discriminate].
    intros [= <-]. destruct (0 <? q1), (0 <? q2); paint.
  - destruct (distribute _ _) as [qs|e]; cbn [bind]; [|discriminate].
    destruct (py_index qs 0) as [q1|e]; cbn [bind]; [|discriminate].
    destruct (py_index qs 1) as [q2|e]; cbn [bind]; [|discriminate].
    intros [= <-].
    destruct (0 <? Z.max 0 (q2 - _)), (0 <? Z.max 0 (q1 - _)); paint.
Qed.

Lemma np_arange_bounds (a b : Z) : Forall (fun k => a <= k < b) (np_arange a b).
Proof.
  unfold np_arange. apply Forall_forall. intros k Hk.
  apply list_elem_of_fmap in Hk. destruct Hk as (i & -> & Hi).
  apply elem_of_seq in Hi. lia.
Qed.

Lemma recall_loop_lengths (K0 : Z) (month eg_index : nat) (standalone : bool)
  (method : recall_method) (stride : positive) (scheds : list recall_sched) :
  forall excess o f g o' f' g',
    recall_loop scheds excess o f g K0 month standalone eg_index method stride
    = Ok (o', f', g') ->
    length o' = length o /\ length f' = length f.
Proof.
  induction scheds as [|s scheds IH]; intros excess o f g o' f' g'.
  - cbn [recall_loop]. intros [= <- <- <-]. auto.
  - cbn [recall_loop].
    destruct (negb _); [apply IH|].
    destruct (if standalone then _ else _) as [amount|e]; cbn [bind]; [|discriminate].
    destruct (standalone && (amount =? 0)); [apply IH|].
    destruct (match method with sen_order => _ | _ => _ end) as [chosen g1].
    destruct (excess - Z.min amount excess =? 0).
    + intros [= <- <- <-]. rewrite !np_put_length. auto.
    + intros H. apply IH in H. rewrite !np_put_length in H. exact H.
Qed.

Lemma mark_fur_range_lookup (a f : list Z) (levels : Z) (i : nat) :
  length a = length f ->
  mark_fur_range a f levels !! i
  = match a !! i with
    | Some x => Some (if (0 <? x) && (x <=? levels) then 0
                      else if x =? 0 then 1 else default 0 (f !! i))
    | None => None
    end.
Proof.
  intros Hl. unfold mark_fur_range. rewrite !np_put_where_fill.
  rewrite !fill_all_lookup by lia.
  destruct (a !! i) as [x|] eqn:Ea.
  - destruct (f !! i) as [z|] eqn:Ef.
    2:{ apply lookup_ge_None in Ef. apply lookup_lt_Some in Ea. lia. }
    simpl. unfold set_at, np_and, np_gt, np_le, np_eq.
    rewrite lookup_zip_with, !list_lookup_fmap, Ea. simpl.
    destruct ((0 <? x) && (x <=? levels)); [reflexivity|].
    destruct (x =? 0); reflexivity.
  - destruct (f !! i) as [z|] eqn:Ef; [|reflexivity].
    apply lookup_ge_None in Ea. apply lookup_lt_Some in Ef. lia.
Qed.

Lemma mark_fur_range_length (a f : list Z) (levels : Z) :
  length (mark_fur_range a f levels) = length f.
Proof. unfold mark_fur_range. rewrite !np_put_length. reflexivity. Qed.

Section AnyMonth.

Variable cf : config.
Variable cl : list string.
Variable fur_return : bool.
Variable J : list (list Z).
Variable T red : list Z.
Variable cond : conditions.
Let K := num_of_job_levels cf.

Lemma job_pass_painted (month : nat) (v : month_views) (job : Z) (col : nat)
  (a c : list Z) (d : option (gmap Z pyfloat)) a' c' d' :
  1 <= job <= K ->
  job_pass cf cl J cond month v job col a c d = Ok (a', c', d') ->
  painted K a a' /\ length c' = length c.
Proof.
  intros Hj. unfold job_pass.
  destruct (py_index J month) as [row|e]; cbn [bind]; [|discriminate].
  destruct (py_index row col) as [cnt|e]; cbn [bind]; [|discriminate].
  assert (Hcond : forall r,
             (if py_in (Z.of_nat month) (all_change_months cond)
              then
                let* assign_range := apply_prex cl cond (Z.of_nat month) job cnt v a in
                let* ratioed := apply_ratio cl cond (Z.of_nat month) job cnt v
                                  assign_range d in
                let* assign_range := apply_count cf cl cond (Z.of_nat month) job cnt v
                                       (fst ratioed) in
                Ok (assign_range, snd ratioed)
              else Ok (a, d)) = Ok r -> painted K a r.1).
  { intros r. destruct (py_in (Z.of_nat month) (all_change_months cond)).
    2:{ intros [= <-]. apply painted_refl. }
    unfold apply_prex, apply_ratio, apply_count.
    assert (H1 : forall a1,
               (if str_in "prex" cl
                then if py_in (Z.of_nat month) (sg_month_range cond)
                        && py_in job (sg_jobs cond)
                     then let* rights := dict_get (sg_dict cond) job in
                          Ok (put_first (Z.min rights cnt)
                                (np_eq a 0 &&& np_eq (sg_range v) 1
                                 &&& np_eq (fur_range v) 0) a job)
                     else Ok a
                else Ok a) = Ok a1 -> painted K a a1).
    { intros a1. destruct (str_in "prex" cl); [|intros [= <-]; paint].
      destruct (_ && _); [|intros [= <-]; paint].
      destruct (dict_get (sg_dict cond) job); cbn [bind]; [|discriminate].
      intros [= <-]. paint. }
    destruct (if str_in "prex" cl then _ else _) as [a1|e]; cbn [bind]; [|discriminate].
    specialize (H1 a1 eq_refl).
    assert (H2 : forall r2,
               (if str_in "ratio" cl
                then
                  if py_in (Z.of_nat month) (ratio_month_range cond)
                     && py_in job (ratio_jobs cond)
                  then
                    match
                      (if (Z.of_nat month =? ratio_cond_month cond)
                          && (job =? ratio_cond_job cond)
                       then Some (set_ratio_cond_dict 1 (ratio_jobs cond)
                                    (orig_job_range v) (eg_range v))
                       else d)
                    with
                    | Some c_dict =>
                        let* assign_range :=
                          assign_cond_ratio job cnt 1 c_dict (orig_job_range v) a1
                            (eg_range v) (fur_range v) in
                        Ok (assign_range,
                            if (Z.of_nat month =? ratio_cond_month cond)
                               && (job =? ratio_cond_job cond)
                            then Some (set_ratio_cond_dict 1 (ratio_jobs cond)
                                         (orig_job_range v) (eg_range v))
                            else d)
                    | None => Raise NameError
                    end
                  else Ok (a1,
                           if (Z.of_nat month =? ratio_cond_month cond)
                              && (job =? ratio_cond_job cond)
                           then Some (set_ratio_cond_dict 1 (ratio_jobs cond)
                                        (orig_job_range v) (eg_range v))
                           else d)
                else Ok (a1, d)) = Ok r2 -> painted K a1 r2.1).
    { intros r2. destruct (str_in "ratio" cl); [|intros [= <-]; paint].
      destruct (py_in _ _ && py_in _ _); [|intros [= <-]; paint].
      destruct (if _ && _ then _ else d) as [cd|]; [|discriminate].
      destruct (assign_cond_ratio _ _ _ _ _ _ _ _) as [a2|e] eqn:E2; cbn [bind];
        [|discriminate].
      intros [= <-]. eapply assign_cond_ratio_painted; eauto. }
    destruct (if str_in "ratio" cl then _ else _) as [r2|e]; cbn [bind]; [|discriminate].
    specialize (H2 r2 eq_refl).
    destruct (str_in "count" cl).
    2:{ cbn [bind]. intros [= <-]. eapply painted_trans; eauto. }
    destruct (py_in _ _ && py_in _ _).
    2:{ cbn [bind]. intros [= <-]. eapply painted_trans; eauto. }
    destruct (assign_cond_ratio_capped _ _ _ _ _ _ _ _ _ _ _) as [a3|e] eqn:E3;
      cbn [bind]; [|discriminate].
    intros [= <-]. cbn [fst].
    eapply painted_trans; [exact H1|]. eapply painted_trans; [exact H2|].
    eapply assign_cond_ratio_capped_painted; eauto. }
  destruct (if py_in (Z.of_nat month) (all_change_months cond) then _ else _)
    as [r|e]; cbn [bind]; [|discriminate].
  specialize (Hcond r eq_refl). intros [= <- <- <-]. split.
  - eapply painted_trans; [exact Hcond|]. unfold seniority_fill, nbnf_fill. paint.
  - apply np_put_length.
Qed.

Lemma job_loop_painted (month : nat) (v : month_views) (jobs : list Z) :
  Forall (fun job => 1 <= job <= K) jobs ->
  forall (col : nat) (a c : list Z) (d : option (gmap Z pyfloat)) a' c' d',
    job_loop cf cl J cond month v jobs col a c d = Ok (a', c', d') ->
    painted K a a' /\ length c' = length c.
Proof.
  induction 1 as [|job jobs Hj _ IH]; intros col a c d a' c' d'.
  - cbn [job_loop]. intros [= <- <- <-]. split; [apply painted_refl|reflexivity].
  - cbn [job_loop].
    destruct (job_pass cf cl J cond month v job col a c d) as [[[a1 c1] d1]|e] eqn:E;
      cbn [bind]; [|discriminate].
    intros H. destruct (job_pass_painted _ _ _ _ _ _ _ _ _ _ Hj E) as [Hp Hc].
    destruct (IH _ _ _ _ _ _ _ H) as [Hp' Hc'].
    split; [eapply painted_trans; eauto|lia].
Qed.

Lemma month_body_any (month : nat) (o a c f eg sg np : list Z)
  (d : option (gmap Z pyfloat)) (g : rng) (r : month_result) :
  0 <= K ->
  month_body cf cl fur_return J T red cond month o a c f eg sg np d g = Ok r ->
  length a = length f ->
  length (orig_out r) = length o
  /\ length (fur_out r) = length f
  /\ length (count_out r) = length c
  /\ painted K a (assign_out r)
  /\ ((forall i x, a !! i = Some x -> x = 0) ->
      labelled K 0 (assign_out r) (fur_out r)).
Proof.
  intros HK. unfold month_body.
  destruct (furlough_step cf T red month o f) as [[o1 f1]|e] eqn:Ef; cbn [bind];
    [|discriminate].
  assert (Hl1 : length o1 = length o /\ length f1 = length f).
  { unfold furlough_step in Ef. destruct (py_in _ red).
    - unfold mark_for_furlough in Ef.
      destruct (py_index T month); cbn [bind] in Ef; [|discriminate].
      destruct (0 <=? _); injection Ef as <- <-; rewrite ?np_put_length; auto.
    - injection Ef as <- <-. auto. }
  cbn [fst snd].
  destruct (recall_step cf fur_return T cond month o1 f1 g) as [[[o2 f2] g2]|e] eqn:Er;
    cbn [bind]; [|discriminate].
  assert (Hl2 : length o2 = length o1 /\ length f2 = length f1).
  { unfold recall_step in Er. destruct (fur_return && _).
    - unfold mark_for_recall in Er.
      destruct (py_index T month); cbn [bind] in Er; [|discriminate].
      destruct (0 <? _); [|injection Er as <- <- <-; auto].
      eapply recall_loop_lengths; eauto.
    - injection Er as <- <- <-. auto. }
  destruct (job_loop _ _ _ _ _ _ _ _ _ _ _) as [[[a3 c3] d3]|e] eqn:El; cbn [bind];
    [|discriminate].
  intros [= <-] Hla. cbn [orig_out fur_out count_out assign_out].
  apply job_loop_painted in El.
  2:{ eapply Forall_impl; [apply np_arange_bounds|]. simpl. fold K. intros; lia. }
  destruct El as [[Hpl Hp] Hc].
  split; [lia|]. split; [rewrite mark_fur_range_length; lia|].
  split; [rewrite np_put_length; lia|]. split; [split; assumption|].
  intros Hz. split; [rewrite mark_fur_range_length; lia|].
  intros i x Hx. rewrite mark_fur_range_lookup by lia. rewrite Hx.
  destruct (Hp i x Hx) as [Hx0|Hr].
  - apply Hz in Hx0. subst x. right. split; [reflexivity|].
    fold K. destruct (0 <=? K); reflexivity.
  - left. split; [exact Hr|]. fold K.
    destruct (0 <? x) eqn:E1; [|lia]. destruct (x <=? K) eqn:E2; [|lia].
    reflexivity.
Qed.

End AnyMonth.

(** Conservation, from the labels. *)
Lemma level_hits (K x : Z) :
  0 <= K ->
  sumZ (map (fun k => if x =? k then 1 else 0) (np_arange 1 (K + 1)))
  = if (1 <=? x) && (x <=? K) then 1 else 0.
Proof.
  intros HK. remember (Z.to_nat K) as n eqn:En.
  revert K HK En. induction n as [|n IH]; intros K HK En.
  - assert (K = 0) by lia. subst. rewrite np_arange_nil by lia. simpl.
    destruct (1 <=? x) eqn:E1, (x <=? 0) eqn:E2; simpl; try reflexivity; lia.
  - rewrite (np_arange_app 1 K (K + 1)) by lia.
    rewrite (np_arange_cons K (K + 1)), (np_arange_nil (K + 1)) by lia.
    rewrite map_app. unfold sumZ. rewrite foldr_app. cbn [map foldr].
    fold (sumZ (map (fun k => if x =? k then 1 else 0) (np_arange 1 K))).
    assert (IH' := IH (K - 1) ltac:(lia) ltac:(lia)).
    replace (K - 1 + 1) with K in IH' by lia.
    assert (G : forall (l : list Z) (z : Z),
               foldr Z.add z l = sumZ l + z).
    { clear. induction l as [|y l IH]; intros z; simpl; [lia|]. rewrite IH.
      unfold sumZ. lia. }
    rewrite G, IH'.
    destruct (x =? K) eqn:E0, (1 <=? x) eqn:E1, (x <=? K) eqn:E2,
      (x <=? K - 1) eqn:E3; simpl; try reflexivity; lia.
Qed.

Lemma conservation_of_labels (K u : Z) (assign fur : list Z) :
  0 <= K -> (u = 0 \/ u = K + 1) ->
  labelled K u assign fur ->
  assigned_total K assign + np_count (np_eq fur 1) = Z.of_nat (length assign).
Proof.
  intros HK Hu [Hl H]. unfold assigned_total.
  revert fur Hl H. induction assign as [|x assign IH]; intros fur Hl H.
  - destruct fur; [|discriminate]. simpl.
    assert (G : forall l : list Z, sumZ (map (fun _ => 0) l) = 0).
    { clear. induction l; simpl; [reflexivity|]. unfold sumZ in *. simpl. lia. }
    unfold np_count. simpl. rewrite G. reflexivity.
  - destruct fur as [|z fur]; [discriminate|].
    specialize (IH fur ltac:(simpl in Hl; lia) (fun i => H (S i))).
    assert (Hsplit : forall l : list Z,
               sumZ (map (fun k => np_count (np_eq (x :: assign) k)) l)
               = sumZ (map (fun k => if x =? k then 1 else 0) l)
                 + sumZ (map (fun k => np_count (np_eq assign k)) l)).
    { clear. induction l as [|k l IHl]; [reflexivity|].
      cbn [map]. unfold sumZ in *. cbn [foldr]. rewrite IHl.
      rewrite !np_count_eq. unfold np_eq. cbn [map]. rewrite count_true_cons.
      destruct (x =? k); lia. }
    rewrite Hsplit, level_hits by exact HK.
    rewrite (np_count_eq (np_eq (z :: fur) 1)). unfold np_eq. cbn [map].
    rewrite count_true_cons. rewrite np_count_eq in IH. unfold np_eq in IH.
    cbn [length]. destruct (H 0%nat x eq_refl) as [[Hx Hz]|[Hx Hz]];
      injection Hz as ->.
    + destruct (1 <=? x) eqn:E1; [|lia]. destruct (x <=? K) eqn:E2; [|lia].
      simpl. lia.
    + destruct (1 <=? x) eqn:E1, (x <=? K) eqn:E2; simpl; try lia.
Qed.

(** ** Examples and counterexamples *)


(** Three active rows and two jobs in a reduction month. *)
Lemma furlough_for_reductions_example :
  exists orig' fur',
    furlough_step (plain_config 2) [2] [0] 0 [1; 1; 2] [0; 0; 0] = Ok (orig', fur')
    /\ np_count (np_eq fur' 0) = 2.
Proof.
  destruct (furlough_for_reductions_spec (plain_config 2) [2] [0] 0
              [1; 1; 2] [0; 0; 0] 2 eq_refl eq_refl ltac:(lia) eq_refl) as [H _].
  destruct (H ltac:(reflexivity)) as (o & f & E & H0 & _).
  exists o, f. split; [exact E|exact H0].
Defined.

(** Two furloughed rows, one active, two jobs: one recall. *)
Lemma recall_capped_example :
  exists orig' fur' g',
    mark_for_recall [0; 0; 1] 1 [1; 1; 0] 0 [one_recall] [2] false 0 sen_order 2 []
    = Ok (orig', fur', g')
    /\ np_count (np_eq fur' 0) - np_count (np_eq [1; 1; 0] 0) <= Z.max 0 (2 - 1).
Proof.
  destruct (recall_capped_by_surplus 1 [0; 0; 1] [1; 1; 0] 0 [one_recall] [2] 2 0
              sen_order 2 [] eq_refl eq_refl
              ltac:(repeat constructor; simpl; lia))
    as (o & f & g' & E & _ & H & _).
  exists o, f, g'. split; [exact E|exact H].
Defined.



(** C8, counterexample: the random method under two states of numpy's
    generator recalls different rows. *)
Lemma random_recall_depends_on_generator :
  on_ok (fun r => r.1)
    (mark_for_recall [0; 0; 1] 1 [1; 1; 0] 0 [one_recall] [2] false 0
       random_method 2 [0%nat])
  <> on_ok (fun r => r.1)
       (mark_for_recall [0; 0; 1] 1 [1; 1; 0] 0 [one_recall] [2] false 0
          random_method 2 [1%nat]).
Proof. vm_compute. discriminate. Qed.

(** C8, as the code has it: the engine never reaches the generator (it
    calls [mark_for_recall] with the default [sen_order]), so its arrays are
    the same from any generator state, which it leaves as it found it; and
    [mark_for_recall] itself has this property for every method but
    [random], for which no seed is taken from the caller. *)
Theorem engine_ignores_generator (cf : config) (df : dataframe)
  (lower upper : list nat) (total_months : nat) (J : list (list Z)) (T : list Z)
  (job_change_months job_reduction_months : list Z) (start_month : nat)
  (condition_list : list string) (fur_return : bool) (g : rng) :
  assign_jobs_nbnf_job_changes cf df lower upper total_months J T job_change_months
    job_reduction_months start_month condition_list fur_return g
  = on_ok (fun r => (r.1, g))
      (assign_jobs_nbnf_job_changes cf df lower upper total_months J T
         job_change_months job_reduction_months start_month condition_list
         fur_return [])
  /\ forall orig K fur month scheds standalone eg_index stride,
       mark_for_recall orig K fur month scheds T standalone eg_index sen_order stride g
       = on_ok (fun r => (r.1, g))
           (mark_for_recall orig K fur month scheds T standalone eg_index
              sen_order stride [])
       /\ mark_for_recall orig K fur month scheds T standalone eg_index stride_method
            stride g
          = on_ok (fun r => (r.1, g))
              (mark_for_recall orig K fur month scheds T standalone eg_index
                 stride_method stride []).
Proof.
  split; [apply engine_rng|].
  intros. split; apply mark_for_recall_rng; discriminate.
Qed.

(** C1, failing run: with a pre-existing right and a ratio condition on
    level 1, month 0 ends with five holders of level 1 against a table
    entry of four. *)
Theorem prex_and_ratio_over_allocate :
  exists out g',
    assign_jobs_nbnf_job_changes prex_ratio_config prex_ratio_frame
      [0; 6]%nat [6; 12]%nat 12 [[4]; [4]] [4; 4] [] [] 0
      ["prex"; "ratio"]%string false [] = Ok (out, g')
    /\ np_count (np_eq (py_slice 0 6 (out_assign out)) 1) = 5
    /\ py_index [[4]; [4]] 0 = Ok [4].
Proof.
  eexists _, _. split; [vm_compute; reflexivity|]. split; reflexivity.
Qed.

(** ** Month slices of the long arrays *)

Lemma py_slice_lookup {A : Type} (L U : nat) (l : list A) (j : nat) :
  py_slice L U l !! j = if (j <? U - L)%nat then l !! (L + j)%nat else None.
Proof.
  unfold py_slice. destruct (Nat.ltb_spec j (U - L)).
  - rewrite lookup_take_lt by lia. apply lookup_drop.
  - apply lookup_take_ge. lia.
Qed.

Lemma write_view_length (L : nat) (new arr : list Z) :
  (length new <= length arr - L)%nat ->
  length (write_view L new arr) = length arr.
Proof.
  intros H. unfold write_view.
  rewrite !length_app, length_take, length_drop. lia.
Qed.

Lemma write_view_lookup (L : nat) (new arr : list Z) (i : nat) :
  (length new <= length arr - L)%nat ->
  write_view L new arr !! i
  = if (i <? L)%nat then arr !! i
    else if (i <? L + length new)%nat then new !! (i - L)%nat else arr !! i.
Proof.
  intros H. unfold write_view.
  destruct (Nat.ltb_spec i L).
  - destruct (Nat.lt_ge_cases i (length arr)).
    + rewrite lookup_app_l by (rewrite length_take; lia).
      apply lookup_take_lt. lia.
    + rewrite (proj2 (lookup_ge_None arr i)) by lia.
      apply lookup_ge_None. rewrite !length_app, length_take, length_drop. lia.
  - destruct (Nat.lt_ge_cases i (length arr)).
    + rewrite lookup_app_r by (rewrite length_take; lia).
      rewrite length_take. replace (L `min` length arr)%nat with L by lia.
      destruct (Nat.ltb_spec i (L + length new)).
      * apply lookup_app_l. lia.
      * rewrite lookup_app_r by lia. rewrite lookup_drop. f_equal. lia.
    + assert (E : (take L arr ++ new ++ drop (L + length new) arr) !! i = None).
      { apply lookup_ge_None. rewrite !length_app, length_take, length_drop. lia. }
      rewrite E. destruct (Nat.ltb_spec i (L + length new)); [lia|].
      symmetry. apply lookup_ge_None. lia.
Qed.

Lemma py_slice_bound {A : Type} (L U : nat) (l : list A) :
  (length (py_slice L U l) <= length l - L)%nat.
Proof. unfold py_slice. rewrite length_take, length_drop. lia. Qed.

Lemma py_slice_write_view (L U : nat) (new arr : list Z) :
  (U <= length arr)%nat -> length new = (U - L)%nat -> (L <= U)%nat ->
  py_slice L U (write_view L new arr) = new.
Proof.
  intros HU Hn HL. apply list_eq. intros j.
  rewrite py_slice_lookup, write_view_lookup by lia.
  destruct (Nat.ltb_spec j (U - L)).
  - destruct (Nat.ltb_spec (L + j) L); [lia|].
    destruct (Nat.ltb_spec (L + j) (L + length new)); [|lia].
    f_equal. lia.
  - symmetry. apply lookup_ge_None. lia.
Qed.

Lemma np_copyto_inv (L U : nat) (arr src arr' : list Z) :
  np_copyto L U arr src = Ok arr' ->
  exists new,
    arr' = write_view L new arr
    /\ length new = length (py_slice L U arr)
    /\ (length src = length (py_slice L U arr) -> new = src)
    /\ (forall x, x ∈ new -> x ∈ src).
Proof.
  unfold np_copyto. destruct (Nat.eqb_spec (length src) (length (py_slice L U arr))).
  - intros [= <-]. exists src. auto.
  - destruct src as [|v [|w src]]; try discriminate.
    intros [= <-]. exists (repeat v (length (py_slice L U arr))).
    split; [reflexivity|]. split; [apply repeat_length|]. split; [intros; lia|].
    intros x Hx. apply list_elem_of_In, repeat_spec in Hx. subst. constructor.
Qed.

Lemma np_copyto_same (L U : nat) (arr src : list Z) :
  length src = length (py_slice L U arr) ->
  np_copyto L U arr src = Ok (write_view L src arr).
Proof.
  intros H. unfold np_copyto. rewrite (proj2 (Nat.eqb_eq _ _) H). reflexivity.
Qed.

Lemma repeat_lookup {A : Type} (x : A) (n i : nat) :
  (i < n)%nat -> repeat x n !! i = Some x.
Proof.
  revert i; induction n as [|n IH]; intros [|i] Hi; simpl; try lia; auto.
  apply IH. lia.
Qed.

(** ** Selecting the rows that stay *)

Lemma np_select_subset {A : Type} (a : list A) (mask : list bool) (x : A) :
  x ∈ np_select a mask -> x ∈ a.
Proof.
  revert mask; induction a as [|y a IH]; intros [|b m]; simpl;
    try (intros H; inversion H; fail).
  destruct b.
  - intros H. apply elem_of_cons in H. destruct H as [->|H]; [left|right; eauto].
  - intros H. right. eauto.
Qed.

Lemma np_select_length {A : Type} (a : list A) (mask : list bool) :
  length a = length mask -> length (np_select a mask) = count_true mask.
Proof.
  revert mask; induction a as [|y a IH]; intros [|b m]; simpl; try discriminate.
  - reflexivity.
  - intros [= H]. rewrite count_true_cons. destruct b; simpl; rewrite IH; auto.
Qed.

Lemma np_select_count (a : list Z) (mask : list bool) (k : Z) :
  (count_true (np_eq (np_select a mask) k) <= count_true (np_eq a k))%nat.
Proof.
  revert mask; induction a as [|y a IH]; intros [|b m]; cbn [np_select];
    try (apply Nat.le_0_l).
  specialize (IH m). unfold np_eq in *. destruct b; cbn [map];
    rewrite ?count_true_cons; lia.
Qed.

Lemma np_select_all {A : Type} (a : list A) (mask : list bool) :
  length a = length mask -> Forall (fun b => b = true) mask -> np_select a mask = a.
Proof.
  revert mask; induction a as [|y a IH]; intros [|b m]; simpl; try discriminate.
  - reflexivity.
  - intros [= H] Hall. inversion Hall; subst. f_equal. auto.
Qed.

Lemma np_in1d_self (a : list Z) : Forall (fun b => b = true) (np_in1d a a).
Proof.
  unfold np_in1d. apply Forall_forall. intros b Hb.
  apply list_elem_of_fmap in Hb. destruct Hb as (x & -> & Hx).
  apply existsb_exists. exists x. split; [apply list_elem_of_In; exact Hx|].
  apply Z.eqb_refl.
Qed.

Lemma align_next_self (idx arr : list Z) :
  length arr = length idx -> align_next idx idx arr = arr.
Proof.
  intros H. unfold align_next. apply np_select_all.
  - unfold np_in1d. rewrite length_map. exact H.
  - apply np_in1d_self.
Qed.

(** ** One turn of the monthly loop, taken apart *)

Section MonthPass.

Variable cf : config.
Variable cl : list string.
Variable fur_return : bool.
Variable J : list (list Z).
Variable T red : list Z.
Variable cond : conditions.
Variable df : dataframe.
Variable lower upper lower_next upper_next : list nat.
Variable total_months : nat.

Lemma month_pass_inv (month : nat) (st st' : engine_state) :
  month_pass cf cl fur_return J T red cond df lower upper lower_next upper_next
             total_months month st = Ok st' ->
  exists L U Ln Un r,
    lower !! month = Some L /\ upper !! month = Some U
    /\ lower_next !! month = Some Ln /\ upper_next !! month = Some Un
    /\ month_body cf cl fur_return J T red cond month
         (py_slice L U (orig st)) (py_slice L U (long_assign_column st))
         (py_slice L U (long_count_column st)) (py_slice L U (fur_data st))
         (py_slice L U (df_eg df)) (py_slice L U (df_sg df))
         (py_slice L U (repeat 0 total_months))
         (ratio_cond_dict st) (np_random st) = Ok r
    /\ np_copyto Ln Un (write_view L (orig_out r) (orig st))
         (align_next (py_slice L U (df_index df)) (py_slice Ln Un (df_index df))
            (assign_out r)) = Ok (orig st')
    /\ np_copyto Ln Un (write_view L (fur_out r) (fur_data st))
         (align_next (py_slice L U (df_index df)) (py_slice Ln Un (df_index df))
            (fur_out r)) = Ok (fur_data st')
    /\ long_assign_column st' = write_view L (assign_out r) (long_assign_column st)
    /\ long_count_column st' = write_view L (count_out r) (long_count_column st)
    /\ ratio_cond_dict st' = dict_out r
    /\ np_random st' = rng_out r.
Proof.
  unfold month_pass, py_index.
  destruct (lower !! month) as [L|]; cbn [bind]; [|discriminate].
  destruct (upper !! month) as [U|]; cbn [bind]; [|discriminate].
  destruct (lower_next !! month) as [Ln|]; cbn [bind]; [|discriminate].
  destruct (upper_next !! month) as [Un|]; cbn [bind]; [|discriminate].
  destruct (month_body _ _ _ _ _ _ _ _ _ _ _ _ _ _ _ _ _) as [r|e] eqn:Er;
    cbn [bind]; [|discriminate].
  destruct (np_copyto Ln Un (write_view L (orig_out r) (orig st)) _) as [o'|e] eqn:Eo;
    cbn [bind]; [|discriminate].
  destruct (np_copyto Ln Un (write_view L (fur_out r) (fur_data st)) _) as [f'|e] eqn:Ef;
    cbn [bind]; [|discriminate].
  intros [= <-]. exists L, U, Ln, Un, r. cbn.
  repeat (split; [first [reflexivity|assumption]|]). reflexivity.
Qed.

End MonthPass.

(** ** The labels of the processed months *)

Lemma copied_rows (L U Ln Un : nat) (idx out src arr arr' : list Z) :
  (L <= U <= length arr)%nat -> length out = (U - L)%nat ->
  length src = (U - L)%nat -> length idx = length arr ->
  (U <= Ln)%nat \/ (Ln = L /\ Un = U) ->
  np_copyto Ln Un (write_view L out arr)
    (align_next (py_slice L U idx) (py_slice Ln Un idx) src) = Ok arr' ->
  length arr' = length arr
  /\ (forall i, (i < L)%nat -> arr' !! i = arr !! i)
  /\ (forall i, (L <= i < U)%nat ->
        ((U <= Ln)%nat /\ arr' !! i = out !! (i - L)%nat)
        \/ (Ln = L /\ Un = U /\ arr' !! i = src !! (i - L)%nat)).
Proof.
  intros HLU Hout Hsrc Hidx Hnext H.
  apply np_copyto_inv in H. destruct H as (new & -> & Hnew & Hsame & _).
  assert (Hin : length (write_view L out arr) = length arr)
    by (apply write_view_length; lia).
  pose proof (py_slice_bound Ln Un (write_view L out arr)) as Hb.
  split; [rewrite write_view_length; lia|].
  destruct Hnext as [Hafter|[-> ->]].
  - split.
    + intros i Hi. rewrite write_view_lookup by lia.
      destruct (Nat.ltb_spec i Ln); [|lia].
      rewrite write_view_lookup by lia.
      destruct (Nat.ltb_spec i L); [reflexivity|lia].
    + intros i Hi. left. split; [exact Hafter|].
      rewrite write_view_lookup by lia.
      destruct (Nat.ltb_spec i Ln); [|lia].
      rewrite write_view_lookup by lia.
      destruct (Nat.ltb_spec i L); [lia|].
      destruct (Nat.ltb_spec i (L + length out)); [reflexivity|lia].
  - assert (Hn : length new = (U - L)%nat).
    { rewrite Hnew. apply py_slice_length. lia. }
    assert (Ha : align_next (py_slice L U idx) (py_slice L U idx) src = src).
    { apply align_next_self. rewrite py_slice_length by lia. exact Hsrc. }
    rewrite Ha in Hsame. rewrite Hsame in *
      by (rewrite py_slice_length by lia; exact Hsrc).
    split.
    + intros i Hi. rewrite write_view_lookup by lia.
      destruct (Nat.ltb_spec i L); [|lia].
      rewrite write_view_lookup by lia.
      destruct (Nat.ltb_spec i L); [reflexivity|lia].
    + intros i Hi. right. split; [reflexivity|]. split; [reflexivity|].
      rewrite write_view_lookup by lia.
      destruct (Nat.ltb_spec i L); [lia|].
      destruct (Nat.ltb_spec i (L + length src)); [reflexivity|lia].
Qed.

Section Labels.

Variable cf : config.
Variable cl : list string.
Variable fur_return : bool.
Variable J : list (list Z).
Variable T red : list Z.
Variable cond : conditions.
Variable df : dataframe.
Variable lower upper lower_next upper_next : list nat.
Variable n : nat.
Let K := num_of_job_levels cf.

Hypothesis HK : 0 <= K.
Hypothesis Hcal : calendar lower upper n.
Hypothesis Hnext : next_limits lower upper lower_next upper_next.
Hypothesis Hidx : length (df_index df) = n.

Lemma month_pass_labels (month first : nat) (st st' : engine_state) (L : nat) :
  lower !! month = Some L -> (first <= L)%nat ->
  engine_inv K n first L st ->
  month_pass cf cl fur_return J T red cond df lower upper lower_next upper_next
             n month st = Ok st' ->
  exists U, upper !! month = Some U /\ (L <= U)%nat /\ engine_inv K n first U st'.
Proof.
  intros HL Hfirst (Ho & Hf & Ha & Hc & Hzero & Hlab) Hpass.
  apply month_pass_inv in Hpass.
  destruct Hpass as (L' & U & Ln & Un & r & HL' & HU & HLn & HUn & Hbody & Eo & Ef
                     & Ea & Ec & _ & _).
  rewrite HL in HL'. injection HL' as <-.
  destruct Hcal as (_ & Hin & _). specialize (Hin _ _ _ HL HU).
  exists U. split; [exact HU|]. split; [lia|].
  assert (Hla : length (py_slice L U (long_assign_column st))
                = length (py_slice L U (fur_data st))).
  { rewrite !py_slice_length by lia. reflexivity. }
  destruct (month_body_any _ _ _ _ _ _ _ _ _ _ _ _ _ _ _ _ _ _ HK Hbody Hla)
    as (Hlo & Hlf & Hlc & [Hlp _] & Hlabel).
  rewrite py_slice_length in Hlo, Hlf, Hlc, Hlp by lia.
  assert (Hz : forall i x, py_slice L U (long_assign_column st) !! i = Some x -> x = 0).
  { intros i x. rewrite py_slice_lookup.
    destruct (Nat.ltb_spec i (U - L)); [|discriminate].
    rewrite Hzero by lia. intros [= <-]. reflexivity. }
  specialize (Hlabel Hz). destruct Hlabel as [_ Hlabel].
  destruct (copied_rows L U Ln Un (df_index df) (orig_out r) (assign_out r)
              (orig st) (orig st')
              ltac:(lia) Hlo Hlp ltac:(lia) (Hnext _ _ _ _ _ HL HU HLn HUn) Eo)
    as [Ho' _].
  destruct (copied_rows L U Ln Un (df_index df) (fur_out r) (fur_out r)
              (fur_data st) (fur_data st')
              ltac:(lia) Hlf Hlf ltac:(lia) (Hnext _ _ _ _ _ HL HU HLn HUn) Ef)
    as (Hf' & Hfold & Hfnew).
  assert (Hfrows : forall i, (i < U)%nat ->
             fur_data st' !! i
             = if (i <? L)%nat then fur_data st !! i else fur_out r !! (i - L)%nat).
  { intros i Hi. destruct (Nat.ltb_spec i L); [apply Hfold; lia|].
    destruct (Hfnew i ltac:(lia)) as [[_ E]|(_ & _ & E)]; exact E. }
  unfold engine_inv. rewrite Ea, Ec.
  rewrite !write_view_length by lia.
  repeat (split; [lia|]). split.
  - intros i Hi. rewrite write_view_lookup by lia.
    destruct (Nat.ltb_spec i L); [lia|].
    destruct (Nat.ltb_spec i (L + length (assign_out r))); [lia|].
    apply Hzero. lia.
  - intros i Hi. unfold row_labelled.
    rewrite write_view_lookup by lia. rewrite Hfrows by lia.
    destruct (Nat.ltb_spec i L).
    + apply Hlab. lia.
    + destruct (Nat.ltb_spec i (L + length (assign_out r))); [|lia].
      destruct (lookup_lt_is_Some_2 (assign_out r) (i - L) ltac:(lia)) as [x Hx].
      destruct (Hlabel _ _ Hx) as [[Hr Hf0]|[-> Hf1]].
      * left. exists x. auto.
      * right. auto.
Qed.

Lemma month_loop_labels (first : nat) :
  forall (cnt start : nat) (st st' : engine_state) (F : nat),
    (first <= F)%nat ->
    (forall L, lower !! start = Some L -> L = F) ->
    engine_inv K n first F st ->
    month_loop cf cl fur_return J T red cond df lower upper lower_next upper_next
               n (seq start cnt) st = Ok st' ->
    exists F', (F <= F')%nat /\ engine_inv K n first F' st'
      /\ forall p L U, (start <= p < start + cnt)%nat ->
           lower !! p = Some L -> upper !! p = Some U -> (F <= L /\ U <= F')%nat.
Proof.
  induction cnt as [|cnt IH]; intros start st st' F Hfirst HF Hinv.
  - cbn [seq month_loop]. intros [= <-]. exists F.
    split; [lia|]. split; [exact Hinv|]. intros; lia.
  - cbn [seq month_loop].
    destruct (month_pass _ _ _ _ _ _ _ _ _ _ _ _ _ _ st) as [st1|e] eqn:E1;
      cbn [bind]; [|discriminate].
    intros Hloop.
    destruct (month_pass_inv _ _ _ _ _ _ _ _ _ _ _ _ _ _ _ _ E1)
      as (L & U0 & _ & _ & _ & HL & _).
    pose proof (HF _ HL) as ->.
    destruct (month_pass_labels start first st st1 F HL Hfirst Hinv E1)
      as (U & HU & HLU & Hinv1).
    assert (HF1 : forall L', lower !! S start = Some L' -> L' = U).
    { intros L' HL'. destruct Hcal as (_ & _ & Hc). apply Hc in HL'.
      rewrite HU in HL'. injection HL' as ->. reflexivity. }
    destruct (IH (S start) st1 st' U ltac:(lia) HF1 Hinv1 Hloop)
      as (F' & HUF & Hinv' & Hrows).
    exists F'. split; [lia|]. split; [exact Hinv'|].
    intros p Lp Up Hp HLp HUp.
    destruct (Nat.eq_dec p start) as [->|Hne].
    + rewrite HL in HLp. rewrite HU in HUp.
      injection HLp as <-. injection HUp as <-. lia.
    + destruct (Hrows p Lp Up ltac:(lia) HLp HUp). lia.
Qed.

End Labels.

Lemma next_limits_of_calendar (lower upper : list nat) (n ll ul : nat) :
  calendar lower upper n ->
  last (drop 1 lower) = Some ll -> last (drop 1 upper) = Some ul ->
  next_limits lower upper (drop 1 lower ++ [ll]) (drop 1 upper ++ [ul]).
Proof.
  intros (Hlen & Hin & Hc) Hll Hul m L U Ln Un HL HU HLn HUn.
  rewrite last_lookup, lookup_drop, length_drop in Hll, Hul.
  apply lookup_app_Some in HLn. destruct HLn as [HLn|[Hm HLn]].
  - rewrite lookup_drop in HLn. apply Hc in HLn. rewrite HU in HLn.
    injection HLn as ->. left. lia.
  - right. rewrite length_drop in Hm.
    pose proof (lookup_lt_Some _ _ _ HL) as Hlt.
    pose proof (lookup_lt_Some _ _ _ Hll) as Hlt'.
    assert (Em : m = (length lower - 1)%nat) by lia. subst m.
    rewrite length_drop, Nat.sub_diag in HLn. injection HLn as <-.
    replace (1 + Init.Nat.pred (length lower - 1))%nat with (length lower - 1)%nat
      in Hll by lia.
    rewrite HL in Hll. injection Hll as <-. split; [reflexivity|].
    apply lookup_app_Some in HUn. destruct HUn as [HUn|[_ HUn]].
    + apply lookup_lt_Some in HUn. rewrite length_drop in HUn. lia.
    + rewrite length_drop, Hlen, Nat.sub_diag in HUn. injection HUn as <-.
      replace (1 + Init.Nat.pred (length upper - 1))%nat with (length lower - 1)%nat
        in Hul by lia.
      rewrite HU in Hul. injection Hul as <-. reflexivity.
Qed.

Lemma np_relabel_lookup (old new : Z) (a : list Z) (i : nat) :
  np_relabel old new a !! i = (fun x => if x =? old then new else x) <$> a !! i.
Proof. unfold np_relabel. apply list_lookup_fmap. Qed.


Lemma calendar_two_by_two : calendar [0; 2]%nat [2; 4]%nat 4.
Proof.
  split; [reflexivity|]. split.
  - intros [|[|m]] L U; simpl; try discriminate; intros [= <-] [= <-]; lia.
  - intros [|[|m]] L; simpl; try discriminate. intros [= <-]. reflexivity.
Qed.



(** ** Months without conditions *)

Lemma recalled_same_when_active (K : Z) (o f o' f' : list Z) (i : nat) :
  recalled_or_same K o f o' f' -> f !! i = Some 0 ->
  f' !! i = Some 0 /\ o' !! i = o !! i.
Proof.
  intros H Hf. destruct (H i) as [[E1 E2]|(E & _)]; [|congruence].
  rewrite E1, E2. auto.
Qed.

Lemma np_count_and_le (m1 m2 : list bool) : np_count (m1 &&& m2) <= np_count m2.
Proof.
  rewrite !np_count_eq. apply inj_le.
  revert m2; induction m1 as [|b m1 IH]; intros [|c m2];
    try (unfold count_true; simpl; lia).
  cbn [np_and zip_with]. rewrite !count_true_cons. specialize (IH m2).
  unfold np_and in IH. destruct b, c; simpl; lia.
Qed.

Section TwoMonths.

Variable cf : config.
Variable fur_return : bool.
Variable J : list (list Z).
Variable T red : list Z.
Variable cond : conditions.
Variable df : dataframe.
Variable lower upper lower_next upper_next : list nat.
Variable n : nat.
Let K := num_of_job_levels cf.

Hypothesis HK : 0 <= K.
Hypothesis Hidx : length (df_index df) = n.

(** What a month leaves for the next: the levels just assigned, for the
    employees who stay. *)
Lemma month_pass_carries (cl : list string) (p : nat) (st st1 : engine_state)
  (Lp L U : nat) :
  lower !! p = Some Lp -> upper !! p = Some L ->
  lower_next !! p = Some L -> upper_next !! p = Some U ->
  (Lp <= L <= U)%nat -> (U <= n)%nat ->
  length (orig st) = n -> length (fur_data st) = n ->
  length (long_assign_column st) = n ->
  np_count (np_in1d (py_slice Lp L (df_index df)) (py_slice L U (df_index df)))
  = Z.of_nat (U - L) ->
  month_pass cf cl fur_return J T red cond df lower upper lower_next upper_next
             n p st = Ok st1 ->
  length (orig st1) = n /\ length (fur_data st1) = n
  /\ length (long_assign_column st1) = n
  /\ (forall i, (L <= i)%nat ->
        long_assign_column st1 !! i = long_assign_column st !! i)
  /\ py_slice L U (orig st1)
     = align_next (py_slice Lp L (df_index df)) (py_slice L U (df_index df))
         (py_slice Lp L (long_assign_column st1))
  /\ py_slice L U (fur_data st1)
     = align_next (py_slice Lp L (df_index df)) (py_slice L U (df_index df))
         (py_slice Lp L (fur_data st1)).
Proof.
  intros HLp HUp HLn HUn HL HU Ho Hf Ha Halign Hpass.
  apply month_pass_inv in Hpass.
  destruct Hpass as (L0 & U0 & Ln & Un & r & E1 & E2 & E3 & E4 & Hbody & Eo & Ef
                     & Ea & _).
  rewrite HLp in E1. rewrite HUp in E2. rewrite HLn in E3. rewrite HUn in E4.
  injection E1 as <-. injection E2 as <-. injection E3 as <-. injection E4 as <-.
  assert (Hla : length (py_slice Lp L (long_assign_column st))
                = length (py_slice Lp L (fur_data st))).
  { rewrite !py_slice_length by lia. reflexivity. }
  destruct (month_body_any _ _ _ _ _ _ _ _ _ _ _ _ _ _ _ _ _ _ HK Hbody Hla)
    as (Hlo & Hlf & _ & [Hlp _] & _).
  rewrite py_slice_length in Hlo, Hlf, Hlp by lia.
  assert (Hsel : forall src : list Z, length src = (L - Lp)%nat ->
             length (align_next (py_slice Lp L (df_index df))
                       (py_slice L U (df_index df)) src) = (U - L)%nat).
  { intros src Hsrc. unfold align_next. rewrite np_select_length.
    - rewrite np_count_eq in Halign. lia.
    - unfold np_in1d. rewrite length_map, py_slice_length by lia. exact Hsrc. }
  assert (Hcopy : forall out src arr arr',
             length arr = n -> length out = (L - Lp)%nat -> length src = (L - Lp)%nat ->
             np_copyto L U (write_view Lp out arr)
               (align_next (py_slice Lp L (df_index df)) (py_slice L U (df_index df))
                  src) = Ok arr' ->
             length arr' = n
             /\ py_slice L U arr'
                = align_next (py_slice Lp L (df_index df))
                    (py_slice L U (df_index df)) src
             /\ py_slice Lp L arr' = out).
  { intros out src arr arr' Harr Hout Hsrc H.
    apply np_copyto_inv in H. destruct H as (new & -> & Hnew & Hsame & _).
    assert (Hin : length (write_view Lp out arr) = n)
      by (rewrite write_view_length; lia).
    rewrite py_slice_length in Hnew, Hsame by lia.
    rewrite Hsame by (apply Hsel; exact Hsrc).
    rewrite Hsame in Hnew by (apply Hsel; exact Hsrc).
    split; [rewrite write_view_length; lia|]. split.
    - apply py_slice_write_view; lia.
    - apply list_eq. intros i. rewrite py_slice_lookup.
      destruct (Nat.ltb_spec i (L - Lp)).
      + rewrite write_view_lookup by lia.
        destruct (Nat.ltb_spec (Lp + i) L); [|lia].
        rewrite write_view_lookup by lia.
        destruct (Nat.ltb_spec (Lp + i) Lp); [lia|].
        destruct (Nat.ltb_spec (Lp + i) (Lp + length out)); [|lia].
        f_equal. lia.
      + symmetry. apply lookup_ge_None. lia. }
  destruct (Hcopy _ _ _ _ Ho Hlo Hlp Eo) as (Ho1 & Eo1 & _).
  destruct (Hcopy _ _ _ _ Hf Hlf Hlf Ef) as (Hf1 & Ef1 & Ef2).
  rewrite Ea. split; [exact Ho1|]. split; [exact Hf1|].
  split; [rewrite write_view_length; lia|]. split.
  - intros i Hi. rewrite write_view_lookup by lia.
    destruct (Nat.ltb_spec i Lp); [reflexivity|].
    destruct (Nat.ltb_spec i (Lp + length (assign_out r))); [lia|reflexivity].
  - rewrite py_slice_write_view by lia. rewrite Ef2. split; assumption.
Qed.

(** What a month without conditions gives the rows that come in active. *)
Lemma month_pass_plain_rows (m : nat) (st1 st2 : engine_state) (L U : nat)
  (row : list Z) (total j : Z) :
  lower !! m = Some L -> upper !! m = Some U -> (L <= U <= n)%nat ->
  length (orig st1) = n -> length (fur_data st1) = n ->
  length (long_assign_column st1) = n ->
  J !! m = Some row -> length row = Z.to_nat K -> T !! m = Some total ->
  (forall i, (L <= i < U)%nat -> long_assign_column st1 !! i = Some 0) ->
  py_in (Z.of_nat m) red = false
  \/ np_count (np_eq (py_slice L U (fur_data st1)) 0) <= total ->
  (forall i y, (L <= i < U)%nat ->
     fur_data st1 !! i = Some 0 -> orig st1 !! i = Some y -> 1 <= y) ->
  0 <= j <= K ->
  (forall k, 1 <= k <= j ->
     np_count (np_eq (py_slice L U (fur_data st1)) 0
               &&& np_eq (py_slice L U (orig st1)) k) <= level_count row k) ->
  month_pass cf [] fur_return J T red cond df lower upper lower_next upper_next
             n m st1 = Ok st2 ->
  forall i y, (L <= i < U)%nat ->
    fur_data st1 !! i = Some 0 -> orig st1 !! i = Some y -> y <= j ->
    exists x, long_assign_column st2 !! i = Some x /\ 1 <= x <= y.
Proof.
  intros HL HU HLU Ho Hf Ha HJ Hrow HT Hzero Hred Hheld Hj Hcap Hpass i y Hi Hf0 Hoy Hyj.
  apply month_pass_inv in Hpass.
  destruct Hpass as (L0 & U0 & Ln & Un & r & E1 & E2 & _ & _ & Hbody & _ & _ & Ea & _).
  rewrite HL in E1. rewrite HU in E2. injection E1 as <-. injection E2 as <-.
  destruct (month_body_plain cf fur_return J T red cond m row total HK HJ Hrow HT
              (py_slice L U (orig st1)) (py_slice L U (long_assign_column st1))
              (py_slice L U (long_count_column st1)) (py_slice L U (fur_data st1))
              (py_slice L U (df_eg df)) (py_slice L U (df_sg df))
              (py_slice L U (repeat 0 n)) (ratio_cond_dict st1) (np_random st1) j)
    as (r' & Hbody' & Hlo & _ & Hla & Hrec & _ & _ & Hrows & _).
  - rewrite !py_slice_length by lia. reflexivity.
  - rewrite !py_slice_length by lia. reflexivity.
  - intros i0 x. rewrite py_slice_lookup.
    destruct (Nat.ltb_spec i0 (U - L)); [|discriminate].
    rewrite Hzero by lia. intros [= <-]. reflexivity.
  - exact Hred.
  - intros i0 y0. rewrite !py_slice_lookup.
    destruct (Nat.ltb_spec i0 (U - L)); [|discriminate].
    apply Hheld. lia.
  - exact Hj.
  - exact Hcap.
  - rewrite Hbody in Hbody'. injection Hbody' as <-.
    rewrite py_slice_length in Hlo, Hla by lia.
    assert (Hfi : py_slice L U (fur_data st1) !! (i - L)%nat = Some 0).
    { rewrite py_slice_lookup. destruct (Nat.ltb_spec (i - L) (U - L)); [|lia].
      replace (L + (i - L))%nat with i by lia. exact Hf0. }
    destruct (recalled_same_when_active _ _ _ _ _ _ Hrec Hfi) as [Hf' Ho'].
    rewrite py_slice_lookup in Ho'.
    destruct (Nat.ltb_spec (i - L) (U - L)); [|lia].
    replace (L + (i - L))%nat with i in Ho' by lia. rewrite Hoy in Ho'.
    destruct (Hrows _ _ Hf' Ho' Hyj) as (x & Hx & Hxy).
    exists x. split; [|exact Hxy].
    rewrite Ea, write_view_lookup by lia.
    destruct (Nat.ltb_spec i L); [lia|].
    destruct (Nat.ltb_spec i (L + length (assign_out r))); [exact Hx|lia].
Qed.

End TwoMonths.

(** C2, counterexample: two employees hold level 1 at the end of month 0
    and the table has one job at level 1 in month 1 ([J[1][1] = 1 > 0]);
    without any condition the second of them is assigned level 2. *)
Lemma nbnf_needs_room :
  exists out g',
    assign_jobs_nbnf_job_changes (plain_config 2) three_by_two_frame
      [0; 3]%nat [3; 6]%nat 6 [[2; 1]; [1; 2]] [3; 3] [] [] 0 [] false []
    = Ok (out, g')
    /\ out_assign out !! 1%nat = Some 1 /\ out_assign out !! 4%nat = Some 2
    /\ out_fur out !! 1%nat = Some 0 /\ out_fur out !! 4%nat = Some 0
    /\ df_index three_by_two_frame !! 1%nat = df_index three_by_two_frame !! 4%nat.
Proof.
  eexists _, _. split; [vm_compute; reflexivity|]. repeat split; reflexivity.
Qed.

(** C2, as the code has it: the orig jobs with which month [p + 1] starts
    are the levels assigned in month [p], for the employees who stay; and
    in a month without conditions in which the furlough for reductions does
    not fire and every level [k <= j] has at least as many jobs as active
    employees coming in at [k], each active employee coming in at a level
    [y <= j] is assigned a level [x] with [1 <= x <= y]. *)
Theorem nbnf_monotone (cf : config) (fur_return : bool) (J : list (list Z))
  (T red : list Z) (cond : conditions) (df : dataframe)
  (lower upper lower_next upper_next : list nat) (n p : nat)
  (st st1 st2 : engine_state) (Lp L U : nat) (row : list Z) (total j : Z) :
  0 <= num_of_job_levels cf -> length (df_index df) = n ->
  lower !! p = Some Lp -> upper !! p = Some L ->
  lower !! S p = Some L -> upper !! S p = Some U ->
  lower_next !! p = Some L -> upper_next !! p = Some U ->
  (Lp <= L <= U)%nat -> (U <= n)%nat ->
  length (orig st) = n -> length (fur_data st) = n ->
  length (long_assign_column st) = n ->
  (forall i, (L <= i < U)%nat -> long_assign_column st !! i = Some 0) ->
  np_count (np_in1d (py_slice Lp L (df_index df)) (py_slice L U (df_index df)))
  = Z.of_nat (U - L) ->
  month_pass cf [] fur_return J T red cond df lower upper lower_next upper_next
             n p st = Ok st1 ->
  month_pass cf [] fur_return J T red cond df lower upper lower_next upper_next
             n (S p) st1 = Ok st2 ->
  J !! S p = Some row -> length row = Z.to_nat (num_of_job_levels cf) ->
  T !! S p = Some total ->
  let held := py_slice L U (orig st1) in
  let fur := py_slice L U (fur_data st1) in
  py_in (Z.of_nat (S p)) red = false \/ np_count (np_eq fur 0) <= total ->
  (forall i y, fur !! i = Some 0 -> held !! i = Some y -> 1 <= y) ->
  0 <= j <= num_of_job_levels cf ->
  (forall k, 1 <= k <= j ->
     np_count (np_eq fur 0 &&& np_eq held k) <= level_count row k) ->
  held = align_next (py_slice Lp L (df_index df)) (py_slice L U (df_index df))
           (py_slice Lp L (long_assign_column st1))
  /\ forall i y, fur !! i = Some 0 -> held !! i = Some y -> y <= j ->
       exists x, py_slice L U (long_assign_column st2) !! i = Some x /\ 1 <= x <= y.
Proof.
  intros HK Hidx HLp HUp HL HU HLn HUn HLU HUn' Ho Hf Ha Hzero Halign Hp Hm
    HJ Hrow HT held fur Hred Hheld Hj Hcap.
  destruct (month_pass_carries cf fur_return J T red cond df lower upper lower_next
              upper_next n HK Hidx [] p st st1 Lp L U HLp HUp HLn HUn HLU HUn'
              Ho Hf Ha Halign Hp)
    as (Ho1 & Hf1 & Ha1 & Hsame & Hcarry & _).
  split; [exact Hcarry|].
  intros i y Hfi Hhi Hyj.
  assert (Hi : (i < U - L)%nat).
  { unfold held in Hhi. rewrite py_slice_lookup in Hhi.
    destruct (Nat.ltb_spec i (U - L)); [assumption|discriminate]. }
  destruct (month_pass_plain_rows cf fur_return J T red cond df lower upper
              lower_next upper_next n HK Hidx (S p) st1 st2 L U row total j
              HL HU ltac:(lia) Ho1 Hf1 Ha1 HJ Hrow HT) with (i := (L + i)%nat) (y := y)
    as (x & Hx & Hxy).
  - intros i0 Hi0. rewrite Hsame by lia. apply Hzero. exact Hi0.
  - exact Hred.
  - intros i0 y0 Hi0 Hf0 Ho0. apply (Hheld (i0 - L)%nat y0).
    + unfold fur. rewrite py_slice_lookup.
      destruct (Nat.ltb_spec (i0 - L) (U - L)); [|lia].
      replace (L + (i0 - L))%nat with i0 by lia. exact Hf0.
    + unfold held. rewrite py_slice_lookup.
      destruct (Nat.ltb_spec (i0 - L) (U - L)); [|lia].
      replace (L + (i0 - L))%nat with i0 by lia. exact Ho0.
  - exact Hj.
  - exact Hcap.
  - exact Hm.
  - lia.
  - unfold fur in Hfi. rewrite py_slice_lookup in Hfi.
    destruct (Nat.ltb_spec i (U - L)); [exact Hfi|lia].
  - unfold held in Hhi. rewrite py_slice_lookup in Hhi.
    destruct (Nat.ltb_spec i (U - L)); [exact Hhi|lia].
  - exact Hyj.
  - exists x. split; [|exact Hxy]. rewrite py_slice_lookup.
    destruct (Nat.ltb_spec i (U - L)); [exact Hx|lia].
Qed.

(** Three employees, two jobs at level 1 and one at level 2 in both
    months: everybody keeps the level held. *)
Lemma nbnf_monotone_example :
  let st1 := {| orig := [1; 1; 2; 1; 1; 2]; fur_data := [0; 0; 0; 0; 0; 0];
                long_assign_column := [1; 1; 2; 0; 0; 0];
                long_count_column := [2; 2; 1; 0; 0; 0];
                ratio_cond_dict := None; np_random := [] |} in
  let st2 := {| orig := [1; 1; 2; 1; 1; 2]; fur_data := [0; 0; 0; 0; 0; 0];
                long_assign_column := [1; 1; 2; 1; 1; 2];
                long_count_column := [2; 2; 1; 2; 2; 1];
                ratio_cond_dict := None; np_random := [] |} in
  py_slice 3 6 (orig st1)
  = align_next (py_slice 0 3 (df_index three_by_two_frame))
      (py_slice 3 6 (df_index three_by_two_frame))
      (py_slice 0 3 (long_assign_column st1))
  /\ forall i y,
       py_slice 3 6 (fur_data st1) !! i = Some 0 ->
       py_slice 3 6 (orig st1) !! i = Some y -> y <= 2 ->
       exists x, py_slice 3 6 (long_assign_column st2) !! i = Some x /\ 1 <= x <= y.
Proof.
  intros st1 st2.
  refine (nbnf_monotone (plain_config 2) false [[2; 1]; [2; 1]] [3; 3] []
            no_conditions three_by_two_frame [0; 3]%nat [3; 6]%nat [3; 3]%nat
            [6; 6]%nat 6 0 (initial_state three_by_two_frame 6 []) st1 st2
            0 3 6 [2; 1] 3 2 _ _ _ _ _ _ _ _ _ _ _ _ _ _ _ _ _ _ _ _ _ _ _ _);
    try reflexivity; try (simpl; lia).
  - intros i Hi. do 6 (destruct i as [|i]; [simpl; first [reflexivity|lia]|]). lia.
  - intros i y.
    do 3 (destruct i as [|i]; [simpl; intros _ [= <-]; lia|]). discriminate.
  - intros k Hk. assert (k = 1 \/ k = 2) as [->| ->] by lia; vm_compute; discriminate.
Defined.

(** ** A run without conditions and furloughs *)

Lemma count_true_all (m : list bool) :
  Forall (fun b => b = true) m -> count_true m = length m.
Proof.
  induction 1 as [|b m -> _ IH]; [reflexivity|].
  rewrite count_true_cons, IH. reflexivity.
Qed.

Lemma np_count_nonneg (m : list bool) : 0 <= np_count m.
Proof. rewrite np_count_eq. lia. Qed.

Lemma next_of_drop (l : list nat) (x : nat) :
  last (drop 1 l) = Some x -> next_of l (drop 1 l ++ [x]).
Proof.
  intros Hl. rewrite last_lookup, lookup_drop, length_drop in Hl.
  pose proof (lookup_lt_Some _ _ _ Hl) as Hlt. split.
  - intros m Hm. rewrite lookup_app_l by (rewrite length_drop; lia).
    apply lookup_drop.
  - intros m Hm. rewrite lookup_app_r by (rewrite length_drop; lia).
    rewrite length_drop. replace (m - (length l - 1))%nat with 0%nat by lia.
    replace (1 + Init.Nat.pred (length l - 1))%nat with m in Hl by lia.
    rewrite Hl. reflexivity.
Qed.

Section PlainMonths.

Variable cf : config.
Variable fur_return : bool.
Variable J : list (list Z).
Variable T red : list Z.
Variable cond : conditions.
Let K := num_of_job_levels cf.

Hypothesis HK : 0 <= K.

(** A month in which every row comes in active, with a real level, and
    the holders of each level fit its count. *)
Lemma month_body_all_active (month : nat) (row : list Z) (total : Z)
  (o a c f eg sg np : list Z) (dict : option (gmap Z pyfloat)) (g : rng) :
  J !! month = Some row -> length row = Z.to_nat K -> T !! month = Some total ->
  py_in (Z.of_nat month) red = false ->
  length o = length f -> length a = length o ->
  (forall i x, a !! i = Some x -> x = 0) ->
  (forall i x, f !! i = Some x -> x = 0) ->
  (forall i y, o !! i = Some y -> 1 <= y <= K) ->
  (forall k, 1 <= k <= K -> np_count (np_eq o k) <= level_count row k) ->
  exists r,
    month_body cf [] fur_return J T red cond month o a c f eg sg np dict g = Ok r
    /\ orig_out r = o /\ fur_out r = f
    /\ length (assign_out r) = length o /\ length (count_out r) = length c
    /\ (forall i y, o !! i = Some y ->
          exists x, assign_out r !! i = Some x /\ 1 <= x <= y)
    /\ (forall k, 1 <= k <= K ->
          np_count (np_eq (assign_out r) k) <= level_count row k).
Proof.
  intros HJ Hrow HT Hred Hlen Hla Hzero Hf Ho Hcap.
  destruct (month_body_plain cf fur_return J T red cond month row total HK HJ Hrow HT
              o a c f eg sg np dict g K Hlen Hla Hzero (or_introl Hred))
    as (r & Hbody & Hlo & Hlf & Hlas & Hrec & Hfo & _ & Hrows & Hfin).
  - intros i y _ Hy. apply Ho in Hy. lia.
  - fold K. lia.
  - intros k Hk. etransitivity; [apply np_count_and_le|]. apply Hcap. exact Hk.
  - destruct (Hfin eq_refl) as [_ Hwithin].
    assert (Hsame : forall i, fur_carried r !! i = f !! i /\ orig_out r !! i = o !! i).
    { intros i. destruct (f !! i) as [x|] eqn:E.
      - pose proof (Hf _ _ E) as ->.
        destruct (recalled_same_when_active _ _ _ _ _ _ Hrec E) as [H1 H2].
        split; assumption.
      - pose proof (proj1 (lookup_ge_None _ _) E) as Hge. split.
        + apply lookup_ge_None. lia.
        + rewrite (proj2 (lookup_ge_None o i)) by lia. apply lookup_ge_None. lia. }
    assert (Eo : orig_out r = o) by (apply list_eq; intros i; apply Hsame).
    assert (Ef : fur_carried r = f) by (apply list_eq; intros i; apply Hsame).
    assert (Hall : forall i y, o !! i = Some y ->
               exists x, assign_out r !! i = Some x /\ 1 <= x <= y).
    { intros i y Hy. pose proof (Ho _ _ Hy) as Hr.
      destruct (lookup_lt_is_Some_2 f i) as [z Hz].
      { rewrite <- Hlen. eapply lookup_lt_Some; eauto. }
      pose proof (Hf _ _ Hz) as ->.
      apply (Hrows i y); [rewrite Ef; exact Hz|rewrite Eo; exact Hy|fold K; lia]. }
    exists r. split; [exact Hbody|]. split; [exact Eo|]. split.
    + rewrite Hfo, Ef. apply list_eq. intros i.
      rewrite mark_fur_range_lookup by congruence.
      destruct (o !! i) as [y|] eqn:Ey.
      * destruct (Hall _ _ Ey) as (x & -> & Hx). pose proof (Ho _ _ Ey) as Hy.
        destruct (lookup_lt_is_Some_2 f i) as [z Hz].
        { rewrite <- Hlen. eapply lookup_lt_Some; eauto. }
        rewrite Hz. pose proof (Hf _ _ Hz) as ->. fold K.
        destruct (0 <? x) eqn:E1; [|lia]. destruct (x <=? K) eqn:E2; [|lia].
        reflexivity.
      * pose proof (proj1 (lookup_ge_None _ _) Ey) as Hge.
        rewrite (proj2 (lookup_ge_None (assign_out r) i)) by lia.
        symmetry. apply lookup_ge_None. lia.
    + split; [exact Hlas|]. split.
      * assert (Hlaf : length a = length f) by lia.
        destruct (month_body_any _ _ _ _ _ _ _ _ _ _ _ _ _ _ _ _ _ _ HK Hbody Hlaf)
          as (_ & _ & Hc & _). exact Hc.
      * split; [exact Hall|]. intros k Hk. apply Hwithin. lia.
Qed.

Variable df : dataframe.
Variable lower upper lower_next upper_next : list nat.
Variable n : nat.
Variable row : list Z.

Hypothesis Hcal : calendar lower upper n.
Hypothesis Hlow : next_of lower lower_next.
Hypothesis Hupp : next_of upper upper_next.
Hypothesis Hidx : length (df_index df) = n.
Hypothesis HJ : forall m, (m < length upper)%nat -> J !! m = Some row.
Hypothesis Hrow : length row = Z.to_nat K.
Hypothesis HT : forall m, (m < length upper)%nat -> is_Some (T !! m).
Hypothesis Hred : red = [].
Hypothesis Halign :
  forall m L U L' U',
    lower !! m = Some L -> upper !! m = Some U ->
    lower !! S m = Some L' -> upper !! S m = Some U' ->
    np_count (np_in1d (py_slice L U (df_index df)) (py_slice L' U' (df_index df)))
    = Z.of_nat (U' - L').

Lemma month_pass_plain (m first : nat) (st : engine_state) (L U : nat) :
  lower !! m = Some L -> upper !! m = Some U -> (first <= L)%nat ->
  plain_inv K row n first L U st ->
  exists st',
    month_pass cf [] fur_return J T red cond df lower upper lower_next upper_next
               n m st = Ok st'
    /\ forall U', (upper !! S m = Some U' \/ (S m = length upper /\ U' = U)) ->
         plain_inv K row n first U U' st'.
Proof.
  intros HL HU Hfirst (Ho & Hf & Ha & Hc & Hzero & Hgood & Hact & Hcap).
  destruct Hcal as (Hlen & Hin & Hcont).
  pose proof (Hin _ _ _ HL HU) as HLU.
  pose proof (lookup_lt_Some _ _ _ HU) as Hm.
  destruct (HT m Hm) as [total Htot].
  destruct (month_body_all_active m row total
              (py_slice L U (orig st)) (py_slice L U (long_assign_column st))
              (py_slice L U (long_count_column st)) (py_slice L U (fur_data st))
              (py_slice L U (df_eg df)) (py_slice L U (df_sg df))
              (py_slice L U (repeat 0 n)) (ratio_cond_dict st) (np_random st)
              (HJ m Hm) Hrow Htot)
    as (r & Hbody & Eo & Ef & Hla & Hlc & Hrows & Hwithin).
  { rewrite Hred. reflexivity. }
  { rewrite !py_slice_length by lia. reflexivity. }
  { rewrite !py_slice_length by lia. reflexivity. }
  { intros i x. rewrite py_slice_lookup.
    destruct (Nat.ltb_spec i (U - L)); [|discriminate].
    rewrite Hzero by lia. intros [= <-]. reflexivity. }
  { intros i x. rewrite py_slice_lookup.
    destruct (Nat.ltb_spec i (U - L)); [|discriminate].
    destruct (Hact (L + i)%nat ltac:(lia)) as [-> _]. intros [= <-]. reflexivity. }
  { intros i y. rewrite py_slice_lookup.
    destruct (Nat.ltb_spec i (U - L)); [|discriminate].
    destruct (Hact (L + i)%nat ltac:(lia)) as [_ (y0 & -> & Hy0)].
    intros [= <-]. exact Hy0. }
  { exact Hcap. }
  rewrite py_slice_length in Hla, Hlc by lia.
  assert (Hlo : length (orig_out r) = (U - L)%nat)
    by (rewrite Eo; apply py_slice_length; lia).
  assert (Hlf : length (fur_out r) = (U - L)%nat)
    by (rewrite Ef; apply py_slice_length; lia).
  (* the rows of the month, read in the long arrays *)
  assert (Hassigned : forall i, (L <= i < U)%nat ->
             exists x y, assign_out r !! (i - L)%nat = Some x
                         /\ orig st !! i = Some y /\ 1 <= x <= y /\ y <= K).
  { intros i Hi. destruct (Hact i Hi) as [_ (y & Hy & Hyr)].
    destruct (Hrows (i - L)%nat y) as (x & Hx & Hxy).
    - rewrite py_slice_lookup. destruct (Nat.ltb_spec (i - L) (U - L)); [|lia].
      replace (L + (i - L))%nat with i by lia. exact Hy.
    - exists x, y. split; [exact Hx|]. split; [exact Hy|]. lia. }
  assert (Hlevels : forall x, x ∈ assign_out r -> 1 <= x <= K).
  { intros x Hx. apply list_elem_of_lookup in Hx. destruct Hx as [i Hi].
    pose proof (lookup_lt_Some _ _ _ Hi) as Hlt.
    destruct (Hassigned (L + i)%nat ltac:(lia)) as (x' & y & Hx' & _ & Hxy & Hy).
    replace (L + i - L)%nat with i in Hx' by lia. rewrite Hi in Hx'.
    injection Hx' as <-. lia. }
  assert (Hfur0 : forall x, x ∈ fur_out r -> x = 0).
  { intros x Hx. apply list_elem_of_lookup in Hx. destruct Hx as [i Hi].
    rewrite Ef, py_slice_lookup in Hi.
    destruct (Nat.ltb_spec i (U - L)); [|discriminate].
    destruct (Hact (L + i)%nat ltac:(lia)) as [E _]. rewrite E in Hi.
    injection Hi as <-. reflexivity. }
  (* the limits of the next month *)
  assert (Hnext : exists Ln Un,
             lower_next !! m = Some Ln /\ upper_next !! m = Some Un
             /\ (Ln <= Un <= n)%nat
             /\ count_true (np_in1d (py_slice L U (df_index df))
                              (py_slice Ln Un (df_index df))) = (Un - Ln)%nat
             /\ ((Ln = U /\ upper !! S m = Some Un /\ (S m < length upper)%nat)
                 \/ (Ln = L /\ Un = U /\ S m = length upper))).
  { destruct (Nat.lt_ge_cases (S m) (length upper)) as [Hmid|Hlast].
    - destruct (lookup_lt_is_Some_2 upper (S m) Hmid) as [U' HU'].
      destruct (lookup_lt_is_Some_2 lower (S m) ltac:(lia)) as [L' HL'].
      pose proof (Hcont _ _ HL') as E. rewrite HU in E. injection E as <-.
      exists U, U'. pose proof (Hin _ _ _ HL' HU').
      split; [rewrite (proj1 Hlow) by lia; exact HL'|].
      split; [rewrite (proj1 Hupp) by lia; exact HU'|].
      split; [lia|]. split.
      + pose proof (Halign _ _ _ _ _ HL HU HL' HU') as E.
        rewrite np_count_eq in E. lia.
      + left. auto.
    - exists L, U.
      split; [rewrite (proj2 Hlow) by lia; exact HL|].
      split; [rewrite (proj2 Hupp) by lia; exact HU|].
      split; [lia|]. split.
      + rewrite count_true_all by apply np_in1d_self.
        unfold np_in1d. rewrite length_map. apply py_slice_length. lia.
      + right. split; [reflexivity|]. split; [reflexivity|lia]. }
  destruct Hnext as (Ln & Un & HLn & HUn & HLnUn & Hcount & Hcase).
  assert (Hsel : forall src : list Z, length src = (U - L)%nat ->
             length (align_next (py_slice L U (df_index df))
                       (py_slice Ln Un (df_index df)) src) = (Un - Ln)%nat).
  { intros src Hsrc. unfold align_next. rewrite np_select_length; [exact Hcount|].
    unfold np_in1d. rewrite length_map, py_slice_length by lia. exact Hsrc. }
  set (idx := py_slice L U (df_index df)) in *.
  set (idx' := py_slice Ln Un (df_index df)) in *.
  set (o1 := write_view L (orig_out r) (orig st)).
  set (f1 := write_view L (fur_out r) (fur_data st)).
  assert (Ho1 : length o1 = n) by (unfold o1; rewrite write_view_length; lia).
  assert (Hf1 : length f1 = n) by (unfold f1; rewrite write_view_length; lia).
  exists {| orig := write_view Ln (align_next idx idx' (assign_out r)) o1;
            fur_data := write_view Ln (align_next idx idx' (fur_out r)) f1;
            long_assign_column := write_view L (assign_out r) (long_assign_column st);
            long_count_column := write_view L (count_out r) (long_count_column st);
            ratio_cond_dict := dict_out r; np_random := rng_out r |}.
  split.
  { unfold month_pass, py_index. rewrite HL, HU, HLn, HUn. cbn [bind].
    rewrite Hbody. cbn [bind]. fold idx idx' o1 f1.
    rewrite (np_copyto_same Ln Un o1)
      by (rewrite Hsel, py_slice_length by lia; reflexivity).
    cbn [bind].
    rewrite (np_copyto_same Ln Un f1)
      by (rewrite Hsel, py_slice_length by lia; reflexivity).
    reflexivity. }
  intros U' HU'. unfold plain_inv. cbn [orig fur_data long_assign_column long_count_column].
  pose proof (Hsel _ Hla) as Hsa. pose proof (Hsel _ Hlf) as Hsf.
  rewrite !write_view_length by lia.
  repeat (split; [assumption|]).
  (* rows of the old arrays seen through the two writes *)
  assert (Ho_old : forall i, (i < L)%nat ->
             write_view Ln (align_next idx idx' (assign_out r)) o1 !! i = orig st !! i).
  { intros i Hi. rewrite write_view_lookup by lia.
    destruct (Nat.ltb_spec i Ln); [|destruct Hcase as [(-> & _)|(-> & _)]; lia].
    unfold o1. rewrite write_view_lookup by lia.
    destruct (Nat.ltb_spec i L); [reflexivity|lia]. }
  assert (Hf_old : forall i, (i < L)%nat ->
             write_view Ln (align_next idx idx' (fur_out r)) f1 !! i = fur_data st !! i).
  { intros i Hi. rewrite write_view_lookup by lia.
    destruct (Nat.ltb_spec i Ln); [|destruct Hcase as [(-> & _)|(-> & _)]; lia].
    unfold f1. rewrite write_view_lookup by lia.
    destruct (Nat.ltb_spec i L); [reflexivity|lia]. }
  assert (Hf_new : forall i, (L <= i < U)%nat ->
             write_view Ln (align_next idx idx' (fur_out r)) f1 !! i = Some 0).
  { intros i Hi. rewrite write_view_lookup by lia.
    assert (Hin1 : f1 !! i = Some 0).
    { unfold f1. rewrite write_view_lookup by lia.
      destruct (Nat.ltb_spec i L); [lia|].
      destruct (Nat.ltb_spec i (L + length (fur_out r))); [|lia].
      destruct (lookup_lt_is_Some_2 (fur_out r) (i - L)) as [z Hz]; [lia|].
      rewrite Hz. f_equal. apply Hfur0. eapply list_elem_of_lookup_2; eauto. }
    destruct (Nat.ltb_spec i Ln); [exact Hin1|].
    destruct (Nat.ltb_spec i (Ln + length (align_next idx idx' (fur_out r))));
      [|exact Hin1].
    destruct (lookup_lt_is_Some_2 (align_next idx idx' (fur_out r)) (i - Ln))
      as [z Hz]; [lia|].
    rewrite Hz. f_equal. apply Hfur0. eapply np_select_subset.
    eapply list_elem_of_lookup_2. exact Hz. }
  split.
  { intros i Hi. rewrite write_view_lookup by lia.
    destruct (Nat.ltb_spec i L); [lia|].
    destruct (Nat.ltb_spec i (L + length (assign_out r))); [lia|].
    apply Hzero. lia. }
  split.
  { intros i Hi. destruct (Nat.lt_ge_cases i L) as [Hold|Hnew].
    - destruct (Hgood i ltac:(lia)) as (x & y & Hx & Hy & Hxy & HyK & Hf0).
      exists x, y. rewrite Ho_old, Hf_old by lia.
      rewrite write_view_lookup by lia.
      destruct (Nat.ltb_spec i L); [|lia]. auto.
    - destruct (Hassigned i ltac:(lia)) as (x & y & Hx & Hy & Hxy & HyK).
      assert (Ha_new : write_view L (assign_out r) (long_assign_column st) !! i
                       = Some x).
      { rewrite write_view_lookup by lia.
        destruct (Nat.ltb_spec i L); [lia|].
        destruct (Nat.ltb_spec i (L + length (assign_out r))); [exact Hx|lia]. }
      destruct Hcase as [(-> & _ & _)|(-> & -> & _)].
      + exists x, y. rewrite Ha_new, Hf_new by lia.
        rewrite write_view_lookup by lia.
        destruct (Nat.ltb_spec i U); [|lia].
        unfold o1. rewrite write_view_lookup by lia.
        destruct (Nat.ltb_spec i L); [lia|].
        destruct (Nat.ltb_spec i (L + length (orig_out r))); [|lia].
        rewrite Eo, py_slice_lookup.
        destruct (Nat.ltb_spec (i - L) (U - L)); [|lia].
        replace (L + (i - L))%nat with i by lia. auto.
      + exists x, x. rewrite Ha_new, Hf_new by lia.
        rewrite write_view_lookup by lia.
        destruct (Nat.ltb_spec i L); [lia|].
        destruct (Nat.ltb_spec i (L + length (align_next idx idx' (assign_out r))));
          [|lia].
        unfold idx, idx'. rewrite align_next_self
          by (rewrite py_slice_length by lia; exact Hla).
        rewrite Hx. repeat split; auto; lia. }
  destruct HU' as [HU'|[Hlast ->]].
  - destruct Hcase as [(-> & HUn' & _)|(_ & _ & Hl)];
      [|apply lookup_lt_Some in HU'; lia].
    rewrite HUn' in HU'. injection HU' as <-. split.
    + intros i Hi. split.
      * rewrite write_view_lookup by lia.
        destruct (Nat.ltb_spec i U); [lia|].
        destruct (Nat.ltb_spec i (U + length (align_next idx idx' (fur_out r))));
          [|lia].
        destruct (lookup_lt_is_Some_2 (align_next idx idx' (fur_out r)) (i - U))
          as [z Hz]; [lia|].
        rewrite Hz. f_equal. apply Hfur0. eapply np_select_subset.
        eapply list_elem_of_lookup_2. exact Hz.
      * rewrite write_view_lookup by lia.
        destruct (Nat.ltb_spec i U); [lia|].
        destruct (Nat.ltb_spec i (U + length (align_next idx idx' (assign_out r))));
          [|lia].
        destruct (lookup_lt_is_Some_2 (align_next idx idx' (assign_out r)) (i - U))
          as [z Hz]; [lia|].
        exists z. split; [exact Hz|]. apply Hlevels. eapply np_select_subset.
        eapply list_elem_of_lookup_2. exact Hz.
    + intros k Hk. rewrite py_slice_write_view by lia.
      etransitivity; [|apply (Hwithin k Hk)].
      rewrite !np_count_eq. apply inj_le. apply np_select_count.
  - split; [intros i Hi; lia|].
    intros k Hk. unfold py_slice. rewrite Nat.sub_diag, take_0.
    etransitivity; [|apply (Hwithin k Hk)]. apply np_count_nonneg.
Qed.

Lemma month_loop_plain (first : nat) :
  forall (cnt start : nat) (st : engine_state) (L U : nat),
    (start + cnt = length upper)%nat ->
    (cnt <> 0%nat -> lower !! start = Some L /\ upper !! start = Some U) ->
    (first <= L)%nat ->
    plain_inv K row n first L U st ->
    exists st' F,
      month_loop cf [] fur_return J T red cond df lower upper lower_next upper_next
                 n (seq start cnt) st = Ok st'
      /\ (L <= F)%nat
      /\ (forall i, (first <= i < F)%nat ->
            exists x y, long_assign_column st' !! i = Some x /\ orig st' !! i = Some y
                        /\ 1 <= x <= y /\ y <= K /\ fur_data st' !! i = Some 0)
      /\ forall p Lp Up, (start <= p < start + cnt)%nat ->
           lower !! p = Some Lp -> upper !! p = Some Up -> (L <= Lp /\ Up <= F)%nat.
Proof.
  induction cnt as [|cnt IH]; intros start st L U Hsum Hlim Hfirst Hinv.
  - exists st, L. cbn [seq month_loop]. split; [reflexivity|]. split; [lia|].
    split; [|intros; lia].
    destruct Hinv as (_ & _ & _ & _ & _ & Hgood & _). exact Hgood.
  - destruct (Hlim ltac:(lia)) as [HL HU].
    destruct (month_pass_plain start first st L U HL HU Hfirst Hinv)
      as (st1 & Hpass & Hnext).
    destruct Hcal as (Hlen & Hin & Hcont).
    pose proof (Hin _ _ _ HL HU) as HLU.
    cbn [seq month_loop]. rewrite Hpass. cbn [bind].
    destruct (Nat.eq_dec cnt 0%nat) as [->|Hc].
    + assert (Hlast : S start = length upper) by lia.
      assert (Hsum' : (S start + 0 = length upper)%nat) by lia.
      assert (Hlim' : 0%nat <> 0%nat ->
                lower !! S start = Some U /\ upper !! S start = Some U) by lia.
      assert (Hfirst' : (first <= U)%nat) by lia.
      destruct (IH (S start) st1 U U Hsum' Hlim' Hfirst'
                  (Hnext U (or_intror (conj Hlast eq_refl))))
        as (st' & F & Hloop & HF & Hgood & _).
      exists st', F. split; [exact Hloop|]. split; [lia|]. split; [exact Hgood|].
      intros p Lp Up Hp HLp HUp. assert (p = start) as -> by lia.
      rewrite HL in HLp. rewrite HU in HUp.
      injection HLp as <-. injection HUp as <-. lia.
    + destruct (lookup_lt_is_Some_2 upper (S start) ltac:(lia)) as [U' HU'].
      destruct (lookup_lt_is_Some_2 lower (S start) ltac:(lia)) as [L' HL'].
      pose proof (Hcont _ _ HL') as E. rewrite HU in E. injection E as <-.
      assert (Hsum' : (S start + cnt = length upper)%nat) by lia.
      assert (Hfirst' : (first <= U)%nat) by lia.
      destruct (IH (S start) st1 U U' Hsum' (fun _ => conj HL' HU') Hfirst'
                  (Hnext U' (or_introl HU')))
        as (st' & F & Hloop & HF & Hgood & Hcover).
      exists st', F. split; [exact Hloop|]. split; [lia|]. split; [exact Hgood|].
      intros p Lp Up Hp HLp HUp.
      destruct (Nat.eq_dec p start) as [->|Hne].
      * rewrite HL in HLp. rewrite HU in HUp.
        injection HLp as <-. injection HUp as <-. lia.
      * destruct (Hcover p Lp Up ltac:(lia) HLp HUp). lia.
Qed.

End PlainMonths.

Lemma prepare_plain (cf : config) (job_change_months : list Z) :
  exists cond, prepare cf [] false job_change_months = Ok cond.
Proof. eexists. reflexivity. Qed.

(** C9, counterexample: one job at each of two levels in every month, no
    condition, nobody furloughed, start month 0. The holder of level 1
    leaves after month 0 and the holder of level 2 moves up in month 1,
    where the orig job is 2 both in the input and in the output. *)
Lemma round_trip_broken_by_retirement :
  exists out g',
    assign_jobs_nbnf_job_changes (plain_config 2) retirement_frame
      [0; 2; 3]%nat [2; 3; 4]%nat 4 [[1; 1]; [1; 1]; [1; 1]] [2; 2; 2] [] [] 0 []
      false [] = Ok (out, g')
    /\ out_assign out !! 2%nat = Some 1
    /\ out_orig out !! 2%nat = Some 2
    /\ df_orig_job retirement_frame !! 2%nat = Some 2.
Proof.
  eexists _, _. split; [vm_compute; reflexivity|]. repeat split; reflexivity.
Qed.

(** C9, as the code has it: with an empty condition list, no reduction
    months, no recall, no delayed implementation, the same counts [row] in
    every month, and a first month in which nobody is furloughed and the
    holders of each level fit its count, the engine returns, and in every
    processed month every employee is active and is assigned a real level
    no worse than the orig job of that month (the level carried over from
    the month before). Equality can fail: a level freed by an employee who
    left is taken by the next one. *)
Theorem assigned_never_worse_than_orig (cf : config) (df : dataframe)
  (lower upper : list nat) (n : nat) (J : list (list Z)) (T : list Z)
  (job_change_months : list Z) (start_month : nat) (g : rng) (row : list Z) :
  delayed_implementation cf = false ->
  0 <= num_of_job_levels cf ->
  calendar lower upper n -> (2 <= length upper)%nat ->
  (start_month < length upper)%nat ->
  length (df_orig_job df) = n -> length (df_fur df) = n -> length (df_index df) = n ->
  (forall m, (m < length upper)%nat -> J !! m = Some row) ->
  length row = Z.to_nat (num_of_job_levels cf) ->
  (forall m, (m < length upper)%nat -> is_Some (T !! m)) ->
  (forall m L U L' U',
     lower !! m = Some L -> upper !! m = Some U ->
     lower !! S m = Some L' -> upper !! S m = Some U' ->
     np_count (np_in1d (py_slice L U (df_index df)) (py_slice L' U' (df_index df)))
     = Z.of_nat (U' - L')) ->
  (forall L U, lower !! start_month = Some L -> upper !! start_month = Some U ->
     (forall i, (L <= i < U)%nat ->
        df_fur df !! i = Some 0
        /\ exists y, df_orig_job df !! i = Some y /\ 1 <= y <= num_of_job_levels cf)
     /\ forall k, 1 <= k <= num_of_job_levels cf ->
          np_count (np_eq (py_slice L U (df_orig_job df)) k) <= level_count row k) ->
  exists out g',
    assign_jobs_nbnf_job_changes cf df lower upper n J T job_change_months []
      start_month [] false g = Ok (out, g')
    /\ forall m L U i,
         (start_month <= m)%nat -> lower !! m = Some L -> upper !! m = Some U ->
         (L <= i < U)%nat ->
         exists x y, out_assign out !! i = Some x /\ out_orig out !! i = Some y
                     /\ 1 <= x <= y /\ y <= num_of_job_levels cf
                     /\ out_fur out !! i = Some 0.
Proof.
  intros Hdel HK Hcal Hmonths Hsm Hlo Hlf Hli HJ Hrow HT Halign Hstart.
  pose proof Hcal as (Hlen & Hin & Hcont).
  unfold assign_jobs_nbnf_job_changes, py_last.
  destruct (lookup_lt_is_Some_2 (drop 1 lower) (Init.Nat.pred (length (drop 1 lower))))
    as [ll Hll]; [rewrite length_drop; lia|].
  destruct (lookup_lt_is_Some_2 (drop 1 upper) (Init.Nat.pred (length (drop 1 upper))))
    as [ul Hul]; [rewrite length_drop; lia|].
  rewrite <- last_lookup in Hll, Hul. rewrite Hll, Hul. cbn [bind].
  rewrite Hdel. cbn [bind].
  destruct (prepare_plain cf job_change_months) as [cond ->]. cbn [bind].
  set (st0 := {| orig := df_orig_job df; fur_data := df_fur df;
                 long_assign_column := repeat 0 n;
                 long_count_column := repeat 0 n;
                 ratio_cond_dict := None; np_random := g |}).
  destruct (lookup_lt_is_Some_2 upper start_month Hsm) as [U0 HU0].
  destruct (lookup_lt_is_Some_2 lower start_month ltac:(lia)) as [L0 HL0].
  assert (Hinv : plain_inv (num_of_job_levels cf) row n L0 L0 U0 st0).
  { unfold plain_inv. cbn. rewrite !repeat_length.
    repeat (split; [first [assumption|reflexivity]|]).
    split; [intros i Hi; apply repeat_lookup; lia|].
    split; [intros i Hi; lia|].
    exact (Hstart L0 U0 HL0 HU0). }
  assert (Hsum : (start_month + (length upper - start_month) = length upper)%nat)
    by lia.
  destruct (month_loop_plain cf false J T [] cond HK df lower upper
              (drop 1 lower ++ [ll]) (drop 1 upper ++ [ul]) n row Hcal
              (next_of_drop _ _ Hll) (next_of_drop _ _ Hul) Hli HJ Hrow HT eq_refl
              Halign L0 (length upper - start_month) start_month st0 L0 U0 Hsum
              (fun _ => conj HL0 HU0) (le_n _) Hinv)
    as (final & F & -> & _ & Hgood & Hcover).
  cbn [bind]. eexists _, _. split; [reflexivity|].
  intros m L U i Hm HL HU Hi. cbn [out_assign out_orig out_fur].
  pose proof (lookup_lt_Some _ _ _ HU) as Hmlt.
  destruct (Hcover m L U ltac:(lia) HL HU) as [H1 H2].
  destruct (Hgood i ltac:(lia)) as (x & y & Hx & Hy & Hxy & HyK & Hf0).
  exists x, y. rewrite !np_relabel_lookup, Hx, Hy. cbn.
  destruct (x =? 0) eqn:E1; [lia|].
  destruct (y =? num_of_job_levels cf + 1) eqn:E2; [lia|].
  auto.
Qed.

(** The run of the counterexample: nobody ends a month worse than the
    orig job of that month. *)
Lemma assigned_never_worse_example :
  exists out g',
    assign_jobs_nbnf_job_changes (plain_config 2) retirement_frame
      [0; 2; 3]%nat [2; 3; 4]%nat 4 [[1; 1]; [1; 1]; [1; 1]] [2; 2; 2] [] []
      0 [] false [] = Ok (out, g')
    /\ forall m L U i,
         (0 <= m)%nat -> [0; 2; 3]%nat !! m = Some L -> [2; 3; 4]%nat !! m = Some U ->
         (L <= i < U)%nat ->
         exists x y, out_assign out !! i = Some x /\ out_orig out !! i = Some y
                     /\ 1 <= x <= y /\ y <= num_of_job_levels (plain_config 2)
                     /\ out_fur out !! i = Some 0.
Proof.
  apply (assigned_never_worse_than_orig (plain_config 2) retirement_frame
           [0; 2; 3]%nat [2; 3; 4]%nat 4 [[1; 1]; [1; 1]; [1; 1]] [2; 2; 2] [] 0 []
           [1; 1]).
  - reflexivity.
  - simpl. lia.
  - split; [reflexivity|]. split.
    + intros [|[|[|m]]] L U; simpl; try discriminate; intros [= <-] [= <-]; lia.
    + intros [|[|[|m]]] L; simpl; try discriminate; intros [= <-]; reflexivity.
  - simpl. lia.
  - simpl. lia.
  - reflexivity.
  - reflexivity.
  - reflexivity.
  - intros [|[|[|m]]]; simpl; try reflexivity; lia.
  - reflexivity.
  - intros [|[|[|m]]]; simpl; eauto; lia.
  - intros [|[|[|m]]] L U L' U'; simpl; try discriminate;
      intros [= <-] [= <-] [= <-] [= <-]; reflexivity.
  - simpl. intros L U [= <-] [= <-]. split.
    + intros i Hi. destruct i as [|[|i]]; simpl; [| |lia].
      * split; [reflexivity|]. exists 1. split; [reflexivity|lia].
      * split; [reflexivity|]. exists 2. split; [reflexivity|lia].
    + intros k Hk. assert (k = 1 \/ k = 2) as [->| ->] by lia;
        vm_compute; discriminate.
Defined.

(** ** The ratio condition *)

Lemma set_ratio_cond_dict_lookup (jobs orig_rng eg_range : list Z) (k : Z) :
  k ∈ jobs ->
  set_ratio_cond_dict 1 jobs orig_rng eg_range !! k
  = Some (if np_count (np_eq orig_rng k) =? 0 then NaN
          else Fin (frozen_ratio orig_rng eg_range k)).
Proof.
  unfold set_ratio_cond_dict. generalize (∅ : gmap Z pyfloat).
  induction jobs as [|j jobs IH]; intros d Hk; [inversion Hk|].
  cbn [foldl]. destruct (decide (k ∈ jobs)) as [Hin|Hout].
  - apply IH. exact Hin.
  - apply elem_of_cons in Hk. destruct Hk as [<-|Hk]; [|contradiction].
    clear IH. revert d. induction jobs as [|j jobs IH]; intros d.
    + cbn [foldl]. rewrite lookup_insert_eq. reflexivity.
    + cbn [foldl]. apply not_elem_of_cons in Hout. destruct Hout as [Hne Hout].
      rewrite insert_insert_ne by congruence. apply IH. exact Hout.
Qed.

Lemma frozen_ratio_bounds (orig_rng eg_range : list Z) (k : Z) :
  np_count (np_eq orig_rng k) <> 0 ->
  (0 <= frozen_ratio orig_rng eg_range k <= 1)%Q.
Proof.
  intros Hne. unfold frozen_ratio, py_round2.
  set (e := np_count (np_eq orig_rng k &&& np_eq eg_range 1)).
  set (t := np_count (np_eq orig_rng k)).
  assert (He : 0 <= e <= t).
  { unfold e, t. split; [rewrite np_count_eq; lia|].
    rewrite !np_count_eq. apply inj_le. apply count_true_mono.
    intros i. rewrite set_at_and. intros H. apply andb_true_iff in H. tauto. }
  assert (Ht : 0 < t) by (fold t in Hne; lia).
  assert (Hq : (0 <= inject_Z e / inject_Z t <= 1)%Q).
  { split.
    - apply Qle_shift_div_l; [change 0%Q with (inject_Z 0); rewrite <- Zlt_Qlt; lia|].
      rewrite Qmult_0_l. change 0%Q with (inject_Z 0). rewrite <- Zle_Qle. lia.
    - apply Qle_shift_div_r; [change 0%Q with (inject_Z 0); rewrite <- Zlt_Qlt; lia|].
      rewrite Qmult_1_l. rewrite <- Zle_Qle. lia. }
  destruct (py_round_bounds (inject_Z e / inject_Z t * 100) 100) as [H0 H1].
  - apply Qmult_le_0_compat; [tauto|discriminate].
  - change (inject_Z 100) with (1 * 100)%Q. apply Qmult_le_compat_r; [tauto|discriminate].
  - split.
    + apply Qle_shift_div_l; [reflexivity|]. rewrite Qmult_0_l.
      change 0%Q with (inject_Z 0). rewrite <- Zle_Qle. exact H0.
    + apply Qle_shift_div_r; [reflexivity|]. rewrite Qmult_1_l.
      change 100%Q with (inject_Z 100). rewrite <- Zle_Qle. exact H1.
Qed.

Lemma set_at_np_ne (a : list Z) (v : Z) (i : nat) :
  set_at (np_ne a v) i = true <-> exists x, a !! i = Some x /\ x <> v.
Proof.
  unfold set_at, np_ne. rewrite list_lookup_fmap.
  destruct (a !! i) as [x|]; simpl.
  - rewrite negb_true_iff, Z.eqb_neq. split.
    + intros H. exists x. auto.
    + intros (y & [= <-] & H). exact H.
  - split; [discriminate|]. intros (y & H & _). discriminate.
Qed.

Lemma set_at_np_gt (a : list Z) (v : Z) (i : nat) :
  set_at (np_gt a v) i = true <-> exists x, a !! i = Some x /\ v < x.
Proof.
  unfold set_at, np_gt. rewrite list_lookup_fmap.
  destruct (a !! i) as [x|]; simpl.
  - rewrite Z.ltb_lt. split.
    + intros H. exists x. auto.
    + intros (y & [= <-] & H). exact H.
  - split; [discriminate|]. intros (y & H & _). discriminate.
Qed.

Lemma set_at_cons (b : bool) (m : list bool) (i : nat) :
  set_at (b :: m) (S i) = set_at m i.
Proof. reflexivity. Qed.

(** Among the rows selected by [sel], the holders of [v] after a fill
    whose mask lies inside [sel], when no selected row held [v]. *)
Lemma fill_count_masked (v : Z) (mask : list bool) :
  forall (n : nat) (sel : list bool) (a : list Z),
    length sel = length mask -> length a = length mask ->
    (forall i, set_at mask i = true -> set_at sel i = true) ->
    (forall i, set_at sel i = true -> a !! i <> Some v) ->
    count_true (np_eq (fill n mask a v) v &&& sel) = Nat.min n (count_true mask).
Proof.
  induction mask as [|b m IH]; intros n sel a Hs Ha Hin Hno.
  - destruct sel; [|discriminate]. destruct a; [|discriminate].
    destruct n; reflexivity.
  - destruct sel as [|c sel]; [discriminate|]. destruct a as [|x a]; [discriminate|].
    injection Hs as Hs. injection Ha as Ha.
    assert (Hin' : forall i, set_at m i = true -> set_at sel i = true)
      by (intros i; apply (Hin (S i))).
    assert (Hno' : forall i, set_at sel i = true -> a !! i <> Some v)
      by (intros i; apply (Hno (S i))).
    cbn [fill]. rewrite count_true_cons. destruct b.
    + pose proof (Hin 0%nat eq_refl) as Hc. cbn in Hc. subst c.
      pose proof (Hno 0%nat eq_refl) as Hx. cbn in Hx.
      assert (E : (x =? v) = false) by (apply Z.eqb_neq; congruence).
      destruct n as [|n].
      * unfold np_eq, np_and. cbn [map zip_with]. rewrite count_true_cons, E.
        cbn [andb]. pose proof (IH 0%nat sel a Hs Ha Hin' Hno') as H0.
        rewrite fill_zero in H0. unfold np_eq, np_and in H0. rewrite H0.
        reflexivity.
      * unfold np_eq, np_and. cbn [map zip_with]. rewrite count_true_cons, Z.eqb_refl.
        cbn [andb]. pose proof (IH n sel a Hs Ha Hin' Hno') as H0.
        unfold np_eq, np_and in H0. rewrite H0. simpl. lia.
    + unfold np_eq, np_and. cbn [map zip_with]. rewrite count_true_cons.
      pose proof (IH n sel a Hs Ha Hin' Hno') as H0.
      unfold np_eq, np_and in H0. rewrite H0.
      destruct c; cbn [andb].
      * pose proof (Hno 0%nat eq_refl) as Hx. cbn in Hx.
        assert (E : (x =? v) = false) by (apply Z.eqb_neq; congruence).
        rewrite E. reflexivity.
      * rewrite andb_false_r. reflexivity.
Qed.

Lemma np_and_length (m1 m2 : list bool) :
  length m1 = length m2 -> length (m1 &&& m2) = length m1.
Proof. intros H. unfold np_and. rewrite length_zip_with. lia. Qed.

(** [assign_cond_ratio] does what the specification says of the ratio
    condition, when the counts are not negative, the groups are numbered
    from 1, and no row of another group already holds the level. *)
Lemma assign_cond_ratio_spec (job cnt : Z) (ratio : Q) (c_dict : gmap Z pyfloat)
  (o a eg f : list Z) :
  c_dict !! job = Some (Fin ratio) ->
  0 <= cnt -> (0 <= ratio <= 1)%Q ->
  length o = length a -> length eg = length a -> length f = length a ->
  (forall i x, eg !! i = Some x -> 1 <= x) ->
  (forall i, a !! i = Some job -> eg !! i = Some 1) ->
  assign_cond_ratio job cnt 1 c_dict o a eg f = Ok (ratio_fill job cnt ratio o a eg f).
Proof.
  intros Hd Hcnt Hr Hlo Hle Hlf Heg Hheld.
  unfold assign_cond_ratio, dict_get. rewrite Hd. cbn [bind].
  destruct (py_round_bounds (ratio * inject_Z cnt) cnt) as [H0 H1].
  { apply Qmult_le_0_compat; [tauto|]. change 0%Q with (inject_Z 0).
    rewrite <- Zle_Qle. exact Hcnt. }
  { rewrite <- (Qmult_1_l (inject_Z cnt)) at 2. apply Qmult_le_compat_r; [tauto|].
    change 0%Q with (inject_Z 0). rewrite <- Zle_Qle. exact Hcnt. }
  set (n1 := py_round (ratio * inject_Z cnt)) in *.
  fold (put_first n1 (np_eq a 0 &&& np_eq eg 1 &&& np_eq f 0) a job).
  rewrite put_first_fill, slots_nonneg by lia.
  set (a1 := fill (Z.to_nat n1) (np_eq a 0 &&& np_eq eg 1 &&& np_eq f 0) a job).
  fold (put_first (cnt - n1)
          (np_eq a1 0 &&& np_ne eg 1 &&& np_eq f 0 &&& np_le o job) a1 job).
  rewrite put_first_fill, slots_nonneg by lia.
  set (nbnf := np_eq a1 0 &&& np_ne eg 1 &&& np_eq f 0 &&& np_le o job).
  set (a2 := fill (Z.to_nat (cnt - n1)) nbnf a1 job).
  assert (Hl1 : length a1 = length a) by apply fill_length.
  assert (Hused : np_count (np_eq a2 job &&& np_gt eg 1)
                  = Z.of_nat (Nat.min (Z.to_nat (cnt - n1)) (count_true nbnf))).
  { rewrite np_count_eq. f_equal. unfold a2. apply fill_count_masked.
    - unfold nbnf, np_and, np_eq, np_ne, np_le, np_gt.
      rewrite ?length_zip_with, ?length_map. lia.
    - unfold nbnf, np_and, np_eq, np_ne, np_le, np_gt.
      rewrite ?length_zip_with, ?length_map. lia.
    - intros i. unfold nbnf. rewrite !set_at_and, !andb_true_iff.
      intros [[[_ Hne] _] _]. apply set_at_np_ne in Hne.
      destruct Hne as (x & Hx & Hx1). apply set_at_np_gt. exists x.
      split; [exact Hx|]. pose proof (Heg _ _ Hx). lia.
    - intros i Hgt Ha1. apply set_at_np_gt in Hgt. destruct Hgt as (x & Hx & Hx1).
      unfold a1 in Ha1. apply fill_cases in Ha1.
      destruct Ha1 as [Ha|[_ Hm]].
      + apply Hheld in Ha. rewrite Hx in Ha. injection Ha as ->. lia.
      + rewrite !set_at_and, !andb_true_iff in Hm. destruct Hm as [[_ He] _].
        apply set_at_np_eq in He. rewrite Hx in He. injection He as ->. lia. }
  rewrite Hused.
  fold (put_first (cnt - n1 - Z.of_nat (Nat.min (Z.to_nat (cnt - n1)) (count_true nbnf)))
          (np_eq a2 0 &&& np_ne eg 1 &&& np_eq f 0) a2 job).
  rewrite put_first_fill, slots_nonneg by lia.
  unfold ratio_fill. fold n1. fold a1. fold nbnf. fold a2.
  do 2 f_equal. lia.
Qed.

Lemma np_arange_elem (a b j : Z) : a <= j < b -> j ∈ np_arange a b.
Proof.
  intros H. unfold np_arange. apply list_elem_of_fmap.
  exists (Z.to_nat (j - a)). split; [lia|]. apply elem_of_seq. lia.
Qed.

Lemma py_in_elem (x : Z) (l : list Z) : py_in x l = true <-> x ∈ l.
Proof.
  unfold py_in. rewrite existsb_exists. split.
  - intros (y & Hy & E). apply Z.eqb_eq in E. subst. apply list_elem_of_In. exact Hy.
  - intros H. exists x. split; [apply list_elem_of_In; exact H|apply Z.eqb_refl].
Qed.

Section RatioDict.

Variable cf : config.
Variable cl : list string.
Variable fur_return : bool.
Variable J : list (list Z).
Variable T red : list Z.
Variable cond : conditions.

(** The dictionary after one level: set when the month is the ratio
    condition month and the level is the ratio condition level, and
    otherwise the one that came in. *)
Lemma job_pass_dict (month : nat) (v : month_views) (job : Z) (col : nat)
  (a c : list Z) (d : option (gmap Z pyfloat)) a' c' d' :
  job_pass cf cl J cond month v job col a c d = Ok (a', c', d') ->
  d' = if py_in (Z.of_nat month) (all_change_months cond) && str_in "ratio" cl
          && (Z.of_nat month =? ratio_cond_month cond) && (job =? ratio_cond_job cond)
       then Some (set_ratio_cond_dict 1 (ratio_jobs cond) (orig_job_range v)
                    (eg_range v))
       else d.
Proof.
  unfold job_pass.
  destruct (py_index J month) as [row|e]; cbn [bind]; [|discriminate].
  destruct (py_index row col) as [cnt|e]; cbn [bind]; [|discriminate].
  destruct (py_in (Z.of_nat month) (all_change_months cond)); cbn [andb].
  2:{ cbn [bind]. intros [= _ _ <-]. reflexivity. }
  destruct (apply_prex cl cond (Z.of_nat month) job cnt v a) as [a1|e]; cbn [bind];
    [|discriminate].
  unfold apply_ratio. destruct (str_in "ratio" cl); cbn [andb].
  2:{ cbn [bind]. destruct (apply_count _ _ _ _ _ _ _ _) as [a3|e]; cbn [bind];
        [|discriminate]. intros [= _ _ <-]. reflexivity. }
  destruct ((Z.of_nat month =? ratio_cond_month cond) && (job =? ratio_cond_job cond)).
  - destruct (py_in _ _ && py_in _ _).
    + destruct (assign_cond_ratio _ _ _ _ _ _ _ _) as [a2|e]; cbn [bind];
        [|discriminate].
      destruct (apply_count _ _ _ _ _ _ _ _) as [a3|e]; cbn [bind]; [|discriminate].
      intros [= _ _ <-]. reflexivity.
    + cbn [bind]. destruct (apply_count _ _ _ _ _ _ _ _) as [a3|e]; cbn [bind];
        [|discriminate]. intros [= _ _ <-]. reflexivity.
  - destruct (py_in _ _ && py_in _ _).
    + destruct d as [c_dict|]; [|discriminate].
      destruct (assign_cond_ratio _ _ _ _ _ _ _ _) as [a2|e]; cbn [bind];
        [|discriminate].
      destruct (apply_count _ _ _ _ _ _ _ _) as [a3|e]; cbn [bind]; [|discriminate].
      intros [= _ _ <-]. reflexivity.
    + cbn [bind]. destruct (apply_count _ _ _ _ _ _ _ _) as [a3|e]; cbn [bind];
        [|discriminate]. intros [= _ _ <-]. reflexivity.
Qed.

Lemma job_loop_dict (month : nat) (v : month_views) (jobs : list Z) :
  forall (col : nat) (a c : list Z) (d : option (gmap Z pyfloat)) a' c' d',
    job_loop cf cl J cond month v jobs col a c d = Ok (a', c', d') ->
    d' = if py_in (Z.of_nat month) (all_change_months cond) && str_in "ratio" cl
            && (Z.of_nat month =? ratio_cond_month cond)
            && py_in (ratio_cond_job cond) jobs
         then Some (set_ratio_cond_dict 1 (ratio_jobs cond) (orig_job_range v)
                      (eg_range v))
         else d.
Proof.
  induction jobs as [|job jobs IH]; intros col a c d a' c' d'.
  - cbn [job_loop py_in existsb]. intros [= _ _ <-]. rewrite andb_false_r. reflexivity.
  - cbn [job_loop].
    destruct (job_pass cf cl J cond month v job col a c d) as [[[a1 c1] d1]|e] eqn:E;
      cbn [bind]; [|discriminate].
    intros H. apply IH in H. apply job_pass_dict in E. subst d1 d'.
    change (py_in (ratio_cond_job cond) (job :: jobs))
      with ((ratio_cond_job cond =? job) || py_in (ratio_cond_job cond) jobs).
    rewrite (Z.eqb_sym (ratio_cond_job cond) job).
    clear IH.
    destruct (py_in (Z.of_nat month) (all_change_months cond) && str_in "ratio" cl
              && (Z.of_nat month =? ratio_cond_month cond)),
      (job =? ratio_cond_job cond), (py_in (ratio_cond_job cond) jobs);
      reflexivity.
Qed.

Lemma month_body_dict (month : nat) (o a c f eg sg np : list Z)
  (d : option (gmap Z pyfloat)) (g : rng) (r : month_result) :
  1 <= ratio_cond_job cond <= num_of_job_levels cf ->
  month_body cf cl fur_return J T red cond month o a c f eg sg np d g = Ok r ->
  dict_out r
  = if py_in (Z.of_nat month) (all_change_months cond) && str_in "ratio" cl
       && (Z.of_nat month =? ratio_cond_month cond)
    then Some (set_ratio_cond_dict 1 (ratio_jobs cond) (orig_out r) eg)
    else d.
Proof.
  intros Hj. unfold month_body.
  destruct (furlough_step cf T red month o f) as [[o1 f1]|e]; cbn [bind];
    [|discriminate].
  cbn [fst snd].
  destruct (recall_step cf fur_return T cond month o1 f1 g) as [[[o2 f2] g2]|e];
    cbn [bind]; [|discriminate].
  destruct (job_loop _ _ _ _ _ _ _ _ _ _ _) as [[[a3 c3] d3]|e] eqn:El; cbn [bind];
    [|discriminate].
  intros [= <-]. cbn [dict_out orig_out]. apply job_loop_dict in El.
  cbn [orig_job_range eg_range] in El. rewrite El.
  assert (E : py_in (ratio_cond_job cond) (np_arange 1 (num_of_job_levels cf + 1))
              = true).
  { apply py_in_elem, np_arange_elem. lia. }
  rewrite E, andb_true_r. reflexivity.
Qed.

(** A level under the ratio condition alone: the ratio fill, then the two
    unconditional fills. *)
Lemma job_pass_ratio (month : nat) (v : month_views) (job : Z) (col : nat)
  (a c : list Z) (d : option (gmap Z pyfloat)) (row : list Z) (cnt : Z)
  (c_dict : gmap Z pyfloat) (ratio : Q) :
  str_in "prex" cl = false -> str_in "ratio" cl = true -> str_in "count" cl = false ->
  J !! month = Some row -> row !! col = Some cnt ->
  py_in (Z.of_nat month) (all_change_months cond) = true ->
  py_in (Z.of_nat month) (ratio_month_range cond) = true ->
  py_in job (ratio_jobs cond) = true ->
  (if (Z.of_nat month =? ratio_cond_month cond) && (job =? ratio_cond_job cond)
   then Some (set_ratio_cond_dict 1 (ratio_jobs cond) (orig_job_range v) (eg_range v))
   else d) = Some c_dict ->
  c_dict !! job = Some (Fin ratio) ->
  0 <= cnt -> (0 <= ratio <= 1)%Q ->
  length (orig_job_range v) = length a -> length (eg_range v) = length a ->
  length (fur_range v) = length a ->
  (forall i x, eg_range v !! i = Some x -> 1 <= x) ->
  (forall i, a !! i = Some job -> eg_range v !! i = Some 1) ->
  exists c',
    job_pass cf cl J cond month v job col a c d
    = Ok (seniority_fill job cnt v
            (nbnf_fill job cnt v
               (ratio_fill job cnt ratio (orig_job_range v) a (eg_range v)
                  (fur_range v))),
          c', Some c_dict).
Proof.
  intros Hprex Hratio Hcount HJ Hcol Hch Hmr Hjr Hd Hk Hcnt Hr Hlo Hle Hlf Heg Hheld.
  unfold job_pass, py_index. rewrite HJ. cbn [bind]. rewrite Hcol. cbn [bind].
  rewrite Hch. unfold apply_prex, apply_ratio, apply_count.
  rewrite Hprex, Hratio, Hcount. cbn [bind]. rewrite Hmr, Hjr. cbn [andb].
  rewrite Hd.
  rewrite (assign_cond_ratio_spec job cnt ratio c_dict _ _ _ _ Hk Hcnt Hr Hlo Hle Hlf
             Heg Hheld).
  cbn [bind fst snd]. eexists. reflexivity.
Qed.

End RatioDict.

Lemma prepare_ratio (cf : config) (cl : list string) (fur_return : bool)
  (job_change_months : list Z) (cond : conditions) :
  str_in "ratio" cl = true ->
  prepare cf cl fur_return job_change_months = Ok cond ->
  ratio_cond_job cond = 1
  /\ ratio_jobs cond = map ratio_job (ratio_cond cf)
  /\ exists first rest,
       ratio_cond cf = first :: rest /\ ratio_cond_month cond = ratio_start first.
Proof.
  intros Hr. unfold prepare. rewrite Hr.
  destruct (if str_in "prex" cl then _ else _) as [sgr|e]; cbn [bind]; [|discriminate].
  destruct (ratio_cond cf) as [|first rest] eqn:E; cbn [bind]; [discriminate|].
  destruct (let* lo := np_min _ in _) as [rr|e]; cbn [bind]; [|discriminate].
  destruct (if str_in "count" cl then _ else _) as [cr|e]; cbn [bind]; [|discriminate].
  intros [= <-]. cbn. split; [reflexivity|]. split; [reflexivity|].
  exists first, rest. split; reflexivity.
Qed.



(** * Further properties of the code *)

(** ** The engine needs two months *)

(** [lower_next = lower[1:]] followed by [lower_next[-1]] (and the same
    for [upper]): with fewer than two slice limits the engine raises
    IndexError before doing anything else. *)
Theorem engine_needs_two_months (cf : config) (df : dataframe)
  (lower upper : list nat) (n : nat) (J : list (list Z)) (T : list Z)
  (job_change_months job_reduction_months : list Z) (start_month : nat)
  (condition_list : list string) (fur_return : bool) (g : rng) :
  (length lower <= 1)%nat \/ (length upper <= 1)%nat ->
  assign_jobs_nbnf_job_changes cf df lower upper n J T job_change_months
    job_reduction_months start_month condition_list fur_return g
  = Raise IndexError.
Proof.
  intros H. unfold assign_jobs_nbnf_job_changes, py_last.
  destruct (last (drop 1 lower)) as [ll|] eqn:El; cbn [bind]; [|reflexivity].
  destruct (last (drop 1 upper)) as [ul|] eqn:Eu; cbn [bind]; [|reflexivity].
  rewrite last_lookup in El, Eu.
  apply lookup_lt_Some in El. apply lookup_lt_Some in Eu.
  rewrite length_drop in El, Eu. lia.
Qed.

Lemma engine_needs_two_months_example :
  assign_jobs_nbnf_job_changes (plain_config 1) two_by_two_frame [0]%nat [2]%nat 2
    [[2]] [2] [] [] 0 [] false [] = Raise IndexError.
Proof. apply engine_needs_two_months. left. simpl. lia. Defined.

(** ** Errors of the ratio step *)

Lemma set_ratio_cond_dict_miss (jobs orig_rng eg_range : list Z) (k : Z) :
  k ∉ jobs -> set_ratio_cond_dict 1 jobs orig_rng eg_range !! k = None.
Proof.
  unfold set_ratio_cond_dict.
  assert (G : forall d : gmap Z pyfloat, d !! k = None -> k ∉ jobs ->
            foldl (fun ratio_cond_dict job =>
                     <[job := if np_count (np_eq orig_rng job) =? 0 then NaN
                              else Fin (py_round2
                                          (inject_Z (np_count (np_eq orig_rng job
                                                               &&& np_eq eg_range 1))
                                           / inject_Z (np_count (np_eq orig_rng job))))]>
                       ratio_cond_dict) d jobs !! k = None).
  { induction jobs as [|j jobs IH]; intros d Hd Hk; [exact Hd|].
    apply not_elem_of_cons in Hk. destruct Hk as [Hne Hk]. cbn [foldl].
    apply IH; [|exact Hk]. rewrite lookup_insert_ne by congruence. exact Hd. }
  intros Hk. apply G; [apply lookup_empty|exact Hk].
Qed.

(** The ratio dictionary has an entry for the ratio levels only, and the
    entry of a level that nobody holds is not a number: the ratio step
    raises KeyError for a level outside the dictionary and ValueError for
    a level without holders. *)
Theorem ratio_step_errors (jobs orig_rng eg_range : list Z) (k cnt : Z)
  (o a eg f : list Z) :
  (k ∉ jobs ->
   assign_cond_ratio k cnt 1 (set_ratio_cond_dict 1 jobs orig_rng eg_range) o a eg f
   = Raise KeyError)
  /\ (k ∈ jobs -> np_count (np_eq orig_rng k) = 0 ->
      assign_cond_ratio k cnt 1 (set_ratio_cond_dict 1 jobs orig_rng eg_range) o a eg f
      = Raise ValueError).
Proof.
  split.
  - intros Hk. unfold assign_cond_ratio, dict_get.
    rewrite set_ratio_cond_dict_miss by exact Hk. reflexivity.
  - intros Hk H0. unfold assign_cond_ratio, dict_get.
    rewrite set_ratio_cond_dict_lookup by exact Hk. rewrite H0. reflexivity.
Qed.

Lemma ratio_step_errors_example :
  assign_cond_ratio 2 3 1 (set_ratio_cond_dict 1 [1; 2] [1; 1; 3] [1; 2; 1])
    [1; 1; 3] [0; 0; 0] [1; 2; 1] [0; 0; 0] = Raise ValueError.
Proof.
  apply (proj2 (ratio_step_errors [1; 2] [1; 1; 3] [1; 2; 1] 2 3
                  [1; 1; 3] [0; 0; 0] [1; 2; 1] [0; 0; 0])).
  - apply list_elem_of_In. simpl. auto.
  - reflexivity.
Defined.

(** ** MARK_FUR_RANGE, row by row *)

(** After [mark_fur_range] an unassigned row is furloughed, a row with a
    real level is not, and a row with any other value (a level above
    [job_levels]) keeps its code; marking twice is marking once. *)
Theorem mark_fur_range_rows (assign_range fur_range : list Z) (job_levels : Z) :
  length assign_range = length fur_range ->
  let marked := mark_fur_range assign_range fur_range job_levels in
  length marked = length fur_range
  /\ (forall i x, assign_range !! i = Some x ->
        (x = 0 -> marked !! i = Some 1)
        /\ (0 < x <= job_levels -> marked !! i = Some 0)
        /\ (x < 0 \/ (0 < x /\ job_levels < x) -> marked !! i = fur_range !! i))
  /\ mark_fur_range assign_range marked job_levels = marked.
Proof.
  intros Hlen marked.
  assert (Hl : length marked = length fur_range) by apply mark_fur_range_length.
  split; [exact Hl|]. split.
  - intros i x Hx. unfold marked. rewrite mark_fur_range_lookup by exact Hlen.
    rewrite Hx.
    destruct (lookup_lt_is_Some_2 fur_range i) as [z Hz].
    { rewrite <- Hlen. eapply lookup_lt_Some; eauto. }
    rewrite Hz. cbn [default]. split; [|split].
    + intros ->. reflexivity.
    + intros Hr. destruct (0 <? x) eqn:E1; [|lia].
      destruct (x <=? job_levels) eqn:E2; [|lia]. reflexivity.
    + intros Hr. destruct (x =? 0) eqn:E0; [lia|].
      destruct (0 <? x) eqn:E1, (x <=? job_levels) eqn:E2; cbn; try reflexivity; lia.
  - apply list_eq. intros i. rewrite mark_fur_range_lookup by lia.
    unfold marked. rewrite mark_fur_range_lookup by exact Hlen.
    destruct (assign_range !! i) as [x|] eqn:Hx; [|reflexivity].
    destruct (lookup_lt_is_Some_2 fur_range i) as [z Hz].
    { rewrite <- Hlen. eapply lookup_lt_Some; eauto. }
    rewrite Hz. cbn [default].
    destruct ((0 <? x) && (x <=? job_levels)); [reflexivity|].
    destruct (x =? 0); reflexivity.
Qed.

Lemma mark_fur_range_rows_example :
  let marked := mark_fur_range [1; 0; 3; 2] [1; 0; 0; 1] 2 in
  length marked = length [1; 0; 0; 1]
  /\ (forall i x, [1; 0; 3; 2] !! i = Some x ->
        (x = 0 -> marked !! i = Some 1)
        /\ (0 < x <= 2 -> marked !! i = Some 0)
        /\ (x < 0 \/ (0 < x /\ 2 < x) -> marked !! i = [1; 0; 0; 1] !! i))
  /\ mark_fur_range [1; 0; 3; 2] marked 2 = marked.
Proof. apply mark_fur_range_rows. reflexivity. Defined.

(** ** DISTRIBUTE *)



(** ** Furlough, then recall *)

(** In a month in which the furlough for reductions fires, the recall
    step that follows finds no surplus and changes nothing. *)
Theorem no_recall_after_reduction (cf : config) (fur_return : bool) (T red : list Z)
  (cond : conditions) (month : nat) (o f : list Z) (total : Z) (g : rng) :
  length o = length f ->
  T !! month = Some total -> 0 <= total ->
  py_in (Z.of_nat month) red = true ->
  total < np_count (np_eq f 0) ->
  exists o1 f1,
    furlough_step cf T red month o f = Ok (o1, f1)
    /\ np_count (np_eq f1 0) = total
    /\ recall_step cf fur_return T cond month o1 f1 g = Ok (o1, f1, g).
Proof.
  intros Hlen HT Hpos Hin Hlt.
  unfold furlough_step. rewrite Hin. unfold mark_for_furlough, py_index.
  rewrite HT. cbn [bind].
  destruct (0 <=? total - np_count (np_eq f 0)) eqn:E; [lia|]. clear E.
  rewrite !put_from_fill.
  assert (Hk : skipped (total - np_count (np_eq f 0)) (np_eq f 0) = Z.to_nat total).
  { unfold skipped. destruct (0 <=? total - np_count (np_eq f 0)) eqn:E; [lia|].
    rewrite np_count_eq in *. lia. }
  rewrite Hk. eexists _, _. split; [reflexivity|].
  assert (Hc : np_count (np_eq (fill_from (Z.to_nat total) (np_eq f 0) f 1) 0) = total).
  { rewrite np_count_eq, fill_from_active. rewrite np_count_eq in Hlt. lia. }
  split; [exact Hc|].
  unfold recall_step. destruct (fur_return && _); [|reflexivity].
  unfold mark_for_recall, py_index. rewrite HT. cbn [bind]. rewrite Hc.
  rewrite Z.sub_diag. reflexivity.
Qed.

Lemma no_recall_after_reduction_example :
  exists o1 f1,
    furlough_step delayed_recall_config [1] [0] 0 [1; 1; 2] [0; 0; 1] = Ok (o1, f1)
    /\ np_count (np_eq f1 0) = 1
    /\ recall_step delayed_recall_config true [1]
         {| sg_jobs := []; sg_dict := ∅; sg_month_range := []; ratio_jobs := [];
            ratio_cond_month := 0; ratio_cond_job := 1; ratio_month_range := [];
            count_jobs := []; count_month_range := []; recall_months := [0];
            all_change_months := [0] |} 0 o1 f1 [] = Ok (o1, f1, []).
Proof.
  apply (no_recall_after_reduction delayed_recall_config true [1] [0] _ 0
           [1; 1; 2] [0; 0; 1] 1 []); try reflexivity. lia.
Defined.

(** ** No bump: what the job loop may touch *)

Lemma touched_refl (f : list Z) (lo hi : Z) (a : list Z) : touched f lo hi a a.
Proof. split; [reflexivity|]. intros i. left. reflexivity. Qed.

Lemma touched_trans (f : list Z) (lo hi : Z) (a b c : list Z) :
  touched f lo hi a b -> touched f lo hi b c -> touched f lo hi a c.
Proof.
  intros [Hl1 H1] [Hl2 H2]. split; [lia|]. intros i.
  destruct (H2 i) as [E2|(Hb & Hf & j & Hj & Hc)].
  - rewrite E2. apply H1.
  - destruct (H1 i) as [E1|(Ha & _ & j' & Hj' & Hb')].
    + right. rewrite <- E1. eauto 6.
    + right. split; [exact Ha|]. split; [exact Hf|]. exists j. auto.
Qed.

Lemma touched_widen (f : list Z) (lo hi lo' hi' : Z) (a b : list Z) :
  lo' <= lo -> hi <= hi' -> touched f lo hi a b -> touched f lo' hi' a b.
Proof.
  intros H1 H2 [Hl H]. split; [exact Hl|]. intros i.
  destruct (H i) as [E|(Ha & Hf & j & Hj & Hb)]; [left; exact E|].
  right. split; [exact Ha|]. split; [exact Hf|]. exists j. split; [lia|exact Hb].
Qed.

(** A masked first-n assignment whose mask asks for an unassigned active
    row. *)
Lemma put_first_touched (f : list Z) (n job : Z) (mask : list bool) (a : list Z) :
  (forall i, set_at mask i = true -> a !! i = Some 0 /\ f !! i = Some 0) ->
  touched f job job a (put_first n mask a job).
Proof.
  intros Hmask. split; [apply np_put_length|]. intros i.
  unfold put_first. rewrite np_put_lookup.
  destruct (a !! i) as [x|] eqn:Ea; [|left; reflexivity]. cbn.
  destruct (bool_decide (i ∈ py_upto n (np_where mask))) eqn:E; [|left; reflexivity].
  apply bool_decide_eq_true in E. apply py_upto_subset in E.
  apply where_from_set in E. destruct E as (i' & -> & Hi'). cbn in Ea.
  destruct (Hmask _ Hi') as [Ha Hf]. rewrite Ea in Ha. injection Ha as ->.
  right. split; [reflexivity|]. split; [exact Hf|]. exists job. split; [lia|reflexivity].
Qed.

Ltac mask_rows :=
  let i := fresh "i" in
  let H := fresh "H" in
  intros i H; rewrite ?set_at_and, ?andb_true_iff in H;
  split; apply set_at_np_eq; tauto.

Lemma assign_cond_ratio_touched (job cnt eg_num : Z) (c_dict : gmap Z pyfloat)
  (o a eg f a' : list Z) :
  assign_cond_ratio job cnt eg_num c_dict o a eg f = Ok a' -> touched f job job a a'.
Proof.
  unfold assign_cond_ratio.
  destruct (dict_get c_dict job) as [[q|]|e]; cbn [bind]; try discriminate.
  intros [= <-].
  repeat match goal with
         | |- context [np_put ?b (py_upto ?n (np_where ?m)) ?v] =>
             change (np_put b (py_upto n (np_where m)) v) with (put_first n m b v)
         end.
  eapply touched_trans; [eapply touched_trans|]; apply put_first_touched; mask_rows.
Qed.

Lemma np_put_nothing (a : list Z) (mask : list bool) (v : Z) :
  (forall i, set_at mask i = false) -> np_put a (np_where mask) v = a.
Proof.
  intros H. rewrite np_put_where_fill. rewrite count_true_zero by exact H.
  apply fill_zero.
Qed.

Lemma assign_cond_ratio_capped_touched (job cnt : Z) (eg1 eg2 : list Z)
  (qd : gmap (Z * bool) quota) (enh : bool) (o a eg f ex a' : list Z) :
  (forall i, ex !! i <> Some job) ->
  assign_cond_ratio_capped job cnt eg1 eg2 qd enh o a eg f ex = Ok a' ->
  touched f job job a a'.
Proof.
  intros Hex. unfold assign_cond_ratio_capped.
  rewrite (np_put_nothing a (np_eq ex job)).
  2:{ intros i. destruct (set_at (np_eq ex job) i) eqn:E; [|reflexivity].
      apply set_at_np_eq in E. elim (Hex i E). }
  repeat match goal with
         | |- context [np_put ?b (py_upto ?n (np_where ?m)) ?v] =>
             change (np_put b (py_upto n (np_where m)) v) with (put_first n m b v)
         end.
  set (a1 := put_first _ _ a job).
  assert (H1 : touched f job job a a1) by (apply put_first_touched; mask_rows).
  destruct (dict_get qd (job, enh)) as [[[w l] p]|e]; cbn [bind]; [|discriminate].
  destruct (distribute_vacancies_by_weights _ _ _) as [al|e]; cbn [bind];
    [|discriminate].
  destruct (0 <? sumZ al).
  - destruct (py_index al 0) as [q1|e]; cbn [bind]; [|discriminate].
    destruct (py_index al 1) as [q2|e]; cbn [bind]; [|discriminate].
    intros [= <-]. eapply touched_trans; [exact H1|].
    destruct (0 <? q1), (0 <? q2);
      repeat first [ apply touched_refl
                   | apply put_first_touched; mask_rows
                   | eapply touched_trans; [|apply put_first_touched; mask_rows] ].
  - destruct (distribute _ _) as [qs|e]; cbn [bind]; [|discriminate].
    destruct (py_index qs 0) as [q1|e]; cbn [bind]; [|discriminate].
    destruct (py_index qs 1) as [q2|e]; cbn [bind]; [|discriminate].
    intros [= <-]. eapply touched_trans; [exact H1|].
    destruct (0 <? Z.max 0 (q2 - _)), (0 <? Z.max 0 (q1 - _));
      repeat first [ apply touched_refl
                   | apply put_first_touched; mask_rows
                   | eapply touched_trans; [|apply put_first_touched; mask_rows] ].
Qed.

Section Touch.

Variable cf : config.
Variable cl : list string.
Variable fur_return : bool.
Variable J : list (list Z).
Variable T red : list Z.
Variable cond : conditions.

Lemma job_pass_touched (month : nat) (v : month_views) (job : Z) (col : nat)
  (a c : list Z) (d : option (gmap Z pyfloat)) a' c' d' :
  (forall i, nonparticip_range v !! i <> Some job) ->
  job_pass cf cl J cond month v job col a c d = Ok (a', c', d') ->
  touched (fur_range v) job job a a'
  /\ exists cnt, (exists row, J !! month = Some row /\ row !! col = Some cnt)
                 /\ c' = np_put c (np_where (np_eq a' job)) cnt.
Proof.
  intros Hex. unfold job_pass, py_index.
  destruct (J !! month) as [row|] eqn:EJ; cbn [bind]; [|discriminate].
  destruct (row !! col) as [cnt|] eqn:Ec; cbn [bind]; [|discriminate].
  assert (Hfills : forall a1, touched (fur_range v) job job a a1 ->
             touched (fur_range v) job job a
               (seniority_fill job cnt v (nbnf_fill job cnt v a1))).
  { intros a1 H1. unfold seniority_fill, nbnf_fill.
    eapply touched_trans; [eapply touched_trans; [exact H1|]|];
      apply put_first_touched; mask_rows. }
  assert (Hcond : forall r,
             (if py_in (Z.of_nat month) (all_change_months cond)
              then
                let* assign_range := apply_prex cl cond (Z.of_nat month) job cnt v a in
                let* ratioed := apply_ratio cl cond (Z.of_nat month) job cnt v
                                  assign_range d in
                let* assign_range := apply_count cf cl cond (Z.of_nat month) job cnt v
                                       (fst ratioed) in
                Ok (assign_range, snd ratioed)
              else Ok (a, d)) = Ok r -> touched (fur_range v) job job a r.1).
  { intros r. destruct (py_in (Z.of_nat month) (all_change_months cond)).
    2:{ intros [= <-]. apply touched_refl. }
    destruct (apply_prex cl cond (Z.of_nat month) job cnt v a) as [a1|e] eqn:E1;
      cbn [bind]; [|discriminate].
    assert (H1 : touched (fur_range v) job job a a1).
    { unfold apply_prex in E1. destruct (str_in "prex" cl);
        [|injection E1 as <-; apply touched_refl].
      destruct (_ && _); [|injection E1 as <-; apply touched_refl].
      destruct (dict_get (sg_dict cond) job); cbn [bind] in E1; [|discriminate].
      injection E1 as <-. apply put_first_touched. mask_rows. }
    destruct (apply_ratio cl cond (Z.of_nat month) job cnt v a1 d) as [r2|e] eqn:E2;
      cbn [bind]; [|discriminate].
    assert (H2 : touched (fur_range v) job job a1 r2.1).
    { unfold apply_ratio in E2. destruct (str_in "ratio" cl);
        [|injection E2 as <-; apply touched_refl].
      destruct (py_in _ _ && py_in _ _); [|injection E2 as <-; apply touched_refl].
      destruct (if _ && _ then _ else d) as [cd|]; [|discriminate].
      destruct (assign_cond_ratio _ _ _ _ _ _ _ _) as [a2|e] eqn:E; cbn [bind] in E2;
        [|discriminate].
      injection E2 as <-. eapply assign_cond_ratio_touched; eauto. }
    destruct (apply_count cf cl cond (Z.of_nat month) job cnt v r2.1) as [a3|e] eqn:E3;
      cbn [bind]; [|discriminate].
    intros [= <-]. cbn [fst].
    eapply touched_trans; [exact H1|]. eapply touched_trans; [exact H2|].
    unfold apply_count in E3. destruct (str_in "count" cl);
      [|injection E3 as <-; apply touched_refl].
    destruct (py_in _ _ && py_in _ _); [|injection E3 as <-; apply touched_refl].
    eapply assign_cond_ratio_capped_touched; eauto. }
  destruct (if py_in (Z.of_nat month) (all_change_months cond) then _ else _)
    as [r|e]; cbn [bind]; [|discriminate].
  specialize (Hcond r eq_refl). intros [= <- <- <-]. split.
  - apply Hfills. exact Hcond.
  - exists cnt. split; [exists row; auto|reflexivity].
Qed.

(** The levels [first .. first + n - 1] in turn, reading the counts from
    column [first - 1] on. *)
Lemma job_loop_touched (month : nat) (v : month_views) (row : list Z) :
  J !! month = Some row ->
  forall (n : nat) (first : Z) (col : nat) (a c : list Z)
         (d : option (gmap Z pyfloat)) a' c' d',
    1 <= first -> Z.of_nat col = first - 1 ->
    (forall i x, nonparticip_range v !! i = Some x -> x < first) ->
    job_loop cf cl J cond month v (np_arange first (first + Z.of_nat n)) col a c d
    = Ok (a', c', d') ->
    touched (fur_range v) first (first + Z.of_nat n - 1) a a'
    /\ forall i x, a' !! i = Some x ->
         c' !! i = (fun y => if (first <=? x) && (x <? first + Z.of_nat n)
                             then nth (Z.to_nat (x - 1)) row 0 else y) <$> c !! i.
Proof.
  intros HJ. induction n as [|n IH]; intros first col a c d a' c' d' H1 Hcol Hnp.
  - rewrite np_arange_nil by lia. cbn [job_loop]. intros [= <- <- <-].
    split; [apply touched_refl|]. intros i x _.
    destruct (Z.leb_spec first x), (Z.ltb_spec x (first + Z.of_nat 0)); try lia;
      cbn [andb]; destruct (c !! i); reflexivity.
  - rewrite np_arange_cons by lia. cbn [job_loop].
    destruct (job_pass cf cl J cond month v first col a c d) as [[[a1 c1] d1]|e] eqn:E;
      cbn [bind]; [|discriminate].
    replace (first + Z.of_nat (S n)) with (first + 1 + Z.of_nat n) by lia.
    intros Hloop.
    assert (Hnp1 : forall i, nonparticip_range v !! i <> Some first).
    { intros i Hi. apply Hnp in Hi. lia. }
    destruct (job_pass_touched _ _ _ _ _ _ _ _ _ _ Hnp1 E)
      as (Ht1 & cnt & (row' & HJ' & Hcnt) & ->).
    rewrite HJ in HJ'. injection HJ' as <-.
    assert (Hnp2 : forall i x, nonparticip_range v !! i = Some x -> x < first + 1).
    { intros i x Hi. apply Hnp in Hi. lia. }
    assert (Hf1 : 1 <= first + 1) by lia.
    assert (Hcol1 : Z.of_nat (S col) = first + 1 - 1) by lia.
    destruct (IH (first + 1) (S col) a1 _ d1 a' c' d' Hf1 Hcol1 Hnp2 Hloop)
      as (Ht2 & Hrows).
    split.
    { eapply touched_trans.
      - eapply touched_widen; [| |exact Ht1]; lia.
      - eapply touched_widen; [| |exact Ht2]; lia. }
    intros i x Hx. rewrite (Hrows i x Hx).
    rewrite np_put_where_fill, fill_all_lookup by lia.
    assert (Hcnt' : nth (Z.to_nat (first - 1)) row 0 = cnt).
    { replace (Z.to_nat (first - 1)) with col by lia.
      apply nth_lookup_Some with (d := 0) in Hcnt. exact Hcnt. }
    destruct (c !! i) as [y|]; [|reflexivity]. cbn [fmap option_fmap option_map].
    f_equal.
    destruct Ht2 as [_ Ht2].
    assert (Hheld : first + 1 <= x < first + 1 + Z.of_nat n \/ a1 !! i = Some x).
    { destruct (Ht2 i) as [Esame|(_ & _ & j & Hj & Hj')].
      - right. rewrite <- Esame. exact Hx.
      - rewrite Hx in Hj'. injection Hj' as <-. left. lia. }
    destruct (Z.leb_spec (first + 1) x), (Z.ltb_spec x (first + 1 + Z.of_nat n)),
      (Z.leb_spec first x); cbn [andb]; try reflexivity; try lia.
    all: destruct Hheld as [?|Hheld]; [lia|].
    all: destruct (Z.eq_dec x first) as [->|Hne];
      [ rewrite (proj2 (set_at_np_eq a1 first i) Hheld); first [congruence|lia]
      | assert (Eno : set_at (np_eq a1 first) i = false)
          by (destruct (set_at (np_eq a1 first) i) eqn:Es; [|reflexivity];
              apply set_at_np_eq in Es; congruence);
        rewrite Eno; first [reflexivity|lia] ].
Qed.

End Touch.

Lemma month_body_inv (cf : config) (cl : list string) (fur_return : bool)
  (J : list (list Z)) (T red : list Z) (cond : conditions) (month : nat)
  (o a c f eg sg np : list Z) (d : option (gmap Z pyfloat)) (g : rng)
  (r : month_result) :
  month_body cf cl fur_return J T red cond month o a c f eg sg np d g = Ok r ->
  exists c3,
    length (orig_out r) = length o /\ length (fur_carried r) = length f
    /\ job_loop cf cl J cond month
         {| orig_job_range := orig_out r; fur_range := fur_carried r;
            eg_range := eg; sg_range := sg; nonparticip_range := np |}
         (np_arange 1 (num_of_job_levels cf + 1)) 0 a c d
       = Ok (assign_out r, c3, dict_out r)
    /\ fur_out r = mark_fur_range (assign_out r) (fur_carried r) (num_of_job_levels cf)
    /\ count_out r
       = np_put c3 (np_where (np_eq (fur_out r) 1)) (np_count (np_eq (fur_out r) 1)).
Proof.
  unfold month_body.
  destruct (furlough_step cf T red month o f) as [[o1 f1]|e] eqn:Ef; cbn [bind];
    [|discriminate].
  assert (Hl1 : length o1 = length o /\ length f1 = length f).
  { unfold furlough_step in Ef. destruct (py_in _ red).
    - unfold mark_for_furlough in Ef.
      destruct (py_index T month); cbn [bind] in Ef; [|discriminate].
      destruct (0 <=? _); injection Ef as <- <-; rewrite ?np_put_length; auto.
    - injection Ef as <- <-. auto. }
  cbn [fst snd].
  destruct (recall_step cf fur_return T cond month o1 f1 g) as [[[o2 f2] g2]|e] eqn:Er;
    cbn [bind]; [|discriminate].
  assert (Hl2 : length o2 = length o1 /\ length f2 = length f1).
  { unfold recall_step in Er. destruct (fur_return && _).
    - unfold mark_for_recall in Er.
      destruct (py_index T month); cbn [bind] in Er; [|discriminate].
      destruct (0 <? _); [|injection Er as <- <- <-; auto].
      eapply recall_loop_lengths; eauto.
    - injection Er as <- <- <-. auto. }
  destruct (job_loop _ _ _ _ _ _ _ _ _ _ _) as [[[a3 c3] d3]|e] eqn:El; cbn [bind];
    [|discriminate].
  intros [= <-]. cbn. exists c3. repeat split; try lia. exact El.
Qed.

(** ** What a month does to a row, whatever the conditions *)

(** No bump: in a month, with any condition list, a row that comes in
    assigned keeps its level, a row that is furloughed when the job loop
    starts is not assigned, and a row that changes was unassigned and
    active and receives a real level. *)
Theorem month_never_bumps (cf : config) (cl : list string) (fur_return : bool)
  (J : list (list Z)) (T red : list Z) (cond : conditions) (month : nat)
  (o a c f eg sg np : list Z) (d : option (gmap Z pyfloat)) (g : rng)
  (r : month_result) (row : list Z) :
  0 <= num_of_job_levels cf ->
  J !! month = Some row ->
  (forall i x, np !! i = Some x -> x = 0) ->
  month_body cf cl fur_return J T red cond month o a c f eg sg np d g = Ok r ->
  (forall i x, a !! i = Some x -> x <> 0 -> assign_out r !! i = Some x)
  /\ (forall i, fur_carried r !! i = Some 1 -> assign_out r !! i = a !! i)
  /\ (forall i x, assign_out r !! i = Some x ->
        a !! i = Some x
        \/ (a !! i = Some 0 /\ fur_carried r !! i = Some 0
            /\ 1 <= x <= num_of_job_levels cf)).
Proof.
  intros HK HJ Hnp Hbody.
  destruct (month_body_inv _ _ _ _ _ _ _ _ _ _ _ _ _ _ _ _ _ _ Hbody)
    as (c3 & _ & _ & Hloop & _).
  replace (num_of_job_levels cf + 1)
    with (1 + Z.of_nat (Z.to_nat (num_of_job_levels cf))) in Hloop by lia.
  set (v := {| orig_job_range := orig_out r; fur_range := fur_carried r;
               eg_range := eg; sg_range := sg; nonparticip_range := np |}) in Hloop.
  assert (Hnpv : forall i x, nonparticip_range v !! i = Some x -> x < 1)
    by (cbn; intros i x Hi; apply Hnp in Hi; lia).
  assert (H11 : 1 <= 1) by lia.
  destruct (job_loop_touched cf cl J cond month v row HJ _ 1 0%nat a c d _ _ _
              H11 eq_refl Hnpv Hloop)
    as ([_ Ht] & _).
  cbn [fur_range] in Ht. split; [|split].
  - intros i x Hx Hx0. destruct (Ht i) as [E|(Ha & _)].
    + rewrite E. exact Hx.
    + rewrite Hx in Ha. injection Ha as ->. elim Hx0. reflexivity.
  - intros i Hf. destruct (Ht i) as [E|(_ & Hf0 & _)]; [exact E|].
    unfold v in Hf0. cbn [fur_range] in Hf0. rewrite Hf in Hf0. discriminate.
  - intros i x Hx. destruct (Ht i) as [E|(Ha & Hf0 & j & Hj & Hj')].
    + left. congruence.
    + right. rewrite Hx in Hj'. injection Hj' as <-.
      split; [exact Ha|]. split; [exact Hf0|]. lia.
Qed.

Lemma month_never_bumps_example :
  let r := {| orig_out := [1; 3; 1]; assign_out := [1; 0; 2]; fur_carried := [0; 1; 0];
              fur_out := [0; 1; 0]; count_out := [1; 1; 1]; dict_out := None;
              rng_out := [] |} in
  (forall i x, [0; 0; 0] !! i = Some x -> x <> 0 -> assign_out r !! i = Some x)
  /\ (forall i, fur_carried r !! i = Some 1 -> assign_out r !! i = [0; 0; 0] !! i)
  /\ (forall i x, assign_out r !! i = Some x ->
        [0; 0; 0] !! i = Some x
        \/ ([0; 0; 0] !! i = Some 0 /\ fur_carried r !! i = Some 0
            /\ 1 <= x <= num_of_job_levels (plain_config 2))).
Proof.
  intros r.
  refine (month_never_bumps (plain_config 2) [] false [[1; 1]] [2] [] no_conditions 0
            [1; 3; 1] [0; 0; 0] [0; 0; 0] [0; 1; 0] [1; 1; 1] [0; 0; 0] [0; 0; 0]
            None [] r [1; 1] _ _ _ _).
  - simpl. lia.
  - reflexivity.
  - intros i x. do 3 (destruct i as [|i]; [simpl; congruence|]). discriminate.
  - vm_compute. reflexivity.
Defined.

(** The job-count column at the end of a month: a row with a real level
    carries the count of that level in the month's row of the job table,
    a furloughed row carries the number of furloughed rows. *)
Theorem month_count_column (cf : config) (cl : list string) (fur_return : bool)
  (J : list (list Z)) (T red : list Z) (cond : conditions) (month : nat)
  (o a c f eg sg np : list Z) (d : option (gmap Z pyfloat)) (g : rng)
  (r : month_result) (row : list Z) :
  0 <= num_of_job_levels cf ->
  J !! month = Some row ->
  length a = length f -> length c = length a ->
  (forall i x, np !! i = Some x -> x = 0) ->
  month_body cf cl fur_return J T red cond month o a c f eg sg np d g = Ok r ->
  (forall i x, assign_out r !! i = Some x -> 1 <= x <= num_of_job_levels cf ->
     count_out r !! i = Some (nth (Z.to_nat (x - 1)) row 0))
  /\ (forall i, fur_out r !! i = Some 1 ->
        count_out r !! i = Some (np_count (np_eq (fur_out r) 1))).
Proof.
  intros HK HJ Hlaf Hlc Hnp Hbody.
  destruct (month_body_inv _ _ _ _ _ _ _ _ _ _ _ _ _ _ _ _ _ _ Hbody)
    as (c3 & _ & Hlf & Hloop & Hfo & Hco).
  destruct (month_body_any _ _ _ _ _ _ _ _ _ _ _ _ _ _ _ _ _ _ HK Hbody Hlaf)
    as (_ & Hlfo & _ & [Hla _] & _).
  replace (num_of_job_levels cf + 1)
    with (1 + Z.of_nat (Z.to_nat (num_of_job_levels cf))) in Hloop by lia.
  set (v := {| orig_job_range := orig_out r; fur_range := fur_carried r;
               eg_range := eg; sg_range := sg; nonparticip_range := np |}) in Hloop.
  assert (Hnpv : forall i x, nonparticip_range v !! i = Some x -> x < 1)
    by (cbn; intros i x Hi; apply Hnp in Hi; lia).
  assert (H11 : 1 <= 1) by lia.
  destruct (job_loop_touched cf cl J cond month v row HJ _ 1 0%nat a c d _ _ _
              H11 eq_refl Hnpv Hloop)
    as (_ & Hrows).
  assert (Hput : forall i, count_out r !! i
                 = (fun y => if set_at (np_eq (fur_out r) 1) i
                             then np_count (np_eq (fur_out r) 1) else y) <$> c3 !! i).
  { intros i. rewrite Hco, np_put_where_fill. apply fill_all_lookup. lia. }
  split.
  - intros i x Hx Hr. rewrite Hput, (Hrows i x Hx).
    destruct (lookup_lt_is_Some_2 c i) as [y Hy].
    { rewrite Hlc, <- Hla. eapply lookup_lt_Some; eauto. }
    rewrite Hy. cbn.
    assert (Ef : fur_out r !! i = Some 0).
    { rewrite Hfo, mark_fur_range_lookup by lia. rewrite Hx.
      destruct (Z.ltb_spec 0 x), (Z.leb_spec x (num_of_job_levels cf)); try lia.
      reflexivity. }
    assert (Eno : set_at (np_eq (fur_out r) 1) i = false).
    { destruct (set_at (np_eq (fur_out r) 1) i) eqn:Es; [|reflexivity].
      apply set_at_np_eq in Es. congruence. }
    rewrite Eno.
    destruct (Z.leb_spec 1 x), (Z.ltb_spec x (1 + Z.of_nat (Z.to_nat (num_of_job_levels cf))));
      try lia. reflexivity.
  - intros i Hf1. rewrite Hput.
    rewrite (proj2 (set_at_np_eq (fur_out r) 1 i) Hf1).
    assert (Hlc3 : length c3 = length c).
    { assert (Hl := Hput i). apply (f_equal is_Some) in Hl.
      destruct (month_body_any _ _ _ _ _ _ _ _ _ _ _ _ _ _ _ _ _ _ HK Hbody Hlaf)
        as (_ & _ & Hcl & _).
      rewrite Hco, np_put_length in Hcl. exact Hcl. }
    destruct (lookup_lt_is_Some_2 c3 i) as [y Hy].
    { rewrite Hlc3, Hlc, Hlaf, <- Hlfo. eapply lookup_lt_Some; eauto. }
    rewrite Hy. reflexivity.
Qed.

Lemma month_count_column_example :
  let r := {| orig_out := [1; 3; 1]; assign_out := [1; 0; 2]; fur_carried := [0; 1; 0];
              fur_out := [0; 1; 0]; count_out := [1; 1; 7]; dict_out := None;
              rng_out := [] |} in
  (forall i x, assign_out r !! i = Some x ->
     1 <= x <= num_of_job_levels (plain_config 2) ->
     count_out r !! i = Some (nth (Z.to_nat (x - 1)) [1; 7] 0))
  /\ (forall i, fur_out r !! i = Some 1 ->
        count_out r !! i = Some (np_count (np_eq (fur_out r) 1))).
Proof.
  intros r.
  refine (month_count_column (plain_config 2) [] false [[1; 7]] [2] [] no_conditions 0
            [1; 3; 1] [0; 0; 0] [0; 0; 0] [0; 1; 0] [1; 1; 1] [0; 0; 0] [0; 0; 0]
            None [] r [1; 7] _ _ _ _ _ _).
  - simpl. lia.
  - reflexivity.
  - reflexivity.
  - reflexivity.
  - intros i x. do 3 (destruct i as [|i]; [simpl; congruence|]). discriminate.
  - vm_compute. reflexivity.
Defined.

(** ** Capacity without conditions *)

Lemma job_pass_plain_inv (cf : config) (J : list (list Z)) (cond : conditions)
  (month : nat) (v : month_views) (job : Z) (col : nat) (a c : list Z)
  (d : option (gmap Z pyfloat)) a' c' d' :
  job_pass cf [] J cond month v job col a c d = Ok (a', c', d') ->
  exists row cnt,
    J !! month = Some row /\ row !! col = Some cnt /\ a' = plain_pass job cnt v a.
Proof.
  unfold job_pass, py_index.
  destruct (J !! month) as [row|]; cbn [bind]; [|discriminate].
  destruct (row !! col) as [cnt|] eqn:Ec; cbn [bind]; [|discriminate].
  destruct (py_in (Z.of_nat month) (all_change_months cond)); cbn;
    intros [= <- _ _]; exists row, cnt; (split; [reflexivity|split; [exact Ec|reflexivity]]).
Qed.

(** The two unconditional fills of a level that nobody holds yet give it
    to at most [cnt] rows. *)
Lemma plain_pass_count (job cnt : Z) (v : month_views) (a : list Z) :
  job <> 0 -> 0 <= cnt ->
  length (orig_job_range v) = length a -> length (fur_range v) = length a ->
  (forall i, a !! i <> Some job) ->
  np_count (np_eq (plain_pass job cnt v a) job) <= cnt.
Proof.
  intros Hj Hcnt Hlo Hlf Hnone. unfold plain_pass, seniority_fill, nbnf_fill.
  rewrite (np_count_eq (np_eq a job)), (count_zero_from_lookup a job Hnone), Z.sub_0_r.
  rewrite (put_first_fill cnt), slots_nonneg by lia.
  set (m1 := np_eq a 0 &&& np_le (orig_job_range v) job &&& np_eq (fur_range v) 0).
  set (a1 := fill (Z.to_nat cnt) m1 a job).
  assert (Hc1 : count_true (np_eq a1 job) = Nat.min (Z.to_nat cnt) (count_true m1)).
  { unfold a1. rewrite fill_count.
    - rewrite (count_zero_from_lookup a job Hnone). reflexivity.
    - apply Forall2_from_lookup.
      + unfold m1, np_and, np_eq, np_le. rewrite !length_zip_with, !length_map. lia.
      + intros i b x Hb Hx ->. intros ->. elim (Hnone i). exact Hx. }
  rewrite (np_count_eq (np_eq a1 job)), Hc1.
  rewrite put_first_fill, slots_nonneg by lia.
  rewrite np_count_eq, fill_count.
  - rewrite Hc1. lia.
  - apply Forall2_from_lookup.
    + unfold np_and, np_eq. rewrite !length_zip_with, !length_map.
      unfold a1. rewrite fill_length. lia.
    + intros i b x Hb Hx ->. intros ->.
      assert (Hs : set_at (np_eq a1 0 &&& np_eq (fur_range v) 0) i = true)
        by (unfold set_at; rewrite Hb; reflexivity).
      rewrite set_at_and, andb_true_iff in Hs. destruct Hs as [Hs _].
      apply set_at_np_eq in Hs. rewrite Hx in Hs. injection Hs as ->. elim Hj.
      reflexivity.
Qed.

Lemma touched_count (f : list Z) (lo hi k : Z) (a a' : list Z) :
  touched f lo hi a a' -> k < lo -> k <> 0 ->
  np_count (np_eq a' k) <= np_count (np_eq a k).
Proof.
  intros [_ Ht] Hk Hk0. rewrite !np_count_eq. apply inj_le. apply count_true_mono.
  intros i Hi. apply set_at_np_eq in Hi. apply set_at_np_eq.
  destruct (Ht i) as [E|(_ & _ & j & Hj & Hj')]; [congruence|].
  rewrite Hi in Hj'. injection Hj' as <-. lia.
Qed.

Lemma plain_loop_within (cf : config) (J : list (list Z)) (cond : conditions)
  (month : nat) (v : month_views) (row : list Z) :
  J !! month = Some row ->
  Forall (fun cnt => 0 <= cnt) row ->
  (forall i x, nonparticip_range v !! i = Some x -> x = 0) ->
  forall (n : nat) (first : Z) (col : nat) (a c : list Z)
         (d : option (gmap Z pyfloat)) a' c' d',
    1 <= first -> Z.of_nat col = first - 1 ->
    length (orig_job_range v) = length a -> length (fur_range v) = length a ->
    (forall i x, a !! i = Some x -> x < first) ->
    job_loop cf [] J cond month v (np_arange first (first + Z.of_nat n)) col a c d
    = Ok (a', c', d') ->
    forall k, first <= k < first + Z.of_nat n ->
      np_count (np_eq a' k) <= nth (Z.to_nat (k - 1)) row 0.
Proof.
  intros HJ Hrow Hnp. induction n as [|n IH];
    intros first col a c d a' c' d' H1 Hcol Hlo Hlf Hbelow; [intros _ k Hk; lia|].
  rewrite np_arange_cons by lia. cbn [job_loop].
  destruct (job_pass cf [] J cond month v first col a c d) as [[[a1 c1] d1]|e] eqn:E;
    cbn [bind]; [|discriminate].
  replace (first + Z.of_nat (S n)) with (first + 1 + Z.of_nat n) by lia.
  intros Hloop k Hk.
  destruct (job_pass_plain_inv _ _ _ _ _ _ _ _ _ _ _ _ _ E)
    as (row' & cnt & HJ' & Hcnt & ->).
  rewrite HJ in HJ'. injection HJ' as <-.
  assert (Hnp1 : forall i, nonparticip_range v !! i <> Some first).
  { intros i Hi. apply Hnp in Hi. lia. }
  destruct (job_pass_touched cf [] J cond month v first col a c d _ _ _ Hnp1 E)
    as (Ht1 & _).
  assert (Hcnt0 : 0 <= cnt).
  { eapply (Forall_lookup_1 (fun cnt => 0 <= cnt) row col cnt); eauto. }
  assert (Hl1 : length (plain_pass first cnt v a) = length a) by apply Ht1.
  assert (Hbelow1 : forall i x, plain_pass first cnt v a !! i = Some x -> x < first + 1).
  { intros i x Hx. destruct Ht1 as [_ Ht1].
    destruct (Ht1 i) as [Es|(_ & _ & j & Hj & Hj')].
    - rewrite Es in Hx. apply Hbelow in Hx. lia.
    - rewrite Hx in Hj'. injection Hj' as <-. lia. }
  destruct (Z.eq_dec k first) as [->|Hne].
  - (* this level: filled within its count, untouched afterwards *)
    assert (Hnpv : forall i x, nonparticip_range v !! i = Some x -> x < first + 1).
    { intros i x Hi. apply Hnp in Hi. lia. }
    assert (Hf1 : 1 <= first + 1) by lia.
    assert (Hcol1 : Z.of_nat (S col) = first + 1 - 1) by lia.
    destruct (job_loop_touched cf [] J cond month v row HJ n (first + 1) (S col)
                _ _ _ _ _ _ Hf1 Hcol1 Hnpv Hloop) as (Ht2 & _).
    etransitivity; [apply (touched_count _ _ _ first _ _ Ht2); lia|].
    etransitivity.
    + apply plain_pass_count; try lia.
      intros i Hi. apply Hbelow in Hi. lia.
    + replace (Z.to_nat (first - 1)) with col by lia.
      apply nth_lookup_Some with (d := 0) in Hcnt. lia.
  - eapply (IH (first + 1) (S col) (plain_pass first cnt v a)); try exact Hloop;
      try exact Hbelow1; lia.
Qed.

(** In a month processed with an empty condition list, whose table row
    has no negative count and whose assignment slice starts unassigned,
    no level in [1 .. K] ends the month with more rows than its count. *)
Theorem plain_month_within_counts (cf : config) (fur_return : bool)
  (J : list (list Z)) (T red : list Z) (cond : conditions) (month : nat)
  (o a c f eg sg np : list Z) (d : option (gmap Z pyfloat)) (g : rng)
  (r : month_result) (row : list Z) :
  0 <= num_of_job_levels cf ->
  J !! month = Some row -> Forall (fun cnt => 0 <= cnt) row ->
  length o = length a -> length f = length a ->
  (forall i x, a !! i = Some x -> x = 0) ->
  (forall i x, np !! i = Some x -> x = 0) ->
  month_body cf [] fur_return J T red cond month o a c f eg sg np d g = Ok r ->
  forall k, 1 <= k <= num_of_job_levels cf ->
    np_count (np_eq (assign_out r) k) <= nth (Z.to_nat (k - 1)) row 0.
Proof.
  intros HK HJ Hrow Hlo Hlf Hzero Hnp Hbody k Hk.
  destruct (month_body_inv _ _ _ _ _ _ _ _ _ _ _ _ _ _ _ _ _ _ Hbody)
    as (c3 & Hlo' & Hlf' & Hloop & _).
  replace (num_of_job_levels cf + 1)
    with (1 + Z.of_nat (Z.to_nat (num_of_job_levels cf))) in Hloop by lia.
  set (v := {| orig_job_range := orig_out r; fur_range := fur_carried r;
               eg_range := eg; sg_range := sg; nonparticip_range := np |}) in Hloop.
  apply (plain_loop_within cf J cond month v row HJ Hrow Hnp
           (Z.to_nat (num_of_job_levels cf)) 1 0%nat a c d _ _ _
           ltac:(lia) eq_refl ltac:(cbn; lia) ltac:(cbn; lia)
           ltac:(intros i x Hx; apply Hzero in Hx; lia) Hloop).
  lia.
Qed.

Lemma plain_month_within_counts_example :
  let r := {| orig_out := [1; 3; 1]; assign_out := [1; 0; 2]; fur_carried := [0; 1; 0];
              fur_out := [0; 1; 0]; count_out := [1; 1; 1]; dict_out := None;
              rng_out := [] |} in
  np_count (np_eq (assign_out r) 1) <= nth (Z.to_nat (1 - 1)) [1; 1] 0
  /\ np_count (np_eq (assign_out r) 2) <= nth (Z.to_nat (2 - 1)) [1; 1] 0.
Proof.
  intros r.
  assert (H : forall k, 1 <= k <= num_of_job_levels (plain_config 2) ->
            np_count (np_eq (assign_out r) k) <= nth (Z.to_nat (k - 1)) [1; 1] 0).
  { refine (plain_month_within_counts (plain_config 2) false [[1; 1]] [2] []
              no_conditions 0 [1; 3; 1] [0; 0; 0] [0; 0; 0] [0; 1; 0] [1; 1; 1]
              [0; 0; 0] [0; 0; 0] None [] r [1; 1] _ _ _ _ _ _ _ _).
    - simpl. lia.
    - reflexivity.
    - repeat constructor; lia.
    - reflexivity.
    - reflexivity.
    - intros i x. do 3 (destruct i as [|i]; [simpl; congruence|]). discriminate.
    - intros i x. do 3 (destruct i as [|i]; [simpl; congruence|]). discriminate.
    - vm_compute. reflexivity. }
  split; apply H; simpl; lia.
Defined.

(** ** ALIGN NEXT: the data follow the employees *)

Lemma np_select_map {A B : Type} (h : A -> B) (a : list A) (mask : list bool) :
  np_select (map h a) mask = map h (np_select a mask).
Proof.
  revert mask; induction a as [|x a IH]; intros [|b m]; simpl; try reflexivity.
  destruct b; simpl; rewrite IH; reflexivity.
Qed.

Lemma np_in1d_ext (a vals vals' : list Z) :
  (forall x, x ∈ a -> existsb (Z.eqb x) vals = existsb (Z.eqb x) vals') ->
  np_in1d a vals = np_in1d a vals'.
Proof.
  intros H. unfold np_in1d. apply map_ext_in. intros x Hx. apply H.
  apply list_elem_of_In. exact Hx.
Qed.

Lemma np_select_sublist (long short : list Z) :
  NoDup long -> sublist short long ->
  np_select long (np_in1d long short) = short.
Proof.
  intros Hnd Hsub. induction Hsub as [|x short long Hsub IH|x short long Hsub IH].
  - reflexivity.
  - (* the employee stays *)
    apply NoDup_cons in Hnd. destruct Hnd as [Hx Hnd].
    change (np_in1d (x :: long) (x :: short))
      with (existsb (Z.eqb x) (x :: short) :: np_in1d long (x :: short)).
    assert (E : existsb (Z.eqb x) (x :: short) = true)
      by (cbn [existsb]; rewrite Z.eqb_refl; reflexivity).
    rewrite E. cbn [np_select]. f_equal.
    rewrite (np_in1d_ext long (x :: short) short); [exact (IH Hnd)|].
    intros y Hy. cbn [existsb].
    destruct (Z.eqb_spec y x) as [->|Hne]; [contradiction|reflexivity].
  - (* the employee leaves *)
    apply NoDup_cons in Hnd. destruct Hnd as [Hx Hnd].
    change (np_in1d (x :: long) short)
      with (existsb (Z.eqb x) short :: np_in1d long short).
    assert (E : existsb (Z.eqb x) short = false).
    { destruct (existsb (Z.eqb x) short) eqn:E; [|reflexivity].
      apply existsb_exists in E. destruct E as (y & Hy & E).
      apply Z.eqb_eq in E. subst y. elim Hx.
      eapply elem_of_sublist; [|exact Hsub]. apply list_elem_of_In. exact Hy. }
    rewrite E. cbn [np_select]. exact (IH Hnd).
Qed.

(** When the keys of this month are distinct and those of the next month
    are some of them in the same order, [align_next] hands each employee
    of the next month the value that the column holds for that employee
    this month. *)
Theorem align_next_follows_keys (h : Z -> Z) (long_index_arr short_index_arr : list Z) :
  NoDup long_index_arr -> sublist short_index_arr long_index_arr ->
  align_next long_index_arr short_index_arr (map h long_index_arr)
  = map h short_index_arr.
Proof.
  intros Hnd Hsub. unfold align_next.
  rewrite np_select_map, np_select_sublist by assumption. reflexivity.
Qed.

Lemma align_next_follows_keys_example :
  align_next [10; 11; 12; 13] [11; 13] (map (fun key => key - 9) [10; 11; 12; 13])
  = map (fun key => key - 9) [11; 13].
Proof.
  apply align_next_follows_keys.
  - repeat constructor; intros H; repeat (apply elem_of_cons in H; destruct H as [H|H];
      [discriminate|]); inversion H.
  - apply sublist_cons, sublist_skip, sublist_cons, sublist_skip, sublist_nil.
Defined.

(** ** COUNT_PER_MONTH *)

Lemma foldl_max_ge (l : list Z) (x : Z) :
  x <= foldl Z.max x l /\ Forall (fun y => y <= foldl Z.max x l) l
  /\ (foldl Z.max x l = x \/ foldl Z.max x l ∈ l).
Proof.
  revert x; induction l as [|a l IH]; intros x; simpl.
  - split; [lia|]. split; [constructor|]. left. reflexivity.
  - destruct (IH (Z.max x a)) as (H1 & H2 & H3). split; [lia|]. split.
    + constructor; [lia|exact H2].
    + destruct H3 as [H3|H3].
      * rewrite H3. destruct (Z.max_spec x a) as [[_ E]|[_ E]]; rewrite E.
        -- right. left.
        -- left. reflexivity.
      * right. right. exact H3.
Qed.

Lemma sumZ_app (l1 l2 : list Z) : sumZ (l1 ++ l2) = sumZ l1 + sumZ l2.
Proof.
  unfold sumZ. induction l1 as [|x l1 IH]; simpl; [reflexivity|]. rewrite IH. lia.
Qed.

Lemma sumZ_map_add {A : Type} (h1 h2 : A -> Z) (l : list A) :
  sumZ (map (fun i => h1 i + h2 i) l) = sumZ (map h1 l) + sumZ (map h2 l).
Proof.
  unfold sumZ. induction l as [|x l IH]; simpl; [reflexivity|]. rewrite IH. lia.
Qed.

Lemma sumZ_map_const {A : Type} (h : A -> Z) (v : Z) (l : list A) :
  (forall x, x ∈ l -> h x = v) -> sumZ (map h l) = v * Z.of_nat (length l).
Proof.
  unfold sumZ. induction l as [|x l IH]; intros H; simpl; [lia|].
  rewrite IH by (intros y Hy; apply H; right; exact Hy).
  rewrite (H x) by left. lia.
Qed.

Lemma np_arange_in (a b k : Z) : k ∈ np_arange a b -> a <= k < b.
Proof.
  intros H. pose proof (np_arange_bounds a b) as Hb.
  rewrite Forall_forall in Hb. apply Hb. exact H.
Qed.

(** How many of the months [0 .. top] a career of [c] months covers. *)
Lemma months_covered (c top : Z) :
  0 <= c <= top ->
  sumZ (map (fun i => if i <=? c then 1 else 0) (np_arange 0 (top + 1))) = c + 1.
Proof.
  intros H. rewrite (np_arange_app 0 (c + 1) (top + 1)) by lia.
  rewrite map_app, sumZ_app.
  rewrite (sumZ_map_const _ 1), (sumZ_map_const _ 0).
  - rewrite np_arange_length. lia.
  - intros i Hi. apply np_arange_in in Hi. destruct (Z.leb_spec i c); [lia|reflexivity].
  - intros i Hi. apply np_arange_in in Hi. destruct (Z.leb_spec i c); [reflexivity|lia].
Qed.

Lemma np_count_ge_cons (c : Z) (l : list Z) (i : Z) :
  np_count (np_ge (c :: l) i) = (if i <=? c then 1 else 0) + np_count (np_ge l i).
Proof.
  rewrite !np_count_eq. unfold np_ge. cbn [map]. rewrite count_true_cons.
  destruct (i <=? c); lia.
Qed.

Lemma career_months_total (l : list Z) (top : Z) :
  Forall (fun c => 0 <= c <= top) l ->
  sumZ (map (fun i => np_count (np_ge l i)) (np_arange 0 (top + 1)))
  = sumZ (map (fun c => c + 1) l).
Proof.
  induction 1 as [|c l Hc _ IH].
  - rewrite (sumZ_map_const _ 0) by reflexivity. reflexivity.
  - rewrite (map_ext _ (fun i => (if i <=? c then 1 else 0) + np_count (np_ge l i)))
      by (intros i; apply np_count_ge_cons).
    rewrite sumZ_map_add, months_covered, IH by exact Hc.
    cbn [map]. unfold sumZ. cbn [foldr]. lia.
Qed.

Lemma np_count_ge_mono (l : list Z) (i j : Z) :
  i <= j -> np_count (np_ge l j) <= np_count (np_ge l i).
Proof.
  intros H. rewrite !np_count_eq. apply inj_le. apply count_true_mono.
  intros k. unfold set_at, np_ge. rewrite !list_lookup_fmap.
  destruct (l !! k) as [x|]; cbn; [|discriminate].
  rewrite !Z.leb_le. lia.
Qed.

Lemma np_count_ge_elem (l : list Z) (i x : Z) :
  x ∈ l -> i <= x -> 1 <= np_count (np_ge l i).
Proof.
  intros Hx Hi. rewrite np_count_eq.
  induction l as [|y l IH]; [inversion Hx|].
  unfold np_ge in *. cbn [map]. rewrite count_true_cons.
  apply elem_of_cons in Hx. destruct Hx as [<-|Hx].
  - destruct (Z.leb_spec i x); lia.
  - specialize (IH Hx). destruct (i <=? y); lia.
Qed.

Lemma np_count_ge_all (l : list Z) (i : Z) :
  Forall (fun c => i <= c) l -> np_count (np_ge l i) = Z.of_nat (length l).
Proof.
  intros H. rewrite np_count_eq. f_equal.
  induction H as [|c l Hc _ IH]; [reflexivity|].
  unfold np_ge in *. cbn [map length]. rewrite count_true_cons, IH.
  destruct (Z.leb_spec i c); lia.
Qed.

(** [count_per_month] of careers that are not negative: one count for
    each month from 0 to the longest career, starting with the number of
    employees, never increasing, never below 1, and adding up to the
    number of employee-months, [sum(career + 1)]. Without employees it
    raises ValueError. *)
Theorem count_per_month_counts (career_months_array : list Z) :
  (career_months_array <> [] -> Forall (fun c => 0 <= c) career_months_array ->
   exists longest counts,
     np_max career_months_array = Ok longest
     /\ count_per_month career_months_array = Ok counts
     /\ length counts = Z.to_nat (longest + 1)
     /\ counts !! 0%nat = Some (Z.of_nat (length career_months_array))
     /\ (forall i x y, counts !! i = Some x -> counts !! S i = Some y -> 1 <= y <= x)
     /\ sumZ counts = sumZ (map (fun c => c + 1) career_months_array))
  /\ count_per_month [] = Raise ValueError.
Proof.
  split; [|reflexivity].
  intros Hne Hpos. destruct career_months_array as [|c0 l]; [congruence|].
  set (top := foldl Z.max c0 l).
  destruct (foldl_max_ge l c0) as (Hc0 & Hall & Hmem). fold top in Hc0, Hall, Hmem.
  assert (Htop : top ∈ c0 :: l).
  { destruct Hmem as [->|H]; [left|right; exact H]. }
  assert (H0 : 0 <= top).
  { apply Forall_cons in Hpos. lia. }
  assert (Hrange : Forall (fun c => 0 <= c <= top) (c0 :: l)).
  { apply Forall_forall. intros c Hc.
    rewrite Forall_forall in Hpos. specialize (Hpos c Hc).
    apply elem_of_cons in Hc. destruct Hc as [->|Hc]; [lia|].
    rewrite Forall_forall in Hall. specialize (Hall c Hc). lia. }
  exists top, (map (fun i => np_count (np_ge (c0 :: l) i)) (np_arange 0 (top + 1))).
  split; [reflexivity|]. split.
  { unfold count_per_month. cbn [np_max bind]. fold top.
    destruct (Z.ltb_spec (top + 1) 0); [lia|reflexivity]. }
  split; [rewrite length_map, np_arange_length; f_equal; lia|].
  assert (Hlk : forall i : nat,
             map (fun i => np_count (np_ge (c0 :: l) i)) (np_arange 0 (top + 1)) !! i
             = if (i <? Z.to_nat (top + 1))%nat
               then Some (np_count (np_ge (c0 :: l) (Z.of_nat i))) else None).
  { intros i. rewrite list_lookup_fmap. unfold np_arange.
    rewrite list_lookup_fmap. destruct (Nat.ltb_spec i (Z.to_nat (top + 1))).
    - rewrite lookup_seq_lt by lia. reflexivity.
    - rewrite lookup_seq_ge by lia. reflexivity. }
  split.
  { rewrite Hlk. destruct (Nat.ltb_spec 0 (Z.to_nat (top + 1))); [|lia].
    f_equal. apply np_count_ge_all. eapply Forall_impl; [exact Hpos|].
    cbn. intros; lia. }
  split.
  { intros i x y. rewrite !Hlk.
    destruct (Nat.ltb_spec i (Z.to_nat (top + 1))); [|discriminate].
    destruct (Nat.ltb_spec (S i) (Z.to_nat (top + 1))); [|discriminate].
    intros [= <-] [= <-]. split.
    - apply (np_count_ge_elem (c0 :: l) _ top Htop). lia.
    - apply (np_count_ge_mono (c0 :: l)). lia. }
  apply career_months_total. exact Hrange.
Qed.

Lemma count_per_month_counts_example :
  exists longest counts,
    np_max [2; 0; 1] = Ok longest
    /\ count_per_month [2; 0; 1] = Ok counts
    /\ length counts = Z.to_nat (longest + 1)
    /\ counts !! 0%nat = Some (Z.of_nat (length [2; 0; 1]))
    /\ (forall i x y, counts !! i = Some x -> counts !! S i = Some y -> 1 <= y <= x)
    /\ sumZ counts = sumZ (map (fun c => c + 1) [2; 0; 1]).
Proof.
  apply (proj1 (count_per_month_counts [2; 0; 1])).
  - discriminate.
  - repeat constructor; lia.
Defined.

(** ** MAKE LOWER SLICE LIMITS *)

Lemma sorted_with_zero (u : list Z) :
  Sorted Z.le u -> Forall (fun x => 0 <= x) u ->
  py_sorted (py_sorted_reverse u ++ [0]) = 0 :: u.
Proof.
  intros Hs Hpos. unfold py_sorted, py_sorted_reverse.
  apply (Sorted_unique Z.le).
  - apply Sorted_merge_sort. apply Z.le_total.
  - apply Sorted_cons; [exact Hs|].
    destruct Hpos; constructor. assumption.
  - rewrite merge_sort_Permutation.
    rewrite Permutation_app_comm. cbn [app]. constructor.
    rewrite reverse_Permutation. apply merge_sort_Permutation.
Qed.

Lemma cumsum_from_length (acc : Z) (a : list Z) : length (cumsum_from acc a) = length a.
Proof. revert acc; induction a as [|x a IH]; intros acc; simpl; auto. Qed.

Lemma cumsum_from_lookup (a : list Z) :
  forall (acc : Z) (i : nat),
    (i < length a)%nat ->
    cumsum_from acc a !! i = Some (acc + sumZ (take (S i) a)).
Proof.
  induction a as [|x a IH]; intros acc i Hi; [simpl in Hi; lia|].
  destruct i as [|i]; cbn [cumsum_from take].
  - cbn. rewrite take_0. unfold sumZ. cbn. f_equal. lia.
  - cbn [lookup list_lookup]. simpl in Hi. rewrite IH by lia.
    f_equal. unfold sumZ. cbn [foldr]. lia.
Qed.

Lemma sumZ_nonneg (l : list Z) : Forall (fun x => 0 <= x) l -> 0 <= sumZ l.
Proof. unfold sumZ. induction 1; simpl; lia. Qed.

Lemma sumZ_take_le (l : list Z) (i j : nat) :
  Forall (fun x => 0 <= x) l -> (i <= j)%nat -> sumZ (take i l) <= sumZ (take j l).
Proof.
  intros Hpos. revert i j. induction Hpos as [|x l Hx Hl IH]; intros i j Hij.
  - rewrite !take_nil. lia.
  - destruct i as [|i], j as [|j]; try lia; cbn [take].
    + pose proof (sumZ_nonneg (x :: take j l)
                    ltac:(constructor; [exact Hx|apply Forall_take; exact Hl])).
      unfold sumZ in *. cbn in *. lia.
    + specialize (IH i j ltac:(lia)). unfold sumZ in *. cbn [foldr]. lia.
Qed.

Lemma cumsum_sorted (a : list Z) (acc : Z) :
  Forall (fun x => 0 <= x) a -> Sorted Z.le (cumsum_from acc a).
Proof.
  intros H. revert acc. induction H as [|x a Hx Ha IH]; intros acc; [constructor|].
  cbn [cumsum_from]. apply Sorted_cons; [apply IH|].
  destruct Ha as [|y a Hy _]; constructor. lia.
Qed.

Lemma removelast_lookup {A : Type} (l : list A) (i : nat) :
  removelast l !! i = if (S i <? length l)%nat then l !! i else None.
Proof.
  rewrite removelast_firstn_len. destruct (Nat.ltb_spec (S i) (length l)).
  - apply lookup_take_lt. lia.
  - apply lookup_take_ge. lia.
Qed.

(** On limits that are sorted and not negative (the cumulative sums of
    the monthly counts) the lower limits are 0 followed by all the limits
    but the last. With the cumulative sums as upper limits and their total
    as the number of rows, they form the calendar that the assignment
    engine works on: a month starts where the month before ends. *)
Theorem lower_slice_limits_of_cumsum (counts : list Z) :
  Forall (fun x => 0 <= x) counts -> counts <> [] ->
  let upper := np_cumsum counts in
  let lower := make_lower_slice_limits upper in
  lower = 0 :: removelast upper
  /\ calendar (map Z.to_nat lower) (map Z.to_nat upper) (Z.to_nat (sumZ counts)).
Proof.
  intros Hpos Hne upper lower.
  assert (Hlu : length upper = length counts) by apply cumsum_from_length.
  assert (Hcl : (0 < length counts)%nat) by (destruct counts; [congruence|simpl; lia]).
  assert (Hup : forall i, (i < length counts)%nat ->
                 upper !! i = Some (sumZ (take (S i) counts))).
  { intros i Hi. unfold upper, np_cumsum. rewrite cumsum_from_lookup by exact Hi.
    reflexivity. }
  assert (Hupos : Forall (fun x => 0 <= x) upper).
  { apply Forall_lookup. intros i x Hx.
    pose proof (lookup_lt_Some _ _ _ Hx) as Hi. rewrite Hup in Hx by lia.
    injection Hx as <-. apply sumZ_nonneg. apply Forall_take. exact Hpos. }
  assert (El : lower = 0 :: removelast upper).
  { unfold lower, make_lower_slice_limits.
    rewrite sorted_with_zero; [|apply cumsum_sorted; exact Hpos|exact Hupos].
    destruct upper as [|u0 us] eqn:Eu; [simpl in Hlu; lia|]. reflexivity. }
  split; [exact El|].
  assert (Hlow : forall m, (m < length counts)%nat ->
                 lower !! m = Some (sumZ (take m counts))).
  { intros m Hm. rewrite El. destruct m as [|m]; [reflexivity|].
    change ((0 :: removelast upper) !! S m) with (removelast upper !! m).
    rewrite removelast_lookup.
    destruct (Nat.ltb_spec (S m) (length upper)); [|lia].
    apply Hup. lia. }
  assert (Hll : length lower = length counts).
  { rewrite El. cbn [length]. rewrite removelast_firstn_len, length_take. lia. }
  split; [rewrite !length_map; lia|]. split.
  - intros m L U. rewrite !list_lookup_fmap.
    destruct (lower !! m) as [lz|] eqn:EL; [|discriminate].
    destruct (upper !! m) as [uz|] eqn:EU; [|discriminate].
    pose proof (lookup_lt_Some _ _ _ EU) as Hm.
    rewrite Hlow in EL by lia. rewrite Hup in EU by lia.
    injection EL as <-. injection EU as <-. cbn. intros [= <-] [= <-].
    pose proof (sumZ_take_le counts m (S m) Hpos ltac:(lia)).
    pose proof (sumZ_take_le counts (S m) (length counts) Hpos ltac:(lia)) as H2.
    rewrite firstn_all in H2.
    pose proof (sumZ_nonneg (take m counts) ltac:(apply Forall_take; exact Hpos)).
    lia.
  - intros m L. rewrite !list_lookup_fmap.
    destruct (lower !! S m) as [lz|] eqn:EL; [|discriminate].
    pose proof (lookup_lt_Some _ _ _ EL) as Hm.
    rewrite Hlow in EL by lia. rewrite Hup by lia.
    injection EL as <-. cbn. intros [= <-]. reflexivity.
Qed.

Lemma lower_slice_limits_example :
  let upper := np_cumsum [3; 2; 2] in
  let lower := make_lower_slice_limits upper in
  lower = 0 :: removelast upper
  /\ calendar (map Z.to_nat lower) (map Z.to_nat upper) (Z.to_nat (sumZ [3; 2; 2])).
Proof.
  apply lower_slice_limits_of_cumsum.
  - repeat constructor; lia.
  - discriminate.
Defined.

(** ** ASSIGN JOBS FULL FLUSH *)

Lemma repeat_drop {A : Type} (x : A) (n s : nat) :
  drop n (repeat x (n + s)) = repeat x s.
Proof. induction n as [|n IH]; simpl; auto. Qed.

Lemma full_flush_loop_top (job_list : list Z) (counts : list nat) :
  Forall (fun n => (n <= length job_list)%nat) counts ->
  forall done : list Z,
    full_flush_loop counts job_list (length done) (done ++ repeat 0 (sum_list counts))
    = Ok (done ++ flat_map (fun n => take n job_list) counts).
Proof.
  induction 1 as [|n counts Hn _ IH]; intros done.
  - cbn. reflexivity.
  - change (sum_list (n :: counts)) with (n + sum_list counts)%nat.
    cbn [full_flush_loop flat_map].
    assert (Hsrc : py_slice 0 n job_list = take n job_list).
    { unfold py_slice. rewrite Nat.sub_0_r, drop_0. reflexivity. }
    rewrite Hsrc.
    assert (Hlen : length (take n job_list)
                   = length (py_slice (length done) (n + length done)
                               (done ++ repeat 0 (n + sum_list counts)))).
    { rewrite length_take. unfold py_slice.
      rewrite length_take, length_drop, length_app, repeat_length. lia. }
    rewrite (np_copyto_same _ _ _ _ Hlen). cbn [bind].
    unfold write_view. rewrite take_app_length.
    rewrite length_take. replace (n `min` length job_list)%nat with n by lia.
    rewrite drop_app_add', repeat_drop by reflexivity.
    replace (length done + n)%nat with (length (done ++ take n job_list)).
    2:{ rewrite length_app, length_take. lia. }
    rewrite (app_assoc done). rewrite IH. rewrite <- app_assoc. reflexivity.
Qed.

(** Full bump and full flush: when no month has more employees than the
    job list has entries, every month's slice is the top of the job list,
    as many entries as the month has employees, with the zeros replaced by
    the furlough level. *)
Theorem full_flush_takes_the_top (monthly_nonret_counts : list nat)
  (job_list : list Z) (job_level_count : Z) :
  Forall (fun n => (n <= length job_list)%nat) monthly_nonret_counts ->
  assign_jobs_full_flush monthly_nonret_counts job_list job_level_count
  = Ok (flat_map (fun n => np_relabel 0 (job_level_count + 1) (take n job_list))
                 monthly_nonret_counts).
Proof.
  intros H. unfold assign_jobs_full_flush.
  pose proof (full_flush_loop_top job_list monthly_nonret_counts H []) as E.
  cbn [length app] in E. rewrite E. cbn [bind].
  f_equal. unfold np_relabel. clear.
  induction monthly_nonret_counts as [|n counts IH]; [reflexivity|].
  cbn [flat_map]. rewrite map_app, IH. reflexivity.
Qed.

Lemma full_flush_example :
  assign_jobs_full_flush [3; 2]%nat [1; 1; 2; 0] 2
  = Ok (flat_map (fun n => np_relabel 0 (2 + 1) (take n [1; 1; 2; 0])) [3; 2]%nat).
Proof. apply full_flush_takes_the_top. repeat constructor; simpl; lia. Defined.

(** ** GET_JOB_CHANGE_MONTHS, GET_REDUCTION_MONTHS *)

Lemma reduction_month_covered (job_changes : list job_change) (m : Z) :
  m ∈ get_job_reduction_months job_changes
  <-> exists change, change ∈ job_changes /\ change_delta change < 0
                     /\ change_start change <= m < change_end change.
Proof.
  unfold get_job_reduction_months. rewrite list_elem_of_In, in_flat_map. split.
  - intros (c & Hc & Hm). exists c. apply list_elem_of_In in Hc.
    destruct (Z.ltb_spec (change_delta c) 0) as [Hd|Hd].
    + apply list_elem_of_In, np_arange_in in Hm. auto.
    + destruct Hm.
  - intros (c & Hc & Hd & Hm). exists c. split; [apply list_elem_of_In; exact Hc|].
    destruct (Z.ltb_spec (change_delta c) 0) as [_|Hd']; [|lia].
    apply list_elem_of_In, np_arange_elem. exact Hm.
Qed.

Lemma change_month_covered (job_changes : list job_change) (m : Z) :
  m ∈ get_job_change_months job_changes
  <-> exists change, change ∈ job_changes
                     /\ change_start change <= m < change_end change.
Proof.
  unfold get_job_change_months. rewrite list_elem_of_In, in_flat_map. split.
  - intros (c & Hc & Hm). exists c. apply list_elem_of_In in Hc.
    apply list_elem_of_In, np_arange_in in Hm. auto.
  - intros (c & Hc & Hm). exists c. split; [apply list_elem_of_In; exact Hc|].
    apply list_elem_of_In, np_arange_elem. exact Hm.
Qed.

(** X13.  A month is a reduction month exactly when a job change with a
    negative total covers it, [start <= month < end]; every reduction
    month is therefore also a job change month. *)
Theorem reduction_months_within_change_months (job_changes : list job_change) (m : Z) :
  (py_in m (get_job_reduction_months job_changes) = true
   <-> exists change, change ∈ job_changes /\ change_delta change < 0
                      /\ change_start change <= m < change_end change)
  /\ (py_in m (get_job_reduction_months job_changes) = true ->
      py_in m (get_job_change_months job_changes) = true).
Proof.
  rewrite !py_in_elem. split; [apply reduction_month_covered|].
  rewrite reduction_month_covered, change_month_covered.
  intros (c & Hc & _ & Hm). eauto.
Qed.

(** ** MONOTONIC TEST *)

Lemma np_all_Forall (mask : list bool) :
  np_all mask = true <-> Forall (fun b => b = true) mask.
Proof.
  unfold np_all. rewrite forallb_forall, Forall_forall. split.
  - intros H b Hb. apply H. apply list_elem_of_In. exact Hb.
  - intros H b Hb. apply H. apply list_elem_of_In. exact Hb.
Qed.

Lemma monotonic_cons (x y : Z) (l : list Z) :
  monotonic (x :: y :: l) = (x <=? y) && monotonic (y :: l).
Proof.
  unfold monotonic, np_all, np_ge. cbn [np_diff map forallb].
  f_equal. destruct (Z.leb_spec 0 (y - x)), (Z.leb_spec x y); auto; lia.
Qed.

(** X14.  [monotonic] answers True exactly for the sequences that never
    decrease from one element to the next; equal neighbours pass the
    test, and so do sequences of fewer than two elements. *)
Theorem monotonic_iff_never_decreasing (sequence : list Z) :
  monotonic sequence = true
  <-> forall (i : nat) (x y : Z),
        sequence !! i = Some x -> sequence !! S i = Some y -> x <= y.
Proof.
  induction sequence as [|x [|y l] IH].
  - split; [intros _ i x y H; discriminate|reflexivity].
  - split; [intros _ [|i] a b H1 H2; discriminate|reflexivity].
  - rewrite monotonic_cons, andb_true_iff, IH. split.
    + intros [Hxy Hl] [|i] a b H1 H2.
      * simpl in H1, H2. injection H1 as <-. injection H2 as <-.
        apply Z.leb_le. exact Hxy.
      * apply (Hl i a b); assumption.
    + intros H. split.
      * apply Z.leb_le. apply (H 0%nat x y); reflexivity.
      * intros i a b H1 H2. apply (H (S i) a b); assumption.
Qed.

(** ** GET_INDEXES_UP *)

Lemma indexes_up_loop (rest : list Z) :
  forall (pre : list Z) (p : Z),
    foldl indexes_up_step (pre ++ p :: rest) (seq (S (length pre)) (length rest))
    = pre ++ p :: raised_from p rest.
Proof.
  induction rest as [|y rest IH]; intros pre p; [reflexivity|].
  cbn [length seq foldl raised_from].
  assert (E : indexes_up_step (pre ++ p :: y :: rest) (S (length pre))
              = (pre ++ [p]) ++ (if y <=? p then p + 1 else y) :: rest).
  { unfold indexes_up_step.
    replace (S (length pre) - 1)%nat with (length pre) by lia.
    rewrite (lookup_app_r pre _ (S (length pre))) by lia.
    replace (S (length pre) - length pre)%nat with 1%nat by lia.
    rewrite (lookup_app_r pre _ (length pre)) by lia.
    rewrite Nat.sub_diag. cbn [lookup list_lookup].
    rewrite <- app_assoc. cbn [app].
    destruct (y <=? p); [|reflexivity].
    rewrite insert_app_r_alt by lia.
    replace (S (length pre) - length pre)%nat with 1%nat by lia. reflexivity. }
  rewrite E.
  pose proof (IH (pre ++ [p]) (if y <=? p then p + 1 else y)) as H.
  rewrite length_app in H. cbn [length] in H.
  replace (length pre + 1)%nat with (S (length pre)) in H by lia.
  rewrite H, <- app_assoc. reflexivity.
Qed.

Lemma get_indexes_up_raised (l : list Z) : get_indexes_up l = raised l.
Proof.
  unfold get_indexes_up. destruct l as [|x rest]; [reflexivity|].
  replace (length (x :: rest) - 1)%nat with (length rest) by (simpl; lia).
  apply (indexes_up_loop rest [] x).
Qed.

Lemma raised_from_length (l : list Z) (p : Z) : length (raised_from p l) = length l.
Proof. revert p; induction l as [|x l IH]; intros p; simpl; [|rewrite IH]; reflexivity. Qed.

Lemma raised_from_increasing (l : list Z) (p : Z) :
  strictly_increasing (p :: raised_from p l).
Proof.
  revert p; induction l as [|x l IH]; intros p [|i] a b H1 H2; try discriminate.
  - simpl in H1, H2. injection H1 as <-. injection H2 as <-.
    destruct (Z.leb_spec x p); lia.
  - apply (IH (if x <=? p then p + 1 else x) i a b); [exact H1|exact H2].
Qed.

Lemma raised_from_above (l : list Z) (p : Z) (i : nat) (x y : Z) :
  l !! i = Some x -> raised_from p l !! i = Some y -> x <= y.
Proof.
  revert p i; induction l as [|z l IH]; intros p [|i] H1 H2; try discriminate.
  - simpl in H1, H2. injection H1 as <-. injection H2 as <-.
    destruct (Z.leb_spec z p); lia.
  - simpl in H1, H2. eapply IH; eassumption.
Qed.

Lemma raised_from_fixed (l : list Z) (p : Z) :
  strictly_increasing (p :: l) -> raised_from p l = l.
Proof.
  revert p; induction l as [|x l IH]; intros p H; [reflexivity|].
  simpl. assert (Hpx : p < x) by (apply (H 0%nat); reflexivity).
  destruct (Z.leb_spec x p); [lia|]. f_equal. apply IH.
  intros i a b H1 H2. apply (H (S i)); assumption.
Qed.

(** X15.  [get_indexes_up] returns as many positions as it was given, the
    first one unchanged, none lowered, and strictly increasing from left
    to right; positions that were strictly increasing already are
    returned as they are. *)
Theorem get_indexes_up_strictly_increasing (list_of_positions : list Z) :
  let out := get_indexes_up list_of_positions in
  length out = length list_of_positions
  /\ out !! 0%nat = list_of_positions !! 0%nat
  /\ strictly_increasing out
  /\ (forall (i : nat) (x y : Z),
        list_of_positions !! i = Some x -> out !! i = Some y -> x <= y)
  /\ (strictly_increasing list_of_positions -> out = list_of_positions).
Proof.
  intros out. subst out. rewrite get_indexes_up_raised.
  destruct list_of_positions as [|x l].
  - repeat split; try reflexivity; intros i a b H; discriminate.
  - cbn [raised]. repeat split.
    + simpl. rewrite raised_from_length. reflexivity.
    + apply raised_from_increasing.
    + intros [|i] a b H1 H2.
      * simpl in H1, H2. injection H1 as <-. injection H2 as <-. lia.
      * simpl in H1, H2. eapply raised_from_above; eassumption.
    + intros H. f_equal. apply raised_from_fixed. exact H.
Qed.

(** ** GET_INDEXES_DOWN *)

Lemma lowered_length (l : list Z) : length (lowered l) = length l.
Proof.
  induction l as [|x l IH]; [reflexivity|]. simpl. revert IH.
  destruct (lowered l) as [|y r]; simpl; intros IH; lia.
Qed.

Lemma indexes_down_loop (l : list Z) :
  forall pre : list Z,
    foldr (fun i acc => indexes_down_step acc i) (pre ++ l)
          (seq (length pre) (length l - 1))
    = pre ++ lowered l.
Proof.
  induction l as [|x l IH]; intros pre; [reflexivity|].
  destruct l as [|y r]; [reflexivity|].
  replace (length (x :: y :: r) - 1)%nat with (S (length (y :: r) - 1))
    by (simpl; lia).
  cbn [seq foldr].
  pose proof (IH (pre ++ [x])) as H.
  rewrite length_app in H. cbn [length] in H.
  replace (length pre + 1)%nat with (S (length pre)) in H by lia.
  rewrite <- app_assoc in H. cbn [app] in H. cbn [length].
  rewrite H. clear H IH.
  pose proof (lowered_length (y :: r)) as Hlen.
  change (lowered (x :: y :: r)) with
    (match lowered (y :: r) with
     | [] => [x]
     | (z :: _) as rest => (if z <=? x then z - 1 else x) :: rest
     end).
  destruct (lowered (y :: r)) as [|z rest]; [discriminate|].
  unfold indexes_down_step.
  rewrite <- app_assoc. cbn [app].
  rewrite (lookup_app_r pre _ (length pre)) by lia.
  rewrite (lookup_app_r pre _ (length pre + 1)) by lia.
  rewrite Nat.sub_diag.
  replace (length pre + 1 - length pre)%nat with 1%nat by lia.
  cbn [lookup list_lookup].
  destruct (z <=? x); [|reflexivity].
  rewrite insert_app_r_alt by lia. rewrite Nat.sub_diag. reflexivity.
Qed.

Lemma foldl_reverse {A B : Type} (f : A -> B -> A) (a : A) (l : list B) :
  foldl f a (reverse l) = foldr (fun x acc => f acc x) a l.
Proof.
  induction l as [|x l IH]; [reflexivity|].
  rewrite reverse_cons, foldl_snoc, IH. reflexivity.
Qed.

Lemma get_indexes_down_lowered (l : list Z) : get_indexes_down l = lowered l.
Proof.
  unfold get_indexes_down. rewrite foldl_reverse.
  apply (indexes_down_loop l []).
Qed.

Lemma lowered_increasing (l : list Z) : strictly_increasing (lowered l).
Proof.
  induction l as [|x l IH]; [intros i a b H; discriminate|].
  simpl. destruct (lowered l) as [|y r] eqn:E.
  - intros [|i] a b H1 H2; discriminate.
  - intros [|i] a b H1 H2.
    + simpl in H1, H2. injection H1 as <-. injection H2 as <-.
      destruct (Z.leb_spec y x); lia.
    + apply (IH i a b); assumption.
Qed.

Lemma lowered_below (l : list Z) (i : nat) (x y : Z) :
  l !! i = Some x -> lowered l !! i = Some y -> y <= x.
Proof.
  revert i; induction l as [|z l IH]; intros i H1 H2; [discriminate|].
  simpl in H2. destruct (lowered l) as [|w r] eqn:E.
  - destruct i as [|i]; [|discriminate].
    simpl in H1, H2. injection H1 as <-. injection H2 as <-. lia.
  - destruct i as [|i].
    + simpl in H1, H2. injection H1 as <-. injection H2 as <-.
      destruct (Z.leb_spec w z); lia.
    + apply (IH i); assumption.
Qed.

Lemma lowered_fixed (l : list Z) : strictly_increasing l -> lowered l = l.
Proof.
  induction l as [|x l IH]; intros H; [reflexivity|].
  simpl. rewrite IH by (intros i a b H1 H2; apply (H (S i)); assumption).
  destruct l as [|y r]; [reflexivity|].
  assert (Hxy : x < y) by (apply (H 0%nat); reflexivity).
  destruct (Z.leb_spec y x); [lia|reflexivity].
Qed.

Lemma lowered_last (l : list Z) : last (lowered l) = last l.
Proof.
  induction l as [|x l IH]; [reflexivity|].
  simpl. destruct (lowered l) as [|y r] eqn:E.
  - destruct l as [|z l]; [reflexivity|].
    pose proof (lowered_length (z :: l)) as Hl. rewrite E in Hl. discriminate.
  - destruct l as [|z l]; [discriminate|].
    rewrite last_cons_cons in *. rewrite IH.
    rewrite (last_cons_cons x z l). reflexivity.
Qed.

(** X16.  [get_indexes_down] returns as many positions as it was given,
    the last one unchanged, none raised, and strictly increasing from left
    to right; positions that were strictly increasing already are
    returned as they are. *)
Theorem get_indexes_down_strictly_increasing (list_of_positions : list Z) :
  let out := get_indexes_down list_of_positions in
  length out = length list_of_positions
  /\ last out = last list_of_positions
  /\ strictly_increasing out
  /\ (forall (i : nat) (x y : Z),
        list_of_positions !! i = Some x -> out !! i = Some y -> y <= x)
  /\ (strictly_increasing list_of_positions -> out = list_of_positions).
Proof.
  intros out. subst out. rewrite get_indexes_down_lowered.
  split; [apply lowered_length|]. split; [apply lowered_last|].
  split; [apply lowered_increasing|]. split; [apply lowered_below|].
  apply lowered_fixed.
Qed.

(** ** Blocks of equal numbers *)

Lemma count_true_app (m1 m2 : list bool) :
  count_true (m1 ++ m2) = (count_true m1 + count_true m2)%nat.
Proof. unfold count_true. rewrite filter_app, length_app. reflexivity. Qed.

Lemma np_count_eq_app (a b : list Z) (v : Z) :
  np_count (np_eq (a ++ b) v) = np_count (np_eq a v) + np_count (np_eq b v).
Proof.
  rewrite !np_count_eq. unfold np_eq. rewrite map_app, count_true_app. lia.
Qed.

Lemma np_count_eq_repeat (x v : Z) (n : nat) :
  np_count (np_eq (repeat x n) v) = if x =? v then Z.of_nat n else 0.
Proof.
  rewrite np_count_eq. induction n as [|n IH]; [destruct (x =? v); reflexivity|].
  cbn [repeat]. unfold np_eq in *. cbn [map]. rewrite count_true_cons.
  destruct (x =? v); lia.
Qed.

Lemma level_blocks_length (counts : list Z) (i : Z) :
  Forall (fun c => 0 <= c) counts ->
  Z.of_nat (length (level_blocks i counts)) = sumZ counts.
Proof.
  intros H. revert i. induction H as [|c counts Hc _ IH]; intros i; [reflexivity|].
  cbn [level_blocks]. rewrite length_app, repeat_length, Nat2Z.inj_add, IH.
  unfold sumZ. simpl. lia.
Qed.

Lemma level_blocks_below (counts : list Z) (i v : Z) :
  v < i -> np_count (np_eq (level_blocks i counts) v) = 0.
Proof.
  revert i. induction counts as [|c counts IH]; intros i Hv; [reflexivity|].
  cbn [level_blocks]. rewrite np_count_eq_app, np_count_eq_repeat, IH by lia.
  destruct (Z.eqb_spec i v); lia.
Qed.

Lemma level_blocks_count (counts : list Z) :
  Forall (fun c => 0 <= c) counts ->
  forall (i : Z) (k : nat) (c : Z),
    counts !! k = Some c ->
    np_count (np_eq (level_blocks i counts) (i + Z.of_nat k)) = c.
Proof.
  induction 1 as [|c0 counts Hc _ IH]; intros i k c Hk; [discriminate|].
  cbn [level_blocks]. rewrite np_count_eq_app, np_count_eq_repeat.
  destruct k as [|k].
  - injection Hk as <-. rewrite level_blocks_below by lia.
    destruct (Z.eqb_spec i (i + Z.of_nat 0)); lia.
  - simpl in Hk. replace (i + Z.of_nat (S k)) with (i + 1 + Z.of_nat k) by lia.
    rewrite (IH (i + 1) k c Hk).
    destruct (Z.eqb_spec i (i + 1 + Z.of_nat k)); lia.
Qed.

Lemma level_blocks_sorted (counts : list Z) (i : Z) :
  Forall (fun x => i <= x) (level_blocks i counts)
  /\ monotonic (level_blocks i counts) = true.
Proof.
  revert i. induction counts as [|c counts IH]; intros i.
  - split; [constructor|reflexivity].
  - destruct (IH (i + 1)) as [Hge Hmono]. cbn [level_blocks].
    induction (Z.to_nat c) as [|n [IHn1 IHn2]]; cbn [repeat app].
    + split; [eapply Forall_impl; [exact Hge|]; simpl; lia|exact Hmono].
    + split; [constructor; [lia|exact IHn1]|].
      revert IHn1 IHn2. destruct (repeat i n ++ level_blocks (i + 1) counts) as [|y r].
      * reflexivity.
      * intros Hy Hm. rewrite monotonic_cons, Hm, andb_true_r.
        apply Forall_inv in Hy. apply Z.leb_le. lia.
Qed.

(** ** MAKE_STOVEPIPE_JOBS_FROM_JOBS_ARR *)

Lemma np_fill_slice_zeros (pre : list Z) (q n : nat) (i : Z) :
  (q <= n)%nat ->
  np_fill_slice (length pre) (length pre + q) i (pre ++ repeat 0 n)
  = pre ++ repeat i q ++ repeat 0 (n - q).
Proof.
  intros Hq. unfold np_fill_slice, write_view, py_slice.
  replace (length pre + q - length pre)%nat with q by lia.
  rewrite drop_app_length, take_app_length, length_take, !repeat_length.
  replace (q `min` n)%nat with q by lia.
  rewrite drop_app_add.
  replace n with (q + (n - q))%nat at 1 by lia.
  rewrite repeat_drop. reflexivity.
Qed.

Lemma stovepipe_loop_blocks (jobs_arr : list Z) :
  Forall (fun c => 0 <= c) jobs_arr ->
  forall (i : Z) (pre : list Z) (n : nat),
    sumZ jobs_arr <= Z.of_nat n ->
    stovepipe_loop jobs_arr i (length pre) (pre ++ repeat 0 n)
    = pre ++ level_blocks i jobs_arr ++ repeat 0 (n - Z.to_nat (sumZ jobs_arr)).
Proof.
  induction 1 as [|q later Hq Hlater IH]; intros i pre n Hn.
  - simpl. rewrite Nat.sub_0_r. reflexivity.
  - pose proof (sumZ_nonneg later Hlater) as Hs.
    assert (E : sumZ (q :: later) = q + sumZ later) by reflexivity.
    rewrite E in *. cbn [stovepipe_loop level_blocks].
    destruct (Z.ltb_spec 0 q) as [Hpos|Hzero].
    + rewrite np_fill_slice_zeros by lia.
      rewrite (app_assoc pre).
      pose proof (IH (i + 1) (pre ++ repeat i (Z.to_nat q)) (n - Z.to_nat q)%nat) as H.
      rewrite length_app, repeat_length in H. rewrite H by lia.
      rewrite <- !app_assoc. do 4 f_equal. lia.
    + replace q with 0 by lia. cbn [Z.to_nat repeat app].
      rewrite (IH (i + 1) pre n) by lia. reflexivity.
Qed.

(** X17.  For job counts that are not negative, and a size that is left
    at zero or not below their sum, [make_stovepipe_jobs_from_jobs_arr]
    returns job number 1 repeated once per job of level 1, then job number
    2, and so on, followed by zeros up to the size asked for: level [k]
    appears exactly [jobs_arr[k - 1]] times. *)
Theorem stovepipe_jobs_level_by_level (jobs_arr : list Z) (total_emp_count : Z) :
  Forall (fun c => 0 <= c) jobs_arr ->
  total_emp_count = 0 \/ sumZ jobs_arr <= total_emp_count ->
  exists out,
    make_stovepipe_jobs_from_jobs_arr jobs_arr total_emp_count = Ok out
    /\ out = level_blocks 1 jobs_arr
             ++ repeat 0 (Z.to_nat (if total_emp_count =? 0 then 0
                                    else total_emp_count - sumZ jobs_arr))
    /\ (forall (k : nat) (c : Z),
          jobs_arr !! k = Some c -> np_count (np_eq out (Z.of_nat k + 1)) = c).
Proof.
  intros Hpos Hsize. pose proof (sumZ_nonneg jobs_arr Hpos) as Hs.
  exists (level_blocks 1 jobs_arr
          ++ repeat 0 (Z.to_nat (if total_emp_count =? 0 then 0
                                 else total_emp_count - sumZ jobs_arr))).
  split; [|split; [reflexivity|]].
  - unfold make_stovepipe_jobs_from_jobs_arr, np_zeros.
    destruct (Z.eqb_spec total_emp_count 0) as [E|E].
    + destruct (Z.ltb_spec (sumZ jobs_arr) 0) as [Hn|Hn]; [lia|]. cbn [bind].
      pose proof (stovepipe_loop_blocks jobs_arr Hpos 1 []
                    (Z.to_nat (sumZ jobs_arr))) as Hloop.
      cbn [length app] in Hloop. rewrite Hloop by lia.
      do 3 f_equal. lia.
    + destruct (Z.ltb_spec total_emp_count 0) as [Hn|Hn]; [lia|]. cbn [bind].
      pose proof (stovepipe_loop_blocks jobs_arr Hpos 1 []
                    (Z.to_nat total_emp_count)) as Hloop.
      cbn [length app] in Hloop. rewrite Hloop by lia.
      do 3 f_equal. lia.
  - intros k c Hk. rewrite np_count_eq_app, np_count_eq_repeat.
    replace (Z.of_nat k + 1) with (1 + Z.of_nat k) by lia.
    rewrite (level_blocks_count jobs_arr Hpos 1 k c Hk).
    destruct (Z.eqb_spec 0 (1 + Z.of_nat k)); lia.
Qed.

Lemma stovepipe_jobs_example :
  exists out,
    make_stovepipe_jobs_from_jobs_arr [2; 0; 1] 4 = Ok out
    /\ out = [1; 1; 3; 0]
    /\ (forall (k : nat) (c : Z),
          [2; 0; 1] !! k = Some c -> np_count (np_eq out (Z.of_nat k + 1)) = c).
Proof.
  refine (stovepipe_jobs_level_by_level [2; 0; 1] 4 _ _).
  - repeat constructor; lia.
  - right. vm_compute. discriminate.
Defined.

(** ** GENERATE MONTH SKELETON *)

Lemma skeleton_slots_block (c : nat) :
  forall (pre : list Z) (n : nat) (i : Z) (slot : option Z),
    (c <= n)%nat ->
    skeleton_slots (np_arange (Z.of_nat (length pre))
                              (Z.of_nat c + Z.of_nat (length pre)))
                   i (pre ++ repeat 0 n) slot
    = Ok (pre ++ repeat i c ++ repeat 0 (n - c),
          match c with
          | O => slot
          | S _ => Some (Z.of_nat (length pre + c) - 1)
          end).
Proof.
  induction c as [|c IH]; intros pre n i slot Hc.
  - rewrite np_arange_nil by lia. simpl. rewrite Nat.sub_0_r. reflexivity.
  - rewrite np_arange_cons by lia. cbn [skeleton_slots].
    rewrite Nat2Z.id, length_app, repeat_length.
    destruct (Nat.ltb_spec (length pre) (length pre + n)) as [_|Hlt]; [|lia].
    destruct n as [|n]; [lia|].
    replace (<[length pre := i]> (pre ++ repeat 0 (S n)))
      with ((pre ++ [i]) ++ repeat 0 n).
    2:{ rewrite insert_app_r_alt by lia. rewrite Nat.sub_diag.
        rewrite <- app_assoc. reflexivity. }
    pose proof (IH (pre ++ [i]) n i (Some (Z.of_nat (length pre)))) as H.
    rewrite length_app in H. cbn [length] in H.
    replace (Z.of_nat (length pre) + 1) with (Z.of_nat (length pre + 1)) by lia.
    replace (Z.of_nat (S c) + Z.of_nat (length pre))
      with (Z.of_nat c + Z.of_nat (length pre + 1)) by lia.
    rewrite H by lia. rewrite <- app_assoc. cbn [repeat app].
    replace (S n - S c)%nat with (n - c)%nat by lia.
    do 2 f_equal. destruct c; f_equal; lia.
Qed.

Lemma skeleton_loop_blocks (counts : list Z) :
  Forall (fun c => 0 <= c) counts ->
  forall (i : Z) (pre : list Z) (n : nat),
    sumZ counts = Z.of_nat n ->
    skeleton_loop counts i (Z.of_nat (length pre)) (pre ++ repeat 0 n)
                  (Some (Z.of_nat (length pre) - 1))
    = Ok (pre ++ level_blocks i counts).
Proof.
  induction 1 as [|c later Hc Hlater IH]; intros i pre n Hn.
  - assert (n = 0)%nat as -> by (unfold sumZ in Hn; simpl in Hn; lia). reflexivity.
  - pose proof (sumZ_nonneg later Hlater) as Hs.
    assert (E : sumZ (c :: later) = c + sumZ later) by reflexivity.
    rewrite E in Hn. cbn [skeleton_loop level_blocks].
    replace c with (Z.of_nat (Z.to_nat c)) at 1 by lia.
    rewrite skeleton_slots_block by lia. cbn [bind fst snd].
    assert (Es : match Z.to_nat c with
                 | O => Some (Z.of_nat (length pre) - 1)
                 | S _ => Some (Z.of_nat (length pre + Z.to_nat c) - 1)
                 end = Some (Z.of_nat (length (pre ++ repeat i (Z.to_nat c))) - 1)).
    { rewrite length_app, repeat_length. destruct (Z.to_nat c); f_equal; lia. }
    rewrite Es.
    replace (Z.of_nat (length (pre ++ repeat i (Z.to_nat c))) - 1 + 1)
      with (Z.of_nat (length (pre ++ repeat i (Z.to_nat c)))) by lia.
    rewrite (app_assoc pre).
    rewrite (IH (i + 1) (pre ++ repeat i (Z.to_nat c)) (n - Z.to_nat c)%nat) by lia.
    rewrite <- app_assoc. reflexivity.
Qed.

(** X18.  For month counts that start with a positive count and hold no
    negative one, [gen_month_skeleton] returns month number 0 repeated
    once per employee of month 0, then month number 1, and so on: month
    [m] appears exactly [month_count_array[m]] times, the months never
    decrease along the array, and its length is the sum of the counts. *)
Theorem gen_month_skeleton_blocks (first : Z) (later : list Z) :
  0 < first ->
  Forall (fun c => 0 <= c) later ->
  exists out,
    gen_month_skeleton (first :: later) = Ok out
    /\ out = level_blocks 0 (first :: later)
    /\ Z.of_nat (length out) = sumZ (first :: later)
    /\ monotonic out = true
    /\ (forall (m : nat) (c : Z),
          (first :: later) !! m = Some c -> np_count (np_eq out (Z.of_nat m)) = c).
Proof.
  intros Hfirst Hlater.
  assert (Hall : Forall (fun c => 0 <= c) (first :: later))
    by (constructor; [lia|exact Hlater]).
  pose proof (sumZ_nonneg later Hlater) as Hs.
  assert (E : sumZ (first :: later) = first + sumZ later) by reflexivity.
  eexists. split; [|split; [reflexivity|split; [|split]]].
  - unfold gen_month_skeleton, np_zeros. rewrite E.
    destruct (Z.ltb_spec (first + sumZ later) 0) as [Hneg|_]; [lia|].
    cbn [bind skeleton_loop].
    pose proof (skeleton_slots_block (Z.to_nat first) []
                  (Z.to_nat (first + sumZ later)) 0 None) as H.
    cbn [length app] in H.
    replace (Z.of_nat (Z.to_nat first) + Z.of_nat 0) with (first + 0) in H by lia.
    change (Z.of_nat 0) with 0 in H.
    rewrite H by lia. clear H. cbn [bind fst snd].
    destruct (Z.to_nat first) as [|k] eqn:Ek; [lia|].
    pose proof (skeleton_loop_blocks later Hlater 1 (repeat 0 (S k))
                  (Z.to_nat (first + sumZ later) - S k)%nat) as H.
    rewrite repeat_length in H.
    replace (Z.of_nat (0 + S k) - 1 + 1) with (Z.of_nat (S k)) by lia.
    replace (Z.of_nat (0 + S k) - 1) with (Z.of_nat (S k) - 1) by lia.
    change (0 + 1) with 1.
    rewrite H by lia. cbn [level_blocks]. rewrite Ek. reflexivity.
  - apply level_blocks_length. exact Hall.
  - apply level_blocks_sorted.
  - intros m c Hm.
    exact (level_blocks_count (first :: later) Hall 0 m c Hm).
Qed.

Lemma gen_month_skeleton_example :
  exists out,
    gen_month_skeleton [2; 0; 1] = Ok out
    /\ out = [0; 0; 2]
    /\ Z.of_nat (length out) = sumZ [2; 0; 1]
    /\ monotonic out = true
    /\ (forall (m : nat) (c : Z),
          [2; 0; 1] !! m = Some c -> np_count (np_eq out (Z.of_nat m)) = c).
Proof.
  refine (gen_month_skeleton_blocks 2 [0; 1] _ _).
  - lia.
  - repeat constructor; lia.
Defined.

(** ** PRECALCULATE FURLOUGHS *)

Lemma calendar_order (lows highs : list nat) (n : nat) :
  calendar lows highs n ->
  forall (d i : nat) (Ui Lj : nat),
    highs !! i = Some Ui -> lows !! (S i + d)%nat = Some Lj -> (Ui <= Lj)%nat.
Proof.
  intros (Hlen & Hin & Hnext). induction d as [|d IH]; intros i Ui Lj Hi Hj.
  - rewrite Nat.add_0_r in Hj. apply Hnext in Hj. rewrite Hi in Hj.
    injection Hj as ->. lia.
  - replace (S i + S d)%nat with (S (S i + d)) in Hj by lia.
    pose proof (Hnext _ _ Hj) as Hu.
    assert (Hlt : (S i + d < length lows)%nat).
    { rewrite Hlen. apply lookup_lt_is_Some. eauto. }
    apply lookup_lt_is_Some in Hlt. destruct Hlt as [L' HL'].
    pose proof (IH i Ui L' Hi HL'). pose proof (Hin _ _ _ HL' Hu). lia.
Qed.

Lemma py_slice_ext (L U : nat) (a b : list Z) :
  (forall p, (L <= p < U)%nat -> a !! p = b !! p) ->
  py_slice L U a = py_slice L U b.
Proof.
  intros H. apply list_eq. intros j. rewrite !py_slice_lookup.
  destruct (Nat.ltb_spec j (U - L)); [|reflexivity]. apply H. lia.
Qed.

Lemma marked_view_length (view : list Z) (t h : Z) :
  length (marked_view view t h) = length view.
Proof.
  unfold marked_view. destruct (t - h <? 0); [apply np_put_length|reflexivity].
Qed.

Lemma marked_view_lookup (view : list Z) (t h : Z) (j : nat) :
  marked_view view t h !! j
  = (fun x => if (t <? h)
                 && most_junior_active view
                      (Z.to_nat (np_count (np_eq view 0) - (h - t))) j
              then 1 else x) <$> view !! j.
Proof.
  unfold marked_view.
  destruct (Z.ltb_spec (t - h) 0) as [Hs|Hs]; destruct (Z.ltb_spec t h) as [Hth|Hth];
    try lia.
  - rewrite put_from_fill, fill_from_lookup. unfold most_junior_active, skipped.
    destruct (Z.leb_spec 0 (t - h)) as [Hx|_]; [lia|].
    rewrite np_count_eq.
    replace (Z.to_nat (Z.of_nat (count_true (np_eq view 0)) - (h - t)))
      with (count_true (np_eq view 0) - Z.to_nat (- (t - h)))%nat by lia.
    reflexivity.
  - simpl. destruct (view !! j); reflexivity.
Qed.

Lemma marked_view_rows (view : list Z) (t h : Z) (j : nat) :
  marked_view view t h !! j = view !! j
  \/ (view !! j = Some 0 /\ marked_view view t h !! j = Some 1).
Proof.
  rewrite marked_view_lookup. destruct (view !! j) as [x|] eqn:E; [|left; reflexivity].
  simpl. destruct (t <? h); [|left; reflexivity]. simpl.
  unfold most_junior_active, set_at, np_eq. rewrite list_lookup_fmap, E. simpl.
  destruct (Z.eqb_spec x 0) as [->|Hx]; [|left; reflexivity]. simpl.
  destruct (_ <=? _)%nat; [right; split; reflexivity|left; reflexivity].
Qed.

Lemma marked_view_active (view : list Z) (t h : Z) :
  t < h ->
  np_count (np_eq (marked_view view t h) 0)
  = Z.max 0 (np_count (np_eq view 0) - (h - t)).
Proof.
  intros Hth. unfold marked_view.
  destruct (Z.ltb_spec (t - h) 0) as [_|Hs]; [|lia].
  rewrite put_from_fill, !np_count_eq, fill_from_active. unfold skipped.
  destruct (Z.leb_spec 0 (t - h)) as [Hx|_]; lia.
Qed.

Lemma precalculate_month_view (totals heads : list Z) (lows highs : list nat)
  (fur : list Z) (i L U : nat) (t h : Z) :
  lows !! i = Some L -> highs !! i = Some U ->
  totals !! i = Some t -> heads !! i = Some h ->
  (L <= U <= length fur)%nat ->
  precalculate_month totals heads lows highs fur i
  = Ok (write_view L (marked_view (py_slice L U fur) t h) fur).
Proof.
  intros HL HU Ht Hh Hb. unfold precalculate_month, py_index, marked_view.
  rewrite HL, HU, Ht, Hh. cbn [bind].
  destruct (t - h <? 0); [reflexivity|].
  f_equal. unfold write_view, py_slice.
  rewrite length_take, length_drop.
  replace (L + (U - L) `min` (length fur - L))%nat with U by lia.
  replace (take (U - L) (drop L fur) ++ drop U fur) with (drop L fur).
  - symmetry. apply take_drop.
  - rewrite <- (take_drop (U - L) (drop L fur)) at 1. f_equal.
    rewrite drop_drop. f_equal. lia.
Qed.

Section Precalculate.

Variables (monthly_job_totals head_counts : list Z) (lows highs : list nat) (n : nat).
Hypothesis Hcal : calendar lows highs n.

(** The months [a .. a + k) of the loop, started on [cur]. *)
Lemma precalculate_loop_views (k : nat) :
  forall (a : nat) (cur : list Z),
    length cur = n ->
    (a + k <= length lows)%nat ->
    (a + k <= length monthly_job_totals)%nat ->
    (a + k <= length head_counts)%nat ->
    exists out,
      precalculate_loop (seq a k) monthly_job_totals head_counts lows highs cur = Ok out
      /\ length out = n
      /\ (forall p, out !! p = cur !! p \/ (cur !! p = Some 0 /\ out !! p = Some 1))
      /\ (forall p, (forall i L, (a <= i)%nat -> lows !! i = Some L -> (p < L)%nat) ->
                    out !! p = cur !! p)
      /\ (forall i L U t h,
            (a <= i < a + k)%nat ->
            lows !! i = Some L -> highs !! i = Some U ->
            monthly_job_totals !! i = Some t -> head_counts !! i = Some h ->
            py_slice L U out = marked_view (py_slice L U cur) t h).
Proof.
  destruct Hcal as (Hlen & Hin & Hnext).
  induction k as [|k IH]; intros a cur Hcur Hl Ht Hh.
  - exists cur. split; [reflexivity|]. split; [exact Hcur|].
    split; [intros p; left; reflexivity|]. split; [reflexivity|].
    intros i L U t h Hi. lia.
  - destruct (lookup_lt_is_Some_2 lows a ltac:(lia)) as [La HLa].
    destruct (lookup_lt_is_Some_2 highs a ltac:(lia)) as [Ua HUa].
    destruct (lookup_lt_is_Some_2 monthly_job_totals a ltac:(lia)) as [ta Hta].
    destruct (lookup_lt_is_Some_2 head_counts a ltac:(lia)) as [ha Hha].
    pose proof (Hin _ _ _ HLa HUa) as Hb. rewrite <- Hcur in Hb.
    cbn [seq precalculate_loop].
    rewrite (precalculate_month_view _ _ _ _ cur a La Ua ta ha HLa HUa Hta Hha Hb).
    cbn [bind].
    set (new := marked_view (py_slice La Ua cur) ta ha).
    assert (Hnew : length new = (Ua - La)%nat).
    { unfold new. rewrite marked_view_length. apply py_slice_length. lia. }
    set (cur1 := write_view La new cur).
    assert (Hcur1 : length cur1 = n).
    { unfold cur1. rewrite write_view_length by lia. exact Hcur. }
    assert (Hrow : forall p,
               cur1 !! p = if (p <? La)%nat then cur !! p
                           else if (p <? Ua)%nat then new !! (p - La)%nat
                                else cur !! p).
    { intros p. unfold cur1. rewrite write_view_lookup by lia.
      destruct (Nat.ltb_spec p La); [reflexivity|].
      rewrite Hnew. replace (La + (Ua - La))%nat with Ua by lia. reflexivity. }
    destruct (IH (S a) cur1 Hcur1 ltac:(lia) ltac:(lia) ltac:(lia))
      as (out & Hrun & Hout & Hdis & Hframe & Hviews).
    exists out. split; [exact Hrun|]. split; [exact Hout|].
    assert (Hlater : forall i L, (S a <= i)%nat -> lows !! i = Some L -> (Ua <= L)%nat).
    { intros i L Hi HL. apply (calendar_order lows highs n Hcal (i - S a) a Ua L HUa).
      replace (S a + (i - S a))%nat with i by lia. exact HL. }
    assert (Hstep : forall p, cur1 !! p = cur !! p
                              \/ (cur !! p = Some 0 /\ cur1 !! p = Some 1)).
    { intros p. rewrite Hrow.
      destruct (Nat.ltb_spec p La); [left; reflexivity|].
      destruct (Nat.ltb_spec p Ua); [|left; reflexivity].
      assert (Ev : py_slice La Ua cur !! (p - La)%nat = cur !! p).
      { rewrite py_slice_lookup. destruct (Nat.ltb_spec (p - La) (Ua - La)); [|lia].
        f_equal. lia. }
      destruct (marked_view_rows (py_slice La Ua cur) ta ha (p - La)) as [E|[E1 E2]].
      - left. unfold new. rewrite E. exact Ev.
      - right. unfold new. rewrite E2. rewrite <- Ev. auto. }
    split; [|split].
    + intros p. destruct (Hdis p) as [E|[E1 E2]]; destruct (Hstep p) as [F|[F1 F2]].
      * left. congruence.
      * right. split; [exact F1|congruence].
      * right. split; [congruence|exact E2].
      * rewrite F2 in E1. discriminate.
    + intros p Hp. rewrite Hframe.
      * rewrite Hrow. pose proof (Hp a La (Nat.le_refl a) HLa) as Hlt.
        destruct (Nat.ltb_spec p La); [reflexivity|lia].
      * intros i L Hi HL. apply (Hp i L); [lia|exact HL].
    + intros i L U t h Hi HL HU Hti Hhi.
      destruct (Nat.eq_dec i a) as [->|Hne].
      * rewrite HLa in HL. injection HL as <-. rewrite HUa in HU. injection HU as <-.
        rewrite Hta in Hti. injection Hti as <-. rewrite Hha in Hhi. injection Hhi as <-.
        transitivity (py_slice La Ua cur1).
        -- apply py_slice_ext. intros p Hp. apply Hframe.
           intros j L Hj HL. pose proof (Hlater j L Hj HL). lia.
        -- unfold cur1. apply py_slice_write_view; [lia|exact Hnew|lia].
      * rewrite (Hviews i L U t h ltac:(lia) HL HU Hti Hhi). f_equal.
        apply py_slice_ext. intros p Hp. rewrite Hrow.
        pose proof (Hlater i L ltac:(lia) HL) as HUL.
        destruct (Nat.ltb_spec p La); [reflexivity|].
        destruct (Nat.ltb_spec p Ua); [lia|reflexivity].
Qed.

End Precalculate.

(** X19.  On month slices that follow one another in the long array,
    [precalculate_fur_without_recalls] never clears a furlough mark and
    changes no row but from 0 to 1.  A month with fewer jobs than
    employees is left with [active - (head - total)] active rows, none
    when that is negative: the marked rows are the most junior active
    rows of the month.  A month with jobs for everyone is left as it was. *)
Theorem precalculate_marks_most_junior
  (monthly_job_totals head_counts fur_data : list Z) (lows highs : list nat) :
  calendar lows highs (length fur_data) ->
  (length head_counts <= length lows)%nat ->
  (length head_counts <= length monthly_job_totals)%nat ->
  exists out,
    precalculate_fur_without_recalls monthly_job_totals head_counts fur_data lows highs
    = Ok out
    /\ length out = length fur_data
    /\ (forall p, out !! p = fur_data !! p
                  \/ (fur_data !! p = Some 0 /\ out !! p = Some 1))
    /\ (forall i L U t h,
          lows !! i = Some L -> highs !! i = Some U ->
          monthly_job_totals !! i = Some t -> head_counts !! i = Some h ->
          let view := py_slice L U fur_data in
          let keep := Z.max 0 (np_count (np_eq view 0) - (h - t)) in
          (t < h ->
           np_count (np_eq (py_slice L U out) 0) = keep
           /\ forall j,
                py_slice L U out !! j
                = (fun x => if most_junior_active view (Z.to_nat keep) j then 1 else x)
                    <$> view !! j)
          /\ (h <= t -> py_slice L U out = view)).
Proof.
  intros Hcal Hl Ht.
  destruct (precalculate_loop_views monthly_job_totals head_counts lows highs
              (length fur_data) Hcal (length head_counts) 0%nat fur_data eq_refl
              ltac:(lia) ltac:(lia) ltac:(lia))
    as (out & Hrun & Hout & Hdis & _ & Hviews).
  exists out. split; [exact Hrun|]. split; [exact Hout|]. split; [exact Hdis|].
  intros i L U t h HL HU Hti Hhi view keep.
  assert (Hi : (0 <= i < 0 + length head_counts)%nat).
  { split; [lia|]. simpl. apply lookup_lt_is_Some. eauto. }
  rewrite (Hviews i L U t h Hi HL HU Hti Hhi). fold view. split.
  - intros Hth. split; [apply marked_view_active; exact Hth|].
    intros j. rewrite marked_view_lookup.
    destruct (Z.ltb_spec t h) as [_|Hx]; [|lia]. cbn [andb].
    unfold keep.
    replace (Z.to_nat (Z.max 0 (np_count (np_eq view 0) - (h - t))))
      with (Z.to_nat (np_count (np_eq view 0) - (h - t))) by lia.
    reflexivity.
  - intros Hth. unfold marked_view.
    destruct (Z.ltb_spec (t - h) 0); [lia|reflexivity].
Qed.

Lemma precalculate_calendar : calendar [0; 2]%nat [2; 5]%nat 5.
Proof.
  split; [reflexivity|]. split.
  - intros [|[|m]] L U; simpl; try discriminate; intros [= <-] [= <-]; lia.
  - intros [|[|m]] L; simpl; try discriminate. intros [= <-]. reflexivity.
Qed.

Lemma precalculate_example :
  let fur_data := [0; 0; 0; 0; 0] in
  let lows := [0; 2]%nat in
  let highs := [2; 5]%nat in
  exists out,
    precalculate_fur_without_recalls [2; 1] [2; 3] fur_data lows highs = Ok out
    /\ length out = length fur_data
    /\ (forall p, out !! p = fur_data !! p
                  \/ (fur_data !! p = Some 0 /\ out !! p = Some 1))
    /\ (forall i L U t h,
          lows !! i = Some L -> highs !! i = Some U ->
          [2; 1] !! i = Some t -> [2; 3] !! i = Some h ->
          let view := py_slice L U fur_data in
          let keep := Z.max 0 (np_count (np_eq view 0) - (h - t)) in
          (t < h ->
           np_count (np_eq (py_slice L U out) 0) = keep
           /\ forall j,
                py_slice L U out !! j
                = (fun x => if most_junior_active view (Z.to_nat keep) j then 1 else x)
                    <$> view !! j)
          /\ (h <= t -> py_slice L U out = view)).
Proof.
  intros fur_data lows highs.
  refine (precalculate_marks_most_junior [2; 1] [2; 3] fur_data lows highs _ _ _).
  - exact precalculate_calendar.
  - simpl. lia.
  - simpl. lia.
Defined.

